(** * Multi-game leaderboard: parser, rank ordering, state codec and merge

    A shallow embedding of [src/parser.js], [storage.js] and the merge loop
    of [sync.js], followed by the properties of the specification that
    concern them.

    Conventions of the embedding.
    - A JavaScript string is a [string]; the characters are taken to be
      ASCII, so [toLowerCase] folds [A-Z] only and the white space of
      [trim] and of the pattern [\s] is TAB, LF, VT, FF, CR and SPACE.
    - A JavaScript number that the program computes is an integer or [NaN]:
      [num] is [option Z], with [None] for [NaN]. Integers are exact (the
      program's numbers stay far below 2^53).
    - [null] and [undefined] are [None] of an [option]; an absent object
      field is [None].
    - [new Date(s)] accepts the ECMAScript date-time string format and then
      falls back on an implementation-defined grammar: the fallback is a
      parameter [legacy] of every definition that reads a date. *)

From Stdlib Require Import ZArith Lia Ascii String DecimalString DecimalN.
From stdpp Require Import base option list strings sorting.

Local Open Scope Z_scope.

(* ================================================================== *)
(** * JavaScript primitives *)
(* ================================================================== *)

(** [None] is [NaN]. *)
Definition num : Type := option Z.

Definition isNaN (n : num) : bool :=
  match n with None => true | Some _ => false end.

(** Truthiness of a number: [NaN] and [0] are falsy. *)
Definition num_truthy (n : num) : bool :=
  match n with None => false | Some z => negb (z =? 0) end.

(** Truthiness of a string: only the empty string is falsy. *)
Definition str_truthy (s : string) : bool :=
  match s with EmptyString => false | String _ _ => true end.

Definition num_add (a b : num) : num :=
  match a, b with Some x, Some y => Some (x + y) | _, _ => None end.

Definition num_sub (a b : num) : num :=
  match a, b with Some x, Some y => Some (x - y) | _, _ => None end.

(** [a !== b] on numbers: [NaN] differs from everything, itself included. *)
Definition num_strict_ne (a b : num) : bool :=
  match a, b with Some x, Some y => negb (x =? y) | _, _ => true end.

(** [a < b] on numbers: false as soon as one side is [NaN]. *)
Definition num_lt (a b : num) : bool :=
  match a, b with Some x, Some y => x <? y | _, _ => false end.

Definition is_space (c : ascii) : bool := Ascii.is_space c.

Definition str_eqb (a b : string) : bool := bool_decide (a = b).

Fixpoint trimStart (s : string) : string :=
  match s with
  | EmptyString => EmptyString
  | String c r => if is_space c then trimStart r else s
  end.

Fixpoint trimEnd (s : string) : string :=
  match s with
  | EmptyString => EmptyString
  | String c r =>
      match trimEnd r with
      | EmptyString => if is_space c then EmptyString else String c EmptyString
      | r' => String c r'
      end
  end.

Definition trim (s : string) : string := trimEnd (trimStart s).

(** Prepends a character to the first piece of a split in progress. *)
Definition cons_head (c : ascii) (l : list string) : list string :=
  match l with
  | [] => [String c EmptyString]
  | h :: t => String c h :: t
  end.

(** [s.split(sep)] for a one-character separator: [n] separators give
    [n + 1] pieces, and the empty string gives one empty piece. *)
Fixpoint split_char (sep : ascii) (s : string) : list string :=
  match s with
  | EmptyString => [EmptyString]
  | String c r =>
      if Ascii.eqb c sep then EmptyString :: split_char sep r
      else cons_head c (split_char sep r)
  end.

(** [s.split(/\s+/)]: the pieces between maximal runs of white space;
    [in_sep] tells that the previous character belonged to a run. *)
Fixpoint split_ws_go (in_sep : bool) (s : string) : list string :=
  match s with
  | EmptyString => [EmptyString]
  | String c r =>
      if is_space c then
        (if in_sep then split_ws_go true r
         else EmptyString :: split_ws_go true r)
      else cons_head c (split_ws_go false r)
  end.

Definition split_ws (s : string) : list string := split_ws_go false s.

(** [l.join(sep)]. *)
Fixpoint join (sep : string) (l : list string) : string :=
  match l with
  | [] => EmptyString
  | [x] => x
  | x :: t => x +:+ sep +:+ join sep t
  end.

Definition startsWith (s p : string) : bool := String.prefix p s.

(** [s.indexOf(needle)], with [-1] when there is no occurrence. *)
Fixpoint indexOf (s needle : string) : Z :=
  if String.prefix needle s then 0
  else match s with
       | EmptyString => -1
       | String _ r => let i := indexOf r needle in
                       if i <? 0 then -1 else i + 1
       end.

Definition includes (s needle : string) : bool := 0 <=? indexOf s needle.

Definition str_length (s : string) : Z := Z.of_nat (String.length s).

Definition clamp (len i : Z) : Z := Z.max 0 (Z.min len i).

(** [s.substring(a, b)]: both bounds are clamped to the string and swapped
    when they come in the wrong order. *)
Definition substring (s : string) (a b : Z) : string :=
  let a' := clamp (str_length s) a in
  let b' := clamp (str_length s) b in
  let lo := Z.min a' b' in
  let hi := Z.max a' b' in
  String.substring (Z.to_nat lo) (Z.to_nat (hi - lo)) s.

(** [s.substring(a)]. *)
Definition substring_from (s : string) (a : Z) : string :=
  substring s a (str_length s).

Definition lower_char (c : ascii) : ascii :=
  let n := nat_of_ascii c in
  if (Nat.leb 65 n && Nat.leb n 90)%bool then ascii_of_nat (n + 32) else c.

Fixpoint toLowerCase (s : string) : string :=
  match s with
  | EmptyString => EmptyString
  | String c r => String (lower_char c) (toLowerCase r)
  end.

Fixpoint str_filter (keep : ascii -> bool) (s : string) : string :=
  match s with
  | EmptyString => EmptyString
  | String c r => if keep c then String c (str_filter keep r)
                  else str_filter keep r
  end.

Definition digit_of_char (c : ascii) : option (Decimal.uint -> Decimal.uint) :=
  match c with
  | "0" => Some Decimal.D0 | "1" => Some Decimal.D1 | "2" => Some Decimal.D2
  | "3" => Some Decimal.D3 | "4" => Some Decimal.D4 | "5" => Some Decimal.D5
  | "6" => Some Decimal.D6 | "7" => Some Decimal.D7 | "8" => Some Decimal.D8
  | "9" => Some Decimal.D9 | _ => None
  end%char.

(** The longest prefix of decimal digits, most significant first, and the
    rest of the string. *)
Fixpoint read_digits (s : string) : Decimal.uint * string :=
  match s with
  | EmptyString => (Decimal.Nil, EmptyString)
  | String c r =>
      match digit_of_char c with
      | Some d => let '(ds, rest) := read_digits r in (d ds, rest)
      | None => (Decimal.Nil, s)
      end
  end.

Definition uint_value (d : Decimal.uint) : Z := Z.of_N (N.of_uint d).

(** [parseInt(s, 10)]: leading white space, an optional sign, then the
    longest run of digits; [NaN] when there is no digit. *)
Definition parseInt (s : string) : num :=
  let s1 := trimStart s in
  let '(neg, s2) :=
    match s1 with
    | String "-" r => (true, r)
    | String "+" r => (false, r)
    | _ => (false, s1)
    end in
  match fst (read_digits s2) with
  | Decimal.Nil => None
  | d => Some (if neg then - uint_value d else uint_value d)
  end.

Definition nat_digits (n : N) : string :=
  NilEmpty.string_of_uint (N.to_uint n).

(** The text of a number inside a template literal or a [join]. *)
Definition num_to_string (n : num) : string :=
  match n with
  | None => "NaN"
  | Some z => if z <? 0 then String "-" (nat_digits (Z.to_N (- z)))
              else nat_digits (Z.to_N z)
  end.

(* ================================================================== *)
(** * Dates *)
(* ================================================================== *)

Definition is_leap (y : Z) : bool :=
  (y mod 4 =? 0) && (negb (y mod 100 =? 0) || (y mod 400 =? 0)).

Definition days_in_month (y m : Z) : Z :=
  if m =? 2 then (if is_leap y then 29 else 28)
  else if (m =? 4) || (m =? 6) || (m =? 9) || (m =? 11) then 30
  else 31.

(** Day number of a proleptic Gregorian date, counted from 1970-01-01. *)
Definition days_from_civil (y m d : Z) : Z :=
  let y' := if m <=? 2 then y - 1 else y in
  let era := y' / 400 in
  let yoe := y' - era * 400 in
  let mp := (m + 9) mod 12 in
  let doy := (153 * mp + 2) / 5 + d - 1 in
  let doe := yoe * 365 + yoe / 4 - yoe / 100 + doy in
  era * 146097 + doe - 719468.

Definition civil_from_days (z : Z) : Z * Z * Z :=
  let z := z + 719468 in
  let era := z / 146097 in
  let doe := z - era * 146097 in
  let yoe := (doe - doe / 1460 + doe / 36524 - doe / 146096) / 365 in
  let doy := doe - (365 * yoe + yoe / 4 - yoe / 100) in
  let mp := (5 * doy + 2) / 153 in
  let d := doy - (153 * mp + 2) / 5 + 1 in
  let m := if mp <? 10 then mp + 3 else mp - 9 in
  let y := yoe + era * 400 in
  (if m <=? 2 then y + 1 else y, m, d).

Definition ms_per_day : Z := 86400000.

(** Reads exactly [n] decimal digits. *)
Fixpoint fixed_digits (n : nat) (acc : Z) (s : string) : option (Z * string) :=
  match n with
  | O => Some (acc, s)
  | S n' =>
      match s with
      | String c r =>
          match Ascii.is_nat c with
          | Some k => fixed_digits n' (10 * acc + Z.of_nat k) r
          | None => None
          end
      | EmptyString => None
      end
  end.

Definition expect (c : ascii) (s : string) : option string :=
  match s with
  | String c' r => if Ascii.eqb c c' then Some r else None
  | EmptyString => None
  end.

(** The two shapes of the ECMAScript date-time string format that the
    program itself writes and documents: the date-only form [YYYY-MM-DD]
    (read as UTC) and the full form [YYYY-MM-DDTHH:mm:ss.sssZ] of
    [toISOString]; element values must be legal. Any other text is left to
    the fallback grammar. *)
Definition parse_iso (s : string) : option Z :=
  '(y, s) ← fixed_digits 4 0 s;
  s ← expect "-" s;
  '(m, s) ← fixed_digits 2 0 s;
  s ← expect "-" s;
  '(d, s) ← fixed_digits 2 0 s;
  if negb ((1 <=? m) && (m <=? 12) && (1 <=? d) && (d <=? days_in_month y m))
  then None
  else
    let day := days_from_civil y m d * ms_per_day in
    match s with
    | EmptyString => Some day
    | _ =>
        s ← expect "T" s;
        '(hh, s) ← fixed_digits 2 0 s;
        s ← expect ":" s;
        '(mi, s) ← fixed_digits 2 0 s;
        s ← expect ":" s;
        '(ss, s) ← fixed_digits 2 0 s;
        s ← expect "." s;
        '(ms, s) ← fixed_digits 3 0 s;
        s ← expect "Z" s;
        match s with
        | EmptyString =>
            if (hh <=? 23) && (mi <=? 59) && (ss <=? 59)
            then Some (day + hh * 3600000 + mi * 60000 + ss * 1000 + ms)
            else None
        | _ => None
        end
    end.

(** A time value is kept only inside the range of [Date]. *)
Definition time_clip (t : num) : num :=
  match t with
  | Some z => if Z.abs z <=? 8640000000000000 then Some z else None
  | None => None
  end.

(** [new Date(s)] as its time value in milliseconds, [NaN] for an invalid
    date. *)
Definition Date (legacy : string -> num) (s : string) : num :=
  match parse_iso s with
  | Some t => Some t
  | None => time_clip (legacy s)
  end.

(** Decimal digits of [n], left-padded with zeros to [width]. *)
Definition pad (width : nat) (n : Z) : string :=
  let ds := nat_digits (Z.to_N n) in
  String.concat "" (replicate (width - String.length ds) "0") +:+ ds.

(** [date.toISOString()] of a valid time value. *)
Definition toISOString (t : Z) : string :=
  let days := t / ms_per_day in
  let rest := t mod ms_per_day in
  let '(y, m, d) := civil_from_days days in
  let year := if (0 <=? y) && (y <=? 9999) then pad 4 y
              else (if y <? 0 then "-" else "+") +:+ pad 6 (Z.abs y) in
  year +:+ "-" +:+ pad 2 m +:+ "-" +:+ pad 2 d +:+ "T" +:+
  pad 2 (rest / 3600000) +:+ ":" +:+ pad 2 (rest / 60000 mod 60) +:+ ":" +:+
  pad 2 (rest / 1000 mod 60) +:+ "." +:+ pad 3 (rest mod 1000) +:+ "Z".

(* ================================================================== *)
(** * Data model *)
(* ================================================================== *)

(** [{ rank, tier }]. *)
Record Rank : Type := mkRank { rank : string; tier : num }.

(** A player object. The parser writes [game] and [rawMention] besides the
    fields of the record proper; the two-rank games carry [role],
    [peakRank] and [peakValue], the single-rank game [heroName]. *)
Record Player : Type := mkPlayer {
  game : option string;
  userId : string;
  role : option string;
  heroName : option string;
  currentRank : option Rank;
  currentValue : num;
  peakRank : option Rank;
  peakValue : option num;
  lastUpdated : string;
  rawMention : option string
}.

(** A fetched message, as far as the program reads it. *)
Record Message : Type := mkMessage {
  id : string;
  content : string;
  createdTimestamp : Z;
  author : string
}.

#[global] Instance Rank_eq_dec : EqDecision Rank.
Proof. solve_decision. Defined.

#[global] Instance Player_eq_dec : EqDecision Player.
Proof. solve_decision. Defined.

(* ================================================================== *)
(** * parser.js *)
(* ================================================================== *)

Definition MARVEL_RIVALS_RANKS : list string :=
  ["Bronze"; "Silver"; "Gold"; "Platinum"; "Diamond";
   "Grandmaster"; "Celestial"; "Eternity"; "One Above All"].

Definition OVERWATCH_RANKS : list string :=
  ["Bronze"; "Silver"; "Gold"; "Platinum"; "Diamond";
   "Master"; "Grandmaster"; "Champion"; "Top 500"].

Definition DEADLOCK_RANKS : list string :=
  ["Initiate"; "Seeker"; "Alchemist"; "Arcanist"; "Ritualist";
   "Emissary"; "Archon"; "Oracle"; "Phantom Ascendant"; "Eternus"].

(** The capture of the first match of [/<@!?(\d+)>/] that starts exactly
    at the head of [s]. *)
Definition mention_here (s : string) : option string :=
  match s with
  | String "<" (String "@" r) =>
      let r' := match r with String "!" r1 => r1 | _ => r end in
      let '(ds, rest) := read_digits r' in
      match ds, rest with
      | Decimal.Nil, _ => None
      | _, String ">" _ => Some (NilEmpty.string_of_uint ds)
      | _, _ => None
      end
  | _ => None
  end.

(** [mention.match(/<@!?(\d+)>/)]: the leftmost match anywhere in the
    text, [null] when there is none. *)
Fixpoint extractUserId (mention : string) : option string :=
  match mention_here mention with
  | Some u => Some u
  | None => match mention with
            | EmptyString => None
            | String _ r => extractUserId r
            end
  end.

Definition parseDate (legacy : string -> num) (dateString : string)
  : option string :=
  match Date legacy dateString with
  | None => None
  | Some t => Some (toISOString t)
  end.

(** The characters that [sanitize] removes: the angle brackets, the single,
    double and back quotes, the semicolon and the parentheses. The double
    quote is written by its code, 034. *)
Definition disallowed (c : ascii) : bool :=
  match c with
  | "<" | ">" | "'" | "034" | "`" | ";" | "(" | ")" => true
  | _ => false
  end%char.

Definition sanitize (text : string) : string :=
  substring (trim (str_filter (fun c => negb (disallowed c)) text)) 0 200.

Definition same_rank_name (candidate r : string) : bool :=
  str_eqb (toLowerCase r) (toLowerCase candidate).

(** The descending loop of [parseRankWithTier]: [i] runs from
    [parts.length] down to 1 and stops at the first prefix that names a
    rank. The result is the pair of [rankName] and [tier] as the loop
    leaves them ([None] is [null]). *)
Fixpoint rank_prefix_loop (parts validRanks : list string) (i : nat)
  : option string * option num :=
  match i with
  | O => (None, None)
  | S i' =>
      let candidate := join " " (take i parts) in
      if existsb (same_rank_name candidate) validRanks then
        (List.find (same_rank_name candidate) validRanks,
         match parts !! i with
         | Some t => if str_truthy t then Some (parseInt t) else None
         | None => None
         end)
      else rank_prefix_loop parts validRanks i'
  end.

Definition parseRankWithTier (rankString : string) (validRanks : list string)
    (maxTier : Z) : option Rank :=
  let parts := split_ws (trim rankString) in
  let '(rankName, tier) := rank_prefix_loop parts validRanks (length parts) in
  match rankName with
  | None => None
  | Some name =>
      if negb (str_truthy name) then None
      else
        let tier :=
          match tier with
          | Some t =>
              if num_truthy t && (num_lt t (Some 1) || num_lt (Some maxTier) t)
              then None else Some t
          | None => None
          end in
        Some (mkRank name
                (match tier with
                 | Some t => if num_truthy t then t else Some 1
                 | None => Some 1
                 end))
  end.

(** [validRanks.findIndex(...)], [-1] when no element qualifies. *)
Definition findIndex {A} (P : A -> bool) (l : list A) : Z :=
  match list_find (fun x => P x = true) l with
  | Some (i, _) => Z.of_nat i
  | None => -1
  end.

Definition getRankSortValue (rankObj : option Rank) (validRanks : list string)
    (maxTier : Z) : num :=
  match rankObj with
  | None => Some 999999
  | Some r =>
      let rankIndex :=
        findIndex (fun v => str_eqb (toLowerCase v) (toLowerCase (rank r)))
                  validRanks in
      if rankIndex =? -1 then Some 999999
      else num_add (Some (rankIndex * maxTier))
                   (num_add (num_sub (Some maxTier) (tier r)) (Some 1))
  end.

(** The loop shared by the three parsers,
    [while (end < parts.length && isNaN(parseInt(parts[end], 10)))
       { acc.push(parts[end]); end++; }],
    run on [rest = parts.slice(end)]. *)
Fixpoint rank_scan (rest : list string) (end_ : nat) (acc : list string)
  : nat * list string :=
  match rest with
  | [] => (end_, acc)
  | t :: rest' =>
      if isNaN (parseInt t) then rank_scan rest' (S end_) (acc ++ [t])
      else (end_, acc)
  end.

(** [parts[i]] where the program only joins or scans the element: an
    element past the end is [undefined], which [join] prints as the empty
    text. *)
Definition part (parts : list string) (i : nat) : string :=
  default EmptyString (parts !! i).

(** A value token: [parseInt] of it, refused when [NaN] or negative. *)
Definition parseValue (tok : string) : option Z :=
  match parseInt tok with
  | None => None
  | Some v => if v <? 0 then None else Some v
  end.

Section Parser.

Variable legacy : string -> num.

(** The body that [parseMarvelRivals] and [parseOverwatch] share word for
    word, up to the command tag, the rank list, the tier count and the
    game name. *)
Definition parseTwoRank (tag gameName : string) (validRanks : list string)
    (maxTier : Z) (messageContent : string) : option Player :=
  if negb (startsWith (trim messageContent) tag) then None
  else
    let content :=
      trim (substring_from (trim messageContent) (str_length tag)) in
    let parts := split_ws content in
    if (length parts <? 7)%nat then None
    else
      let mention := part parts 0 in
      match extractUserId mention with
      | None => None
      | Some userId =>
          let role := sanitize (part parts 1) in
          let '(currentRankEnd, currentRankParts) :=
            rank_scan (drop 2 parts) 2 [part parts 2] in
          if (length parts <=? currentRankEnd)%nat then None
          else
            let currentRankString := join " " currentRankParts in
            match parseRankWithTier currentRankString validRanks maxTier with
            | None => None
            | Some currentRank =>
                match parseValue (part parts currentRankEnd) with
                | None => None
                | Some currentValue =>
                    let peakRankStart := S currentRankEnd in
                    let '(peakRankEnd, peakRankParts) :=
                      rank_scan (drop (S peakRankStart) parts)
                                (S peakRankStart) [part parts peakRankStart] in
                    if (length parts <=? peakRankEnd)%nat then None
                    else
                      let peakRankString := join " " peakRankParts in
                      match parseRankWithTier peakRankString validRanks maxTier
                      with
                      | None => None
                      | Some peakRank =>
                          match parseValue (part parts peakRankEnd) with
                          | None => None
                          | Some peakValue =>
                              let dateString :=
                                join " " (drop (S peakRankEnd) parts) in
                              match parseDate legacy dateString with
                              | None => None
                              | Some parsedDate =>
                                  Some {| game := Some gameName;
                                          userId := userId;
                                          role := Some role;
                                          heroName := None;
                                          currentRank := Some currentRank;
                                          currentValue := Some currentValue;
                                          peakRank := Some peakRank;
                                          peakValue := Some (Some peakValue);
                                          lastUpdated := parsedDate;
                                          rawMention := Some mention |}
                              end
                          end
                      end
                end
            end
      end.

Definition parseMarvelRivals : string -> option Player :=
  parseTwoRank "LB_UPDATE_MR:" "MARVEL_RIVALS" MARVEL_RIVALS_RANKS 3.

Definition parseOverwatch : string -> option Player :=
  parseTwoRank "LB_UPDATE_OW:" "OVERWATCH" OVERWATCH_RANKS 5.

Definition parseDeadlock (messageContent : string) : option Player :=
  if negb (startsWith (trim messageContent) "LB_UPDATE_DL:") then None
  else
    let content :=
      trim (substring_from (trim messageContent)
              (str_length "LB_UPDATE_DL:")) in
    let parts := split_ws content in
    if (length parts <? 5)%nat then None
    else
      let mention := part parts 0 in
      match extractUserId mention with
      | None => None
      | Some userId =>
          let heroName := sanitize (part parts 1) in
          let '(currentRankEnd, currentRankParts) :=
            rank_scan (drop 2 parts) 2 [part parts 2] in
          if (length parts <=? currentRankEnd)%nat then None
          else
            let currentRankString := join " " currentRankParts in
            match parseRankWithTier currentRankString DEADLOCK_RANKS 6 with
            | None => None
            | Some currentRank =>
                match parseValue (part parts currentRankEnd) with
                | None => None
                | Some currentValue =>
                    let dateString :=
                      join " " (drop (S currentRankEnd) parts) in
                    match parseDate legacy dateString with
                    | None => None
                    | Some parsedDate =>
                        Some {| game := Some "DEADLOCK";
                                userId := userId;
                                role := None;
                                heroName := Some heroName;
                                currentRank := Some currentRank;
                                currentValue := Some currentValue;
                                peakRank := None;
                                peakValue := None;
                                lastUpdated := parsedDate;
                                rawMention := Some mention |}
                    end
                end
            end
      end.

Definition parseMessage (messageContent : string) : option Player :=
  if negb (str_truthy messageContent) then None
  else if includes messageContent "LB_UPDATE_MR:"
  then parseMarvelRivals messageContent
  else if includes messageContent "LB_UPDATE_OW:"
  then parseOverwatch messageContent
  else if includes messageContent "LB_UPDATE_DL:"
  then parseDeadlock messageContent
  else None.

End Parser.

(** An element of [results.successful]. *)
Record Successful : Type := mkSuccessful {
  messageId : string;
  timestamp : Z;
  s_author : string;
  data : Player
}.

(** An element of [results.failed]. *)
Record Failed : Type := mkFailed {
  f_messageId : string;
  f_content : string;
  reason : string
}.

Record ParseResults : Type := mkResults {
  successful : list Successful;
  failed : list Failed;
  skipped : Z
}.

(** Truthiness of an object reference: only [null] is falsy. *)
Definition obj_truthy {A} (o : option A) : bool :=
  match o with Some _ => true | None => false end.

(** The optional game-type filter is truthy when present and non-empty. *)
Definition filter_set (gameType : option string) : bool :=
  match gameType with Some g => str_truthy g | None => false end.

Section Batch.

Variable legacy : string -> num.

(** One turn of the [for ... of] loop of [parseMultipleUpdates]. A parsed
    object is truthy, so the last conditional of the body takes its first
    branch on every path that reaches it; the other branch is kept as the
    source has it. *)
Definition parse_step (gameType : option string) (results : ParseResults)
    (message : Message) : ParseResults :=
  let parsed := parseMessage legacy (content message) in
  match parsed with
  | None => mkResults (successful results) (failed results)
                      (skipped results + 1)
  | Some p =>
      if filter_set gameType && negb (bool_decide (game p = gameType))
      then mkResults (successful results) (failed results)
                     (skipped results + 1)
      else
        if obj_truthy parsed
        then mkResults
               (successful results ++
                  [mkSuccessful (id message) (createdTimestamp message)
                                (author message) p])
               (failed results) (skipped results)
        else mkResults
               (successful results)
               (failed results ++
                  [mkFailed (id message) (content message) "parse_error"])
               (skipped results)
  end.

Definition parseMultipleUpdates (messages : list Message)
    (gameType : option string) : ParseResults :=
  fold_left (parse_step gameType) messages (mkResults [] [] 0).

End Batch.

(** ** Sorting *)

(** [Array.prototype.sort] with a comparator. The comparator's result [v]
    is a number, [NaN] counting as [0]; the sort is stable, so [a] stays in
    front of a later [b] unless [v > 0]. For a comparator that is a
    consistent ordering of the elements the result is the one stable sorted
    arrangement, which every conforming engine returns; it is computed here
    by insertion from the right. *)
Definition goes_after (v : num) : bool :=
  match v with Some z => 0 <? z | None => false end.

Fixpoint insert_by {A} (cmp : A -> A -> num) (x : A) (l : list A) : list A :=
  match l with
  | [] => [x]
  | y :: t => if goes_after (cmp x y) then y :: insert_by cmp x t else x :: l
  end.

Definition sort_by {A} (cmp : A -> A -> num) (l : list A) : list A :=
  foldr (insert_by cmp) [] l.

(** [a !== b] where a side may be [undefined]. *)
Definition opt_strict_ne (a b : option num) : bool :=
  match a, b with
  | Some x, Some y => num_strict_ne x y
  | None, None => false
  | _, _ => true
  end.

(** [ToNumber] of a possibly [undefined] number. *)
Definition to_number (a : option num) : num :=
  match a with Some x => x | None => None end.

Section Sorting.

Variable legacy : string -> num.

(** The comparator of [sortPlayers]. *)
Definition compare_players (gameType : string) (a b : Player) : num :=
  if str_eqb gameType "MARVEL_RIVALS" || str_eqb gameType "OVERWATCH" then
    let maxTier := if str_eqb gameType "MARVEL_RIVALS" then 3 else 5 in
    let validRanks := if str_eqb gameType "MARVEL_RIVALS"
                      then MARVEL_RIVALS_RANKS else OVERWATCH_RANKS in
    let aRankValue := getRankSortValue (currentRank a) validRanks maxTier in
    let bRankValue := getRankSortValue (currentRank b) validRanks maxTier in
    if num_strict_ne aRankValue bRankValue
    then num_sub bRankValue aRankValue
    else if num_strict_ne (currentValue a) (currentValue b)
    then num_sub (currentValue a) (currentValue b)
    else
      let aPeakValue := getRankSortValue (peakRank a) validRanks maxTier in
      let bPeakValue := getRankSortValue (peakRank b) validRanks maxTier in
      if num_strict_ne aPeakValue bPeakValue
      then num_sub bPeakValue aPeakValue
      else if opt_strict_ne (peakValue a) (peakValue b)
      then num_sub (to_number (peakValue a)) (to_number (peakValue b))
      else num_sub (Date legacy (lastUpdated b)) (Date legacy (lastUpdated a))
  else if str_eqb gameType "DEADLOCK" then
    let aRankValue := getRankSortValue (currentRank a) DEADLOCK_RANKS 6 in
    let bRankValue := getRankSortValue (currentRank b) DEADLOCK_RANKS 6 in
    if num_strict_ne aRankValue bRankValue
    then num_sub bRankValue aRankValue
    else if num_strict_ne (currentValue a) (currentValue b)
    then num_sub (currentValue a) (currentValue b)
    else num_sub (Date legacy (lastUpdated b)) (Date legacy (lastUpdated a))
  else Some 0.

Definition sortPlayers (players : list Player) (gameType : string)
  : list Player :=
  match players with
  | [] => []
  | _ => sort_by (compare_players gameType) players
  end.

End Sorting.

(* ================================================================== *)
(** * storage.js *)
(* ================================================================== *)

Definition DATA_VERSION : string := "v1".
Definition DATA_START_MARKER : string := "[DATA:" +:+ DATA_VERSION +:+ "]".
Definition DATA_END_MARKER : string := "[/DATA]".

Definition LF : ascii := "010"%char.
Definition NL : string := String LF EmptyString.

(** [a || 'Unknown'] for a label that may be absent or empty. *)
Definition or_unknown (a : option string) : string :=
  match a with
  | Some s => if str_truthy s then s else "Unknown"
  | None => "Unknown"
  end.

(** The template literal [`${r.rank} ${r.tier}`]. *)
Definition rank_text (r : Rank) : string :=
  rank r +:+ " " +:+ num_to_string (tier r).

(** An element of an array under [join]: [undefined] prints as the empty
    text. *)
Definition joined_num (a : option num) : string :=
  match a with Some n => num_to_string n | None => EmptyString end.

(** The callback of [encodePlayerData]. Reading [.rank] of an absent rank
    raises a [TypeError]: the outer [None]. For a game type outside the
    three the callback returns [undefined]: the inner [None]. *)
Definition encodePlayer (gameType : string) (player : Player)
  : option (option string) :=
  if str_eqb gameType "MARVEL_RIVALS" || str_eqb gameType "OVERWATCH" then
    cur ← currentRank player;
    peak ← peakRank player;
    Some (Some (join "|"
      [userId player; or_unknown (role player); rank_text cur;
       num_to_string (currentValue player); rank_text peak;
       joined_num (peakValue player); lastUpdated player]))
  else if str_eqb gameType "DEADLOCK" then
    cur ← currentRank player;
    Some (Some (join "|"
      [userId player; or_unknown (heroName player); rank_text cur;
       num_to_string (currentValue player); lastUpdated player]))
  else Some None.

(** [players.map(...).join('\n')]; [None] when the callback raised. *)
Definition encodePlayerData (players : list Player) (gameType : string)
  : option string :=
  lines ← mapM (encodePlayer gameType) players;
  Some (join NL (map (default EmptyString) lines)).

(** The two-element destructuring [const [a, b] = s.split(' ')]. *)
Definition split_rank (s : string) : string * option string :=
  let ps := split_char " " s in
  (part ps 0, ps !! 1%nat).

(** [parseInt(x, 10)] of a possibly [undefined] piece. *)
Definition parseInt_opt (x : option string) : num :=
  match x with Some s => parseInt s | None => None end.

(** What the callback of [decodePlayerData] returns for one line. *)
Inductive Decoded : Type :=
  | DNull                     (* the line is refused *)
  | DUndefined                (* the game type is none of the three *)
  | DPlayer (p : Player).

Definition decodeLine (gameType : option string) (line : string) : Decoded :=
  let parts := split_char "|" line in
  if bool_decide (gameType = Some "MARVEL_RIVALS")
     || bool_decide (gameType = Some "OVERWATCH") then
    if (length parts <? 7)%nat then DNull
    else
      let '(rankName, tier) := split_rank (part parts 2) in
      let '(peakRankName, peakTier) := split_rank (part parts 4) in
      DPlayer {| game := None;
                 userId := part parts 0;
                 role := Some (part parts 1);
                 heroName := None;
                 currentRank := Some (mkRank rankName (parseInt_opt tier));
                 currentValue := parseInt (part parts 3);
                 peakRank := Some (mkRank peakRankName (parseInt_opt peakTier));
                 peakValue := Some (parseInt (part parts 5));
                 lastUpdated := part parts 6;
                 rawMention := None |}
  else if bool_decide (gameType = Some "DEADLOCK") then
    if (length parts <? 5)%nat then DNull
    else
      let '(rankName, tier) := split_rank (part parts 2) in
      DPlayer {| game := None;
                 userId := part parts 0;
                 role := None;
                 heroName := Some (part parts 1);
                 currentRank := Some (mkRank rankName (parseInt_opt tier));
                 currentValue := parseInt (part parts 3);
                 peakRank := None;
                 peakValue := None;
                 lastUpdated := part parts 4;
                 rawMention := None |}
  else DUndefined.

(** [decodePlayerData]: the entries that survive [player !== null], an
    [undefined] entry among them when the game type is unknown. *)
Definition decodePlayerData (dataString : string) (gameType : option string)
  : list (option Player) :=
  if negb (str_truthy dataString) || negb (str_truthy (trim dataString))
  then []
  else
    omap (fun line => match decodeLine gameType line with
                      | DNull => None
                      | DUndefined => Some None
                      | DPlayer p => Some (Some p)
                      end)
         (filter (fun line => str_truthy (trim line) = true)
                 (split_char LF (trim dataString))).

Definition encodeState (lastProcessedMessageId : option string)
    (players : list Player) (gameType : string) : option string :=
  body ← encodePlayerData players gameType;
  Some (join NL
    [DATA_START_MARKER;
     "GAME:" +:+ gameType;
     "LAST:" +:+ (match lastProcessedMessageId with
                  | Some c => if str_truthy c then c else "none"
                  | None => "none"
                  end);
     body;
     DATA_END_MARKER]).

Record State : Type := mkState {
  gameType : option string;
  lastProcessedMessageId : option string;
  players : list (option Player)
}.

Definition empty_state : State := mkState None None [].

Definition line_terminator (c : ascii) : bool :=
  match c with "010" | "013" => true | _ => false end%char.

Fixpoint str_forallb (P : ascii -> bool) (s : string) : bool :=
  match s with
  | EmptyString => true
  | String c r => P c && str_forallb P r
  end.

(** The capture of [/^TAG(.+)$/] on one line: the rest of the line after
    the tag, when it is not empty and holds no line terminator. *)
Definition match_tag (tag : string) (line : string) : option string :=
  if startsWith line tag then
    let rest := substring_from line (str_length tag) in
    if str_truthy rest && str_forallb (fun c => negb (line_terminator c)) rest
    then Some rest else None
  else None.

Definition decodeState (messageContent : string) : State :=
  if negb (str_truthy messageContent) then empty_state
  else
    let startIdx := indexOf messageContent DATA_START_MARKER in
    let endIdx := indexOf messageContent DATA_END_MARKER in
    if (startIdx =? -1) || (endIdx =? -1) then empty_state
    else
      let dataSection :=
        trim (substring messageContent
                (startIdx + str_length DATA_START_MARKER) endIdx) in
      let lines := split_char LF dataSection in
      let gameMatch := match_tag "GAME:" (part lines 0) in
      let lastMatch := lines !! 1%nat ≫= match_tag "LAST:" in
      let lastId :=
        match lastMatch with
        | Some c => if negb (str_eqb c "none") then Some c else None
        | None => None
        end in
      let playerDataString := join NL (drop 2 lines) in
      mkState gameMatch lastId (decodePlayerData playerDataString gameMatch).

Section Merge.

Variable legacy : string -> num.

(** [upsertPlayer]: the array after the call and the [updated] flag. *)
Definition upsertPlayer (players : list Player) (newPlayerData : Player)
  : list Player * bool :=
  let existingIndex :=
    findIndex (fun p => str_eqb (userId p) (userId newPlayerData)) players in
  if 0 <=? existingIndex then
    match players !! Z.to_nat existingIndex with
    | Some existing =>
        let existingDate := Date legacy (lastUpdated existing) in
        let newDate := Date legacy (lastUpdated newPlayerData) in
        if num_lt newDate existingDate then (players, false)
        else (<[Z.to_nat existingIndex := newPlayerData]> players, true)
    | None => (players, false)   (* not reached: the index is in range *)
    end
  else (players ++ [newPlayerData], true).

(* ================================================================ *)
(** * sync.js: the merge loop of [syncGame] *)
(* ================================================================ *)

Record Merge : Type := mkMerge {
  m_players : list Player;
  updatedCount : Z;
  lastMessageId : option string
}.

(** One turn of [for (const update of parseResults.successful)]. On an
    array of player objects [upsertPlayer] raises nothing, so the [catch]
    of the body is never entered. *)
Definition merge_step (st : Merge) (update : Successful) : Merge :=
  let result := upsertPlayer (m_players st) (data update) in
  {| m_players := fst result;
     updatedCount := if snd result then updatedCount st + 1
                     else updatedCount st;
     lastMessageId := Some (messageId update) |}.

Definition merge_loop (currentPlayers : list Player)
    (cursor : option string) (updates : list Successful) : Merge :=
  fold_left merge_step updates (mkMerge currentPlayers 0 cursor).

(** Parsing and merging as [syncGame] chains them. *)
Definition sync_merge (currentPlayers : list Player)
    (cursor : option string) (messages : list Message) (game_type : string)
  : Merge :=
  merge_loop currentPlayers cursor
    (successful (parseMultipleUpdates legacy messages (Some game_type))).

End Merge.

(* ================================================================== *)
(** * Sample data used by the examples *)
(* ================================================================== *)

(** A fallback date grammar that accepts nothing: the examples only use
    dates in the ECMAScript format. *)
Definition iso_only : string -> num := fun _ => None.

Definition two_rank_player (uid label : string) (cur : Rank) (cv : Z)
    (peak : Rank) (pv : Z) (upd : string) : Player :=
  {| game := None; userId := uid; role := Some label; heroName := None;
     currentRank := Some cur; currentValue := Some cv;
     peakRank := Some peak; peakValue := Some (Some pv);
     lastUpdated := upd; rawMention := None |}.

Definition feb14 : string := "2026-02-14T00:00:00.000Z".
Definition feb13_late : string := "2026-02-13T23:59:59.000Z".

Definition alice_old : Player :=
  two_rank_player "1001" "Duelist" (mkRank "Gold" (Some 1)) 1800
                  (mkRank "Gold" (Some 1)) 1800 feb14.
Definition alice_stale : Player :=
  two_rank_player "1001" "Vanguard" (mkRank "Diamond" (Some 3)) 2300
                  (mkRank "Diamond" (Some 3)) 2300 feb13_late.
Definition alice_tie : Player :=
  two_rank_player "1001" "Vanguard" (mkRank "Diamond" (Some 3)) 2300
                  (mkRank "Diamond" (Some 3)) 2300 feb14.
Definition bob : Player :=
  two_rank_player "1002" "Strategist" (mkRank "Platinum" (Some 1)) 2100
                  (mkRank "Diamond" (Some 3)) 2300 feb14.
Definition carol : Player :=
  two_rank_player "1003" "Duelist" (mkRank "Diamond" (Some 2)) 2450
                  (mkRank "Grandmaster" (Some 1)) 2610 feb14.

(* ================================================================== *)
(** * Vocabulary of the properties *)
(* ================================================================== *)

(** ** Messages and players of the examples *)

(** The example of the source's own documentation, as typed. *)
Definition documented_example : string :=
  "LB_UPDATE_MR: @Turbo Duelist Diamond 2 2450 Master 1 2610 2026-02-14".

(** The same message as the program receives it: the mention of a user
    arrives as [<@id>]. *)
Definition documented_example_raw : string :=
  "LB_UPDATE_MR: <@1001> Duelist Diamond 2 2450 Master 1 2610 2026-02-14".

(** The same message again with a rank name of the Marvel Rivals list in
    the peak position. *)
Definition documented_example_listed : string :=
  "LB_UPDATE_MR: <@1001> Duelist Diamond 2 2450 Grandmaster 1 2610 2026-02-14".

(** A command of the Marvel Rivals game with too few fields. *)
Definition broken_command : Message :=
  mkMessage "9001" "LB_UPDATE_MR: <@1001> Duelist" 1771027200000 "turbo".

Definition unranked : Player :=
  two_rank_player "1004" "Duelist" (mkRank "Unranked" (Some 1)) 900
                  (mkRank "Gold" (Some 3)) 1500 feb14.

(** A player object without a current rank. *)
Definition rankless : Player :=
  {| game := None; userId := "1008"; role := Some "Strategist";
     heroName := None; currentRank := None; currentValue := Some 700;
     peakRank := Some (mkRank "Gold" (Some 3)); peakValue := Some (Some 1500);
     lastUpdated := feb14; rawMention := None |}.

(** ** Rank recognition *)

(** The tier that goes with a recognised name, in the words of the data
    model: the number the following token starts with when that number lies
    in [1 .. maxTier], and 1 in every other case. *)
Definition tier_or_default (tok : option string) (maxTier : Z) : num :=
  match tok ≫= parseInt with
  | Some z => if (1 <=? z) && (z <=? maxTier) then Some z else Some 1
  | None => Some 1
  end.

(** The rank of the list that a phrase names, compared without case. *)
Definition named_rank (validRanks : list string) (phrase : string)
  : option string :=
  List.find (same_rank_name phrase) validRanks.

(** ** Player lines of the blob *)

(** The lines [decodePlayerData] looks at: the lines of the trimmed text
    that are not blank. *)
Definition player_lines (dataString : string) : list string :=
  filter (fun line => str_truthy (trim line) = true)
         (split_char LF (trim dataString)).

(** The column count a game asks of a line. *)
Definition required_fields (g : string) : nat :=
  if str_eqb g "DEADLOCK" then 5%nat else 7%nat.

Definition known_game (g : string) : Prop :=
  g = "MARVEL_RIVALS" \/ g = "OVERWATCH" \/ g = "DEADLOCK".

Definition enough_fields (g : string) (line : string) : bool :=
  (required_fields g <=? length (split_char "|" line))%nat.

(** The record read off a line with enough fields. *)
Definition line_record (g : string) (line : string) : option Player :=
  match decodeLine (Some g) line with
  | DPlayer p => Some p
  | _ => None
  end.

Definition sample_lines : string :=
  "1001|Duelist|Diamond 2|2450|Grandmaster 1|2610|2026-02-14T00:00:00.000Z"
  +:+ NL +:+ "1002|Strategist|Platinum 1" +:+ NL +:+
  "1003|Vanguard|Diamond|2300|Diamond 3|2300|2026-02-14T00:00:00.000Z".

(** ** Accepted messages *)

(** What a message contributes to [results.successful]: its parsed update
    when it parses and passes the game-type filter. *)
Definition accepted (legacy : string -> num) (g : option string)
    (m : Message) : option Successful :=
  match parseMessage legacy (content m) with
  | Some p =>
      if filter_set g && negb (bool_decide (game p = g)) then None
      else Some (mkSuccessful (id m) (createdTimestamp m) (author m) p)
  | None => None
  end.

Definition msg_applied : Message :=
  mkMessage "9001"
    "LB_UPDATE_MR: <@1001> Duelist Gold 1800 Gold 1800 2026-02-14"
    1771030000000 "turbo".
Definition msg_stale : Message :=
  mkMessage "9002"
    "LB_UPDATE_MR: <@1001> Vanguard Diamond 2300 Diamond 2300 2026-02-13"
    1771030001000 "turbo".
Definition msg_chat : Message :=
  mkMessage "9003" "good game everyone" 1771030002000 "alpha".
Definition msg_other_game : Message :=
  mkMessage "9004" "LB_UPDATE_DL: <@1001> Haze Archon 1200 2026-02-14"
    1771030003000 "alpha".

(** ** The order of a two-rank game *)

Definition two_rank_game (g : string) : Prop :=
  g = "MARVEL_RIVALS" \/ g = "OVERWATCH".

Definition game_ranks (g : string) : list string :=
  if str_eqb g "MARVEL_RIVALS" then MARVEL_RIVALS_RANKS else OVERWATCH_RANKS.

Definition game_maxTier (g : string) : Z :=
  if str_eqb g "MARVEL_RIVALS" then 3 else 5.

(** The five keys of a player of a two-rank game, when each of them is a
    number: the sort key of the current rank, the current value, the sort
    key of the peak rank, the peak value and the time of the last update. *)
Definition sort_keys (legacy : string -> num) (g : string) (p : Player)
  : option (Z * Z * Z * Z * Z) :=
  k1 ← getRankSortValue (currentRank p) (game_ranks g) (game_maxTier g);
  v ← currentValue p;
  k2 ← getRankSortValue (peakRank p) (game_ranks g) (game_maxTier g);
  pv ← to_number (peakValue p);
  t ← Date legacy (lastUpdated p);
  Some (k1, v, k2, pv, t).

(** The order of the specification on the keys: current rank key
    descending, then current value ascending, then peak rank key
    descending, then peak value ascending, then time descending. *)
Definition keys_in_order (a b : Z * Z * Z * Z * Z) : Prop :=
  let '(k1, v, k2, pv, t) := a in
  let '(k1', v', k2', pv', t') := b in
  k1 > k1' \/
  (k1 = k1' /\
   (v < v' \/
    (v = v' /\
     (k2 > k2' \/
      (k2 = k2' /\
       (pv < pv' \/
        (pv = pv' /\ t >= t'))))))).

Definition precedes (legacy : string -> num) (g : string) (a b : Player)
  : Prop :=
  exists ka kb, sort_keys legacy g a = Some ka /\
                sort_keys legacy g b = Some kb /\ keys_in_order ka kb.

Definition diamond2_2300 : Player :=
  two_rank_player "1005" "Vanguard" (mkRank "Diamond" (Some 2)) 2300
                  (mkRank "Diamond" (Some 1)) 2500 feb14.

(** ** Texts that survive the codec *)

(** The text has no occurrence of the character. *)
Definition lacks (sep : ascii) (s : string) : bool :=
  str_forallb (fun c => negb (Ascii.eqb c sep)) s.

(** A field value as the round-trip law takes it, without a line feed and
    without [|], that moreover does not hold the end marker. White space
    and brackets are allowed. *)
Definition field_text (s : string) : Prop :=
  lacks LF s = true /\ lacks "|" s = true /\
  includes s DATA_END_MARKER = false.

(** A number that is written digit by digit and read back exactly: [NaN]
    or an integer of the safe range. *)
Definition safe_num (n : num) : Prop :=
  match n with
  | Some z => Z.abs z <= 9007199254740991
  | None => True
  end.

(** The fields of a player that the blob keeps. *)
Definition persisted (p : Player) : Player :=
  {| game := None; userId := userId p; role := role p;
     heroName := heroName p; currentRank := currentRank p;
     currentValue := currentValue p; peakRank := peakRank p;
     peakValue := peakValue p; lastUpdated := lastUpdated p;
     rawMention := None |}.

(** A rank whose name is one word: the reader cuts the rank field at the
    spaces and keeps the first two pieces. *)
Definition storable_rank (r : option Rank) : Prop :=
  match r with
  | Some r => field_text (rank r) /\ lacks " " (rank r) = true /\
              safe_num (tier r)
  | None => False
  end.

Definition storable_label (l : option string) : Prop :=
  match l with Some s => s <> "" /\ field_text s | None => False end.

(** A record of game [g] that the codec takes: the shape of the game, a
    label that is not empty, one-word rank names, numbers of the safe
    range, no white space in front of the user id or behind the time
    stamp (the ends of a line, which the reader trims), and in every text
    field no line feed, no [|] and no end marker. *)
Definition storable (g : string) (p : Player) : Prop :=
  field_text (userId p) /\ trimStart (userId p) = userId p /\
  field_text (lastUpdated p) /\ trimEnd (lastUpdated p) = lastUpdated p /\
  storable_rank (currentRank p) /\ safe_num (currentValue p) /\
  if str_eqb g "DEADLOCK"
  then storable_label (heroName p) /\ role p = None /\
       peakRank p = None /\ peakValue p = None
  else storable_label (role p) /\ heroName p = None /\
       storable_rank (peakRank p) /\
       exists v, peakValue p = Some v /\ safe_num v.

(** The value after [GAME:] or [LAST:] that the reader gets back: not
    empty, on one line, without the end marker and without white space
    behind it. *)
Definition tag_value (x : string) : Prop :=
  x <> "" /\ str_forallb (fun c => negb (line_terminator c)) x = true /\
  includes x DATA_END_MARKER = false /\ trimEnd x = x.

Definition storable_cursor (c : option string) : Prop :=
  match c with
  | Some s => s <> "none" /\ tag_value s
  | None => True
  end.

(** What the decoder needs of an encoded line. *)
Record good_line (line : string) : Prop := {
  line_no_lf : lacks LF line = true;
  line_no_marker : includes line DATA_END_MARKER = false;
  line_start : forall x, trimStart (line +:+ x) = line +:+ x;
  line_end : trimEnd line = line;
  line_nonempty : line <> ""
}.

(** The text between the two markers, as [encodeState] lays it out. *)
Definition data_section (G L body : string) : string :=
  String LF (G +:+ String LF (L +:+ String LF (body +:+ NL))).

Definition no_role : Player :=
  {| game := None; userId := "1006"; role := Some ""; heroName := None;
     currentRank := Some (mkRank "Gold" (Some 2)); currentValue := Some 1700;
     peakRank := Some (mkRank "Gold" (Some 1)); peakValue := Some (Some 1750);
     lastUpdated := feb14; rawMention := None |}.

Definition top_rank : Player :=
  two_rank_player "1007" "Duelist" (mkRank "One Above All" (Some 1)) 5200
                  (mkRank "One Above All" (Some 1)) 5300 feb14.

(** An update that names the top rank of the first game as the peak. *)
Definition msg_top_rank : string :=
  "LB_UPDATE_MR: <@1007> Duelist Gold 1800 One Above All 2610 2026-02-14".

(** A record whose label holds white space and brackets. *)
Definition tank_eu : Player :=
  two_rank_player "1008" "[EU] Main Tank" (mkRank "Gold" (Some 2)) 1700
                  (mkRank "Diamond" (Some 1)) 2500 feb14.

(* ================================================================== *)
(** * Vocabulary of the further properties *)
(* ================================================================== *)

(** The user ids of a player list, in order. *)
Definition user_ids (ps : list Player) : list string := map userId ps.

(** The place of a rank name in a list, compared without case as
    [getRankSortValue] does; [-1] when the list does not have it. *)
Definition rank_index (validRanks : list string) (name : string) : Z :=
  findIndex (fun v => str_eqb (toLowerCase v) (toLowerCase name)) validRanks.

(** A decimal digit. *)
Definition digit_char (c : ascii) : bool := obj_truthy (digit_of_char c).

(** A non-empty run of decimal digits. *)
Definition digit_text (s : string) : Prop :=
  s <> "" /\ str_forallb digit_char s = true.

(** A label free of the characters [sanitize] removes and at most 200
    characters long. *)
Definition clean_text (s : string) : Prop :=
  str_forallb (fun c => negb (disallowed c)) s = true /\ str_length s <= 200.

(** A rank of the list with a tier between 1 and [maxTier]. *)
Definition listed_rank (ranks : list string) (maxTier : Z) (r : option Rank)
  : Prop :=
  exists name t, r = Some (mkRank name (Some t)) /\ name ∈ ranks /\
                 1 <= t <= maxTier.

(** The text [toISOString] gives for the date that [src] denotes. *)
Definition stamp_of (legacy : string -> num) (src stamp : string) : Prop :=
  exists t, Date legacy src = Some t /\ stamp = toISOString t.

(** What every update of a two-rank game looks like. *)
Definition two_rank_update (legacy : string -> num) (gameName : string)
    (ranks : list string) (maxTier : Z) (p : Player) : Prop :=
  game p = Some gameName /\
  digit_text (userId p) /\
  (exists l, role p = Some l /\ clean_text l) /\
  heroName p = None /\
  listed_rank ranks maxTier (currentRank p) /\
  (exists v, currentValue p = Some v /\ 0 <= v) /\
  listed_rank ranks maxTier (peakRank p) /\
  (exists v, peakValue p = Some (Some v) /\ 0 <= v) /\
  (exists src, stamp_of legacy src (lastUpdated p)).

(** What every update of the single-rank game looks like. *)
Definition single_rank_update (legacy : string -> num) (p : Player) : Prop :=
  game p = Some "DEADLOCK" /\
  digit_text (userId p) /\
  (exists l, heroName p = Some l /\ clean_text l) /\
  role p = None /\
  listed_rank DEADLOCK_RANKS 6 (currentRank p) /\
  (exists v, currentValue p = Some v /\ 0 <= v) /\
  peakRank p = None /\ peakValue p = None /\
  (exists src, stamp_of legacy src (lastUpdated p)).

(** The three keys of a player of the single-rank game, when each of them
    is a number: the sort key of the current rank, the current value and
    the time of the last update. *)
Definition sort_keys_single (legacy : string -> num) (p : Player)
  : option (Z * Z * Z) :=
  k ← getRankSortValue (currentRank p) DEADLOCK_RANKS 6;
  v ← currentValue p;
  t ← Date legacy (lastUpdated p);
  Some (k, v, t).

(** Rank key descending, then value ascending, then time descending. *)
Definition keys_in_order_single (a b : Z * Z * Z) : Prop :=
  let '(k, v, t) := a in
  let '(k', v', t') := b in
  k > k' \/ (k = k' /\ (v < v' \/ (v = v' /\ t >= t'))).

Definition precedes_single (legacy : string -> num) (a b : Player) : Prop :=
  exists ka kb, sort_keys_single legacy a = Some ka /\
                sort_keys_single legacy b = Some kb /\
                keys_in_order_single ka kb.

Definition single_rank_player (uid hero : string) (cur : Rank) (cv : Z)
    (upd : string) : Player :=
  {| game := None; userId := uid; role := None; heroName := Some hero;
     currentRank := Some cur; currentValue := Some cv;
     peakRank := None; peakValue := None;
     lastUpdated := upd; rawMention := None |}.

Definition haze : Player :=
  single_rank_player "2001" "Haze" (mkRank "Archon" (Some 4)) 1200 feb14.
Definition infernus : Player :=
  single_rank_player "2002" "Infernus" (mkRank "Oracle" (Some 2)) 2100 feb14.
Definition abrams : Player :=
  single_rank_player "2003" "Abrams" (mkRank "Archon" (Some 4)) 1100
                     feb13_late.

(** A record that makes [encodePlayerData] raise for game [g]: it lacks the
    current rank, or the peak rank that the two-rank games print. *)
Definition lacks_rank (g : string) (p : Player) : Prop :=
  currentRank p = None \/ (g <> "DEADLOCK" /\ peakRank p = None).

(** A leaderboard message: free text in front of an encoded state. *)
Definition sample_blob : string :=
  "[DATA:v1]" +:+ NL +:+ "GAME:DEADLOCK" +:+ NL +:+ "LAST:9002" +:+ NL +:+
  "2001|Haze|Archon 4|1200|2026-02-14T00:00:00.000Z" +:+ NL +:+ "[/DATA]".

(** A stored record whose timestamp column does not hold a date. *)
Definition undated_alice : Player :=
  two_rank_player "1001" "Vanguard" (mkRank "Diamond" (Some 3)) 2300
                  (mkRank "Diamond" (Some 3)) 2300 "yesterday".

(** ** Dates written and read back *)

(** What [civil_from_days] computes from the day of the era: the year of
    the era, the month and the day of the month. *)
Definition era_date (doe : Z) : Z * Z * Z :=
  let yoe := (doe - doe / 1460 + doe / 36524 - doe / 146096) / 365 in
  let doy := doe - (365 * yoe + yoe / 4 - yoe / 100) in
  let mp := (5 * doy + 2) / 153 in
  let d := doy - (153 * mp + 2) / 5 + 1 in
  let m := if mp <? 10 then mp + 3 else mp - 9 in
  (yoe, m, d).

(** The facts about one day of the era that the round trip rests on: the
    fields are a legal date, [days_from_civil] leads back to the day, and
    the year of the era rolls over on the first of January. *)
Definition era_date_ok (doe : Z) : bool :=
  let '(yoe, m, d) := era_date doe in
  let y := if m <=? 2 then yoe + 1 else yoe in
  (0 <=? yoe) && (yoe <? 400) && (1 <=? m) && (m <=? 12) && (1 <=? d)
  && (d <=? days_in_month y m)
  && (yoe * 365 + yoe / 4 - yoe / 100
      + ((153 * ((m + 9) mod 12) + 2) / 5 + d - 1) =? doe)
  && (if doe <? 146037 then y <=? 399 else y =? 400).

(** [P] holds of the [fuel] integers from [i] on. *)
Fixpoint all_from (fuel : nat) (i : Z) (P : Z -> bool) : bool :=
  match fuel with
  | O => true
  | S f => P i && all_from f (i + 1) P
  end.

(** [pad] writes [width] digits that [fixed_digits] reads back. *)
Definition pad_ok (width : nat) (n : Z) : bool :=
  match fixed_digits width 0 (pad width n) with
  | Some (v, EmptyString) =>
      (v =? n) && (String.length (pad width n) =? width)%nat
  | _ => false
  end.

(** The time values of the years 0 to 9999. *)
Definition four_digit_year (t : Z) : Prop :=
  -62167219200000 <= t <= 253402300799999.

(* ================================================================== *)
(** * renderer.js: relative time *)
(* ================================================================== *)

(** [Math.floor(x / k)] for an integer or [NaN] [x] and a positive [k]. *)
Definition floor_div (x : num) (k : Z) : num :=
  match x with Some z => Some (z / k) | None => None end.

(** [a === b]. *)
Definition num_strict_eq (a b : num) : bool := negb (num_strict_ne a b).

(** [getRelativeTime]; the clock reading [new Date()] is the argument
    [now]. *)
Definition getRelativeTime (legacy : string -> num) (now : Z)
    (dateString : string) : string :=
  let date := Date legacy dateString in
  let diffMs := num_sub (Some now) date in
  let diffSeconds := floor_div diffMs 1000 in
  let diffMinutes := floor_div diffSeconds 60 in
  let diffHours := floor_div diffMinutes 60 in
  let diffDays := floor_div diffHours 24 in
  let diffWeeks := floor_div diffDays 7 in
  let diffMonths := floor_div diffDays 30 in
  let diffYears := floor_div diffDays 365 in
  if num_lt diffSeconds (Some 60) then
    if num_strict_eq diffSeconds (Some 1) then "1 second ago"
    else num_to_string diffSeconds +:+ " seconds ago"
  else if num_lt diffMinutes (Some 60) then
    if num_strict_eq diffMinutes (Some 1) then "1 minute ago"
    else num_to_string diffMinutes +:+ " minutes ago"
  else if num_lt diffHours (Some 24) then
    if num_strict_eq diffHours (Some 1) then "1 hour ago"
    else num_to_string diffHours +:+ " hours ago"
  else if num_lt diffDays (Some 7) then
    if num_strict_eq diffDays (Some 1) then "1 day ago"
    else num_to_string diffDays +:+ " days ago"
  else if num_lt diffWeeks (Some 4) then
    if num_strict_eq diffWeeks (Some 1) then "1 week ago"
    else num_to_string diffWeeks +:+ " weeks ago"
  else if num_lt diffMonths (Some 12) then
    if num_strict_eq diffMonths (Some 1) then "1 month ago"
    else num_to_string diffMonths +:+ " months ago"
  else
    if num_strict_eq diffYears (Some 1) then "1 year ago"
    else num_to_string diffYears +:+ " years ago".

(** ** Vocabulary of the relative-time properties *)

(** [n] units ago, the unit in the singular for exactly one. *)
Definition ago (n : Z) (unit : string) : string :=
  num_to_string (Some n) +:+ " " +:+ unit +:+
  (if n =? 1 then " ago" else "s ago").

Definition ms_second : Z := 1000.
Definition ms_minute : Z := 60 * ms_second.
Definition ms_hour : Z := 60 * ms_minute.
Definition ms_week : Z := 7 * ms_per_day.

(** ** Records that the state codec can write *)

(** A record has the ranks that the line of game [g] prints. *)
Definition ranked (g : string) (p : Player) : Prop :=
  is_Some (currentRank p) /\ (g = "DEADLOCK" \/ is_Some (peakRank p)).

Definition msg_deadlock : Message :=
  mkMessage "9101" "LB_UPDATE_DL: <@2001> Haze Oracle 2 1500 2026-02-15"
            1771113600000 "turbo".

(* ================================================================== *)
(** * Properties of [upsertPlayer] *)
(* ================================================================== *)

Section UpsertFacts.

Variable legacy : string -> num.

Lemma str_eqb_true a b : str_eqb a b = true <-> a = b.
Proof. unfold str_eqb. apply bool_decide_eq_true. Qed.

Lemma findIndex_first {A} (P : A -> bool) (pre post : list A) (x : A) :
  Forall (fun y => P y = false) pre -> P x = true ->
  findIndex P (pre ++ x :: post) = Z.of_nat (length pre).
Proof.
  intros Hpre Hx. unfold findIndex.
  assert (list_find (fun y => P y = true) (pre ++ x :: post)
          = Some (length pre, x)) as ->; [|done].
  apply list_find_Some. split_and!.
  - by rewrite list_lookup_middle.
  - done.
  - intros j y Hj Hlt. rewrite lookup_app_l in Hj by done.
    rewrite Forall_lookup in Hpre. specialize (Hpre j y Hj). simpl in Hpre.
    congruence.
Qed.

Lemma findIndex_none {A} (P : A -> bool) (l : list A) :
  Forall (fun y => P y = false) l -> findIndex P l = -1.
Proof.
  intros Hl. unfold findIndex.
  assert (list_find (fun y => P y = true) l = None) as ->; [|done].
  apply list_find_None. eapply Forall_impl; [exact Hl|].
  simpl. intros y Hy. congruence.
Qed.

Lemma findIndex_range {A} (P : A -> bool) (l : list A) :
  findIndex P l = -1 \/
  exists (i : nat) (x : A),
    findIndex P l = Z.of_nat i /\ l !! i = Some x /\ P x = true.
Proof.
  unfold findIndex.
  destruct (list_find _ l) as [[i x]|] eqn:E; [right|by left].
  apply list_find_Some in E as (Hi & Hx & _). eauto.
Qed.

Lemma other_users_ne (new : Player) (l : list Player) :
  Forall (fun p => userId p <> userId new) l ->
  Forall (fun p => str_eqb (userId p) (userId new) = false) l.
Proof.
  intros H. eapply Forall_impl; [exact H|]. simpl. intros p Hp.
  destruct (str_eqb _ _) eqn:E; [|done]. by apply str_eqb_true in E.
Qed.

(** C3. With a record [old] for the incoming user in the list (the first
    one for that user) whose timestamp is [T], an incoming record with an
    earlier timestamp leaves the list as it is and reports
    [updated = false]; an incoming record with the same or a later
    timestamp takes the place of [old] and reports [updated = true]. *)
Theorem upsertPlayer_timestamp_rule
    (pre post : list Player) (old new : Player) (T T' : Z) :
  Forall (fun p => userId p <> userId new) pre ->
  userId old = userId new ->
  Date legacy (lastUpdated old) = Some T ->
  Date legacy (lastUpdated new) = Some T' ->
  (T' < T ->
     upsertPlayer legacy (pre ++ old :: post) new
     = (pre ++ old :: post, false)) /\
  (T <= T' ->
     upsertPlayer legacy (pre ++ old :: post) new
     = (pre ++ new :: post, true)).
Proof.
  intros Hpre Hold HT HT'.
  assert (Hidx : findIndex (fun p => str_eqb (userId p) (userId new))
                           (pre ++ old :: post) = Z.of_nat (length pre)).
  { apply findIndex_first; [by apply other_users_ne|by apply str_eqb_true]. }
  unfold upsertPlayer. rewrite Hidx, Nat2Z.id.
  destruct (Z.leb_spec 0 (Z.of_nat (length pre))); [|lia].
  rewrite list_lookup_middle by done. rewrite HT, HT'. simpl.
  split; intros Hcmp.
  - destruct (Z.ltb_spec T' T); [done|lia].
  - destruct (Z.ltb_spec T' T); [lia|].
    f_equal. rewrite insert_app_r_alt by done.
    by rewrite Nat.sub_diag.
Qed.

(** C10. [upsertPlayer] leaves every record of another user where it is,
    and a record for a user not yet in the list goes to the end of it. *)
Theorem upsertPlayer_frame (players : list Player) (new : Player) :
  (forall (j : nat) (p : Player),
      players !! j = Some p -> userId p <> userId new ->
      (upsertPlayer legacy players new).1 !! j = Some p) /\
  (Forall (fun p => userId p <> userId new) players ->
   upsertPlayer legacy players new = (players ++ [new], true)).
Proof.
  split.
  - intros j p Hj Hne. unfold upsertPlayer.
    destruct (findIndex_range (fun q => str_eqb (userId q) (userId new))
                              players) as [->|(i & x & -> & Hi & Hx)].
    + simpl. by apply lookup_app_l_Some.
    + destruct (Z.leb_spec 0 (Z.of_nat i)); [|lia].
      rewrite Nat2Z.id, Hi.
      destruct (num_lt _ _); simpl; [done|].
      rewrite list_lookup_insert_ne; [done|].
      intros ->. apply str_eqb_true in Hx. congruence.
  - intros Hall. unfold upsertPlayer.
    rewrite findIndex_none by by apply other_users_ne. done.
Qed.

End UpsertFacts.

Lemma upsertPlayer_timestamp_rule_witness :
  upsertPlayer iso_only [bob; alice_old; carol] alice_stale
    = ([bob; alice_old; carol], false) /\
  upsertPlayer iso_only [bob; alice_old; carol] alice_tie
    = ([bob; alice_tie; carol], true).
Proof.
  split.
  - refine (proj1 (upsertPlayer_timestamp_rule iso_only [bob] [carol]
                     alice_old alice_stale 1771027200000 1771027199000
                     _ _ _ _) _).
    + repeat constructor. vm_compute. discriminate.
    + reflexivity.
    + vm_compute. reflexivity.
    + vm_compute. reflexivity.
    + lia.
  - refine (proj2 (upsertPlayer_timestamp_rule iso_only [bob] [carol]
                     alice_old alice_tie 1771027200000 1771027200000
                     _ _ _ _) _).
    + repeat constructor. vm_compute. discriminate.
    + reflexivity.
    + vm_compute. reflexivity.
    + vm_compute. reflexivity.
    + lia.
Defined.

Lemma upsertPlayer_frame_witness :
  (upsertPlayer iso_only [bob; alice_old] alice_tie).1 !! 0%nat = Some bob /\
  upsertPlayer iso_only [bob; carol] alice_tie
    = ([bob; carol; alice_tie], true).
Proof.
  split.
  - apply (proj1 (upsertPlayer_frame iso_only [bob; alice_old] alice_tie)
             0%nat bob); [reflexivity|vm_compute; discriminate].
  - apply (proj2 (upsertPlayer_frame iso_only [bob; carol] alice_tie)).
    repeat constructor; vm_compute; discriminate.
Defined.

(* ================================================================== *)
(** * The command parser on the documented example *)
(* ================================================================== *)

(** The scan for the current rank starts from [[parts[2]]] and visits
    [parts[2]] once more, so the phrase handed to [parseRankWithTier]
    repeats its first word, the tier token is what stops the scan, and the
    tier token is then read as the value. *)
Example rank_scan_repeats_first_word :
  rank_scan (drop 2 (split_ws "<@1001> Duelist Diamond 2 2450 Master 1 2610"))
            2 ["Diamond"]
  = (3%nat, ["Diamond"; "Diamond"]).
Proof. reflexivity. Qed.

(** C1 (defect of the code). The documented Marvel Rivals example is not
    parsed: the parser returns [null] on it, whether the mention is taken
    as typed or in its raw form, and also when the peak rank is one of the
    listed names. *)
Theorem parseMarvelRivals_documented_example_rejected (legacy : string -> num) :
  parseMarvelRivals legacy documented_example = None /\
  parseMarvelRivals legacy documented_example_raw = None /\
  parseMarvelRivals legacy documented_example_listed = None.
Proof. split_and!; vm_compute; reflexivity. Qed.

(** Without tier tokens the same message goes through, each rank at the
    default tier. *)
Example parseMarvelRivals_without_tiers :
  parseMarvelRivals iso_only
    "LB_UPDATE_MR: <@1001> Duelist Diamond 2450 Grandmaster 2610 2026-02-14"
  = Some {| game := Some "MARVEL_RIVALS"; userId := "1001";
            role := Some "Duelist"; heroName := None;
            currentRank := Some (mkRank "Diamond" (Some 1));
            currentValue := Some 2450;
            peakRank := Some (mkRank "Grandmaster" (Some 1));
            peakValue := Some (Some 2610);
            lastUpdated := "2026-02-14T00:00:00.000Z";
            rawMention := Some "<@1001>" |}.
Proof. vm_compute. reflexivity. Qed.

(* ================================================================== *)
(** * Batch parsing *)
(* ================================================================== *)

Section BatchFacts.

Variable legacy : string -> num.

Lemma parse_step_failed (g : option string) (r : ParseResults) (m : Message) :
  failed (parse_step legacy g r m) = failed r.
Proof.
  unfold parse_step. destruct (parseMessage legacy (content m)); [|done].
  destruct (_ && _); done.
Qed.

Lemma fold_parse_failed (g : option string) (ms : list Message)
    (r : ParseResults) :
  failed (fold_left (parse_step legacy g) ms r) = failed r.
Proof.
  revert r. induction ms as [|m ms IH]; intros r; simpl; [done|].
  rewrite IH. apply parse_step_failed.
Qed.

(** The [failed] partition stays empty whatever the messages are. *)
Lemma parseMultipleUpdates_failed_empty (ms : list Message)
    (g : option string) :
  failed (parseMultipleUpdates legacy ms g) = [].
Proof. unfold parseMultipleUpdates. by rewrite fold_parse_failed. Qed.

End BatchFacts.

(** C7 (defect of the code). A message that is a command and fails to
    parse is counted as skipped and does not reach [failed]. *)
Theorem parseMultipleUpdates_command_failure_skipped (legacy : string -> num) :
  includes (content broken_command) "LB_UPDATE_MR:" = true /\
  parseMessage legacy (content broken_command) = None /\
  parseMultipleUpdates legacy [broken_command] None = mkResults [] [] 1.
Proof. split_and!; vm_compute; reflexivity. Qed.

(* ================================================================== *)
(** * The sentinel sort key *)
(* ================================================================== *)

(** C4 (defect of the code). The rank name [Unranked] is in no list and
    gets the sentinel key, as an absent rank does; [sortPlayers] then puts
    such a player in front of a player at Diamond 2, whichever way round
    they come in. *)
Theorem sortPlayers_sentinel_sorts_first (legacy : string -> num) :
  getRankSortValue (currentRank unranked) MARVEL_RIVALS_RANKS 3 = Some 999999 /\
  getRankSortValue (currentRank rankless) MARVEL_RIVALS_RANKS 3 = Some 999999 /\
  getRankSortValue (currentRank carol) MARVEL_RIVALS_RANKS 3 = Some 14 /\
  sortPlayers legacy [carol; unranked] "MARVEL_RIVALS" = [unranked; carol] /\
  sortPlayers legacy [unranked; carol] "MARVEL_RIVALS" = [unranked; carol] /\
  sortPlayers legacy [carol; rankless] "MARVEL_RIVALS" = [rankless; carol].
Proof. split_and!; vm_compute; reflexivity. Qed.

(* ================================================================== *)
(** * Rank recognition *)
(* ================================================================== *)

Lemma existsb_find {A} (P : A -> bool) (l : list A) :
  existsb P l = obj_truthy (List.find P l).
Proof.
  induction l as [|x l IH]; simpl; [done|]. destruct (P x); simpl; done.
Qed.

Lemma rank_prefix_loop_none (parts validRanks : list string) (n : nat) :
  (forall i, (1 <= i <= n)%nat ->
             named_rank validRanks (join " " (take i parts)) = None) ->
  rank_prefix_loop parts validRanks n = (None, None).
Proof.
  induction n as [|n IH]; intros Hnone; simpl; [done|].
  rewrite existsb_find. unfold named_rank in Hnone.
  rewrite (Hnone (S n)) by lia. simpl. apply IH. intros i Hi.
  apply Hnone. lia.
Qed.

Lemma rank_prefix_loop_longest (parts validRanks : list string)
    (n i : nat) (name : string) :
  (1 <= i <= n)%nat ->
  named_rank validRanks (join " " (take i parts)) = Some name ->
  (forall j, (i < j <= n)%nat ->
             named_rank validRanks (join " " (take j parts)) = None) ->
  rank_prefix_loop parts validRanks n
  = (Some name,
     match parts !! i with
     | Some t => if str_truthy t then Some (parseInt t) else None
     | None => None
     end).
Proof.
  intros Hi Hname Hlonger. induction n as [|n IH]; [lia|].
  cbn [rank_prefix_loop]. rewrite existsb_find. unfold named_rank in *.
  destruct (decide (i = S n)) as [->|Hne].
  - rewrite Hname. reflexivity.
  - rewrite (Hlonger (S n)) by lia. simpl. apply IH; [lia|].
    intros j Hj. apply Hlonger. lia.
Qed.

Lemma tier_of_token (tok : option string) (maxTier : Z) :
  (let tier := match tok with
               | Some t => if str_truthy t then Some (parseInt t) else None
               | None => None
               end in
   let tier := match tier with
               | Some t =>
                   if num_truthy t
                      && (num_lt t (Some 1) || num_lt (Some maxTier) t)
                   then None else Some t
               | None => None
               end in
   match tier with
   | Some t => if num_truthy t then t else Some 1
   | None => Some 1
   end) = tier_or_default tok maxTier.
Proof.
  unfold tier_or_default. destruct tok as [t|]; simpl; [|done].
  destruct t as [|c t]; [done|]. cbn [str_truthy].
  destruct (parseInt (String c t)) as [z|]; simpl; [|done].
  destruct (Z.eqb_spec z 0) as [->|Hz]; simpl.
  - destruct (Z.leb_spec 0 maxTier); done.
  - destruct (Z.ltb_spec z 1), (Z.ltb_spec maxTier z),
      (Z.leb_spec 1 z), (Z.leb_spec z maxTier);
      simpl; try lia; try done.
    all: destruct (Z.eqb_spec z 0); simpl; try lia; done.
Qed.

(** C8, as amended. [parseRankWithTier] takes the longest prefix of the
    tokens that names a rank of the list, without regard to case, and
    returns the name as the list spells it; the token after the prefix
    gives the tier when it starts with a number between 1 and [maxTier],
    and the tier is 1 otherwise; without any such prefix the result is
    [null]. For the Marvel Rivals list: [One Above All 1] is One Above All
    at tier 1, [Diamond 2] is Diamond at tier 2, [Nonsense 1] is
    refused. *)
Theorem parseRankWithTier_longest_prefix
    (rankString : string) (validRanks : list string) (maxTier : Z) :
  let parts := split_ws (trim rankString) in
  (forall (i : nat) (name : string),
      (1 <= i <= length parts)%nat ->
      named_rank validRanks (join " " (take i parts)) = Some name ->
      name <> EmptyString ->
      (forall j, (i < j <= length parts)%nat ->
                 named_rank validRanks (join " " (take j parts)) = None) ->
      parseRankWithTier rankString validRanks maxTier
      = Some (mkRank name (tier_or_default (parts !! i) maxTier))) /\
  ((forall i, (1 <= i <= length parts)%nat ->
              named_rank validRanks (join " " (take i parts)) = None) ->
   parseRankWithTier rankString validRanks maxTier = None) /\
  parseRankWithTier "One Above All 1" MARVEL_RIVALS_RANKS 3
    = Some (mkRank "One Above All" (Some 1)) /\
  parseRankWithTier "Diamond 2" MARVEL_RIVALS_RANKS 3
    = Some (mkRank "Diamond" (Some 2)) /\
  parseRankWithTier "Nonsense 1" MARVEL_RIVALS_RANKS 3 = None.
Proof.
  intros parts. split_and!; try (vm_compute; reflexivity).
  - intros i name Hi Hname Hne Hlonger. unfold parseRankWithTier.
    fold parts.
    rewrite (rank_prefix_loop_longest parts validRanks (length parts) i name)
      by done.
    destruct name as [|c name]; [done|]. cbn [str_truthy negb].
    f_equal. f_equal. apply tier_of_token.
  - intros Hnone. unfold parseRankWithTier. fold parts.
    by rewrite rank_prefix_loop_none.
Qed.

Lemma parseRankWithTier_longest_prefix_witness :
  parseRankWithTier "one above all 2 extra" MARVEL_RIVALS_RANKS 3
    = Some (mkRank "One Above All" (Some 2)) /\
  parseRankWithTier "Master 1" MARVEL_RIVALS_RANKS 3 = None.
Proof.
  split.
  - refine (proj1 (parseRankWithTier_longest_prefix
                     "one above all 2 extra" MARVEL_RIVALS_RANKS 3)
                  3%nat "One Above All" _ _ _ _).
    + vm_compute. lia.
    + vm_compute. reflexivity.
    + discriminate.
    + intros j Hj. vm_compute in Hj.
      assert (j = 4%nat \/ j = 5%nat) as [-> | ->] by lia;
        vm_compute; reflexivity.
  - refine (proj1 (proj2 (parseRankWithTier_longest_prefix
                            "Master 1" MARVEL_RIVALS_RANKS 3)) _).
    intros i Hi. vm_compute in Hi.
    assert (i = 1%nat \/ i = 2%nat) as [-> | ->] by lia;
      vm_compute; reflexivity.
Defined.

(** The token after the name is numeric and the tier is not that number:
    [Diamond 9] in a game of three tiers is Diamond at tier 1. *)
Lemma parseRankWithTier_numeric_token_not_tier :
  parseInt "9" = Some 9 /\
  parseRankWithTier "Diamond 9" MARVEL_RIVALS_RANKS 3
    = Some (mkRank "Diamond" (Some 1)) /\
  parseRankWithTier "Diamond 9" MARVEL_RIVALS_RANKS 3
    <> Some (mkRank "Diamond" (Some 9)).
Proof. split_and!; [vm_compute; reflexivity..|vm_compute; discriminate]. Qed.

(* ================================================================== *)
(** * Decoding the player lines *)
(* ================================================================== *)

Lemma omap_filter_map {A B} (f : A -> option B) (g : A -> B) (P : A -> bool)
    (l : list A) :
  (forall x, f x = if P x then Some (g x) else None) ->
  omap f l = map g (List.filter P l).
Proof.
  intros Hf. induction l as [|x l IH]; csimpl; [done|].
  rewrite Hf. destruct (P x); csimpl; by rewrite IH.
Qed.

Lemma decodeLine_known (g line : string) :
  known_game g ->
  decodeLine (Some g) line = DNull /\ enough_fields g line = false \/
  exists p, decodeLine (Some g) line = DPlayer p /\ enough_fields g line = true.
Proof.
  intros [-> | [-> | ->]]; unfold decodeLine, enough_fields.
  all: repeat (rewrite bool_decide_eq_true_2 by done);
    repeat (rewrite bool_decide_eq_false_2 by done); simpl orb; cbv iota.
  all: rewrite Nat.ltb_antisym;
    change (required_fields _) with 7%nat || change (required_fields _) with 5%nat;
    destruct (_ <=? _)%nat; simpl negb; cbv iota;
    [ right; repeat destruct (split_rank _); eexists; split; done
    | left; done ].
Qed.

Lemma player_lines_blank (dataString : string) :
  str_truthy (trim dataString) = false -> player_lines dataString = [].
Proof.
  unfold player_lines. destruct (trim dataString) eqn:E; [|done].
  intros _. reflexivity.
Qed.

(** C9, as amended. For a known game, [decodePlayerData] drops exactly the
    non-blank lines with fewer pipe-separated fields than the game asks
    for and decodes every other one, in order: the result has one record
    per line with enough fields. Nothing is checked about the rank
    sub-field. *)
Theorem decodePlayerData_drops_short_lines (dataString g : string) :
  known_game g ->
  decodePlayerData dataString (Some g)
  = map (line_record g)
        (List.filter (enough_fields g) (player_lines dataString)) /\
  Forall (fun r => is_Some r) (decodePlayerData dataString (Some g)).
Proof.
  intros Hg.
  assert (Heq : decodePlayerData dataString (Some g)
                = map (line_record g)
                    (List.filter (enough_fields g) (player_lines dataString))).
  { unfold decodePlayerData.
    destruct (str_truthy dataString) eqn:Hd; simpl.
    - destruct (str_truthy (trim dataString)) eqn:Ht; simpl.
      + fold (player_lines dataString). apply omap_filter_map.
        intros line. unfold line_record.
        destruct (decodeLine_known g line Hg) as [[-> ->]|(p & -> & ->)]; done.
      + by rewrite player_lines_blank.
    - destruct dataString; [|done]. reflexivity. }
  split; [exact Heq|].
  rewrite Heq. apply Forall_map, Forall_forall. intros line Hin.
  apply list_elem_of_In, filter_In in Hin as [_ Hen]. unfold line_record. simpl.
  destruct (decodeLine_known g line Hg) as [[_ Hf]|(p & -> & _)];
    [congruence|by eexists].
Qed.

Lemma decodePlayerData_drops_short_lines_witness :
  decodePlayerData sample_lines (Some "MARVEL_RIVALS")
  = map (line_record "MARVEL_RIVALS")
        (List.filter (enough_fields "MARVEL_RIVALS")
                     (player_lines sample_lines)) /\
  Forall (fun r => is_Some r)
         (decodePlayerData sample_lines (Some "MARVEL_RIVALS")).
Proof.
  apply (decodePlayerData_drops_short_lines sample_lines "MARVEL_RIVALS").
  left. reflexivity.
Defined.

(** A line with all seven fields whose current-rank field has a name and no
    tier is not dropped: it is decoded, with [NaN] for the tier. *)
Lemma decodePlayerData_keeps_rank_without_tier :
  decodePlayerData
    "1003|Vanguard|Diamond|2300|Diamond 3|2300|2026-02-14T00:00:00.000Z"
    (Some "MARVEL_RIVALS")
  = [Some {| game := None; userId := "1003"; role := Some "Vanguard";
             heroName := None;
             currentRank := Some (mkRank "Diamond" None);
             currentValue := Some 2300;
             peakRank := Some (mkRank "Diamond" (Some 3));
             peakValue := Some (Some 2300);
             lastUpdated := "2026-02-14T00:00:00.000Z";
             rawMention := None |}] /\
  split_rank "Diamond" = ("Diamond", None).
Proof. split; vm_compute; reflexivity. Qed.

(* ================================================================== *)
(** * The cursor after the merge loop *)
(* ================================================================== *)

Section CursorFacts.

Variable legacy : string -> num.

Lemma fold_parse_successful (g : option string) (ms : list Message)
    (r : ParseResults) :
  successful (fold_left (parse_step legacy g) ms r)
  = successful r ++ omap (accepted legacy g) ms.
Proof.
  revert r. induction ms as [|m ms IH]; intros r; csimpl.
  - by rewrite app_nil_r.
  - rewrite IH. unfold parse_step, accepted.
    destruct (parseMessage legacy (content m)) as [p|]; [|done].
    destruct (_ && _); [done|]. simpl. by rewrite <- app_assoc.
Qed.

Lemma parseMultipleUpdates_successful (ms : list Message)
    (g : option string) :
  successful (parseMultipleUpdates legacy ms g) = omap (accepted legacy g) ms.
Proof. unfold parseMultipleUpdates. by rewrite fold_parse_successful. Qed.

Lemma merge_fold_cursor (us : list Successful) (st : Merge) :
  lastMessageId (fold_left (merge_step legacy) us st)
  = match last us with
    | Some u => Some (messageId u)
    | None => lastMessageId st
    end.
Proof.
  revert st. induction us as [|u us IH]; intros st; [done|].
  cbn [fold_left]. rewrite IH, last_cons. destruct (last us); done.
Qed.

Lemma merge_fold_players (us : list Successful) (st : Merge) :
  m_players (fold_left (merge_step legacy) us st)
  = fold_left (fun ps u => (upsertPlayer legacy ps (data u)).1) us
              (m_players st).
Proof.
  revert st. induction us as [|u us IH]; intros st; [done|].
  cbn [fold_left]. by rewrite IH.
Qed.

(** C6, as amended. On a board of player records the merge loop hands to
    [upsertPlayer] the updates of the messages that parsed and passed the
    game-type filter, in order, and nothing else. After the loop the cursor
    is the identifier of the last of these updates, whether [upsertPlayer]
    applied it or discarded it as stale, and the previous cursor when there
    is none: one more such update at the end moves the cursor to its
    message, adds one to the count only when [upsertPlayer] reports
    [updated], and leaves the board to [upsertPlayer]. The cursor is not
    the identifier of the last message fetched: a message that does not
    parse or that the filter excludes changes nothing in the outcome of the
    loop, wherever it stands among the fetched messages. *)
Theorem sync_merge_cursor (currentPlayers : list Player)
    (cursor : option string) (messages : list Message) (g : string) :
  m_players (sync_merge legacy currentPlayers cursor messages g)
  = fold_left (fun ps u => (upsertPlayer legacy ps (data u)).1)
              (omap (accepted legacy (Some g)) messages) currentPlayers /\
  lastMessageId (sync_merge legacy currentPlayers cursor messages g)
  = match last (omap (accepted legacy (Some g)) messages) with
    | Some u => Some (messageId u)
    | None => cursor
    end /\
  (forall (m : Message) (u : Successful),
      accepted legacy (Some g) m = Some u ->
      let before := sync_merge legacy currentPlayers cursor messages g in
      let result := upsertPlayer legacy (m_players before) (data u) in
      sync_merge legacy currentPlayers cursor (messages ++ [m]) g
      = {| m_players := result.1;
           updatedCount := if result.2 then updatedCount before + 1
                           else updatedCount before;
           lastMessageId := Some (id m) |}) /\
  (forall (before after : list Message) (m : Message),
      messages = before ++ m :: after ->
      accepted legacy (Some g) m = None ->
      sync_merge legacy currentPlayers cursor messages g
      = sync_merge legacy currentPlayers cursor (before ++ after) g).
Proof.
  split_and!.
  - unfold sync_merge, merge_loop.
    rewrite merge_fold_players, parseMultipleUpdates_successful. done.
  - unfold sync_merge, merge_loop.
    rewrite merge_fold_cursor, parseMultipleUpdates_successful. done.
  - intros m u Hm. cbv zeta. unfold sync_merge, merge_loop.
    rewrite !parseMultipleUpdates_successful, omap_app. csimpl.
    rewrite Hm. csimpl. rewrite fold_left_app. cbn [fold_left].
    unfold merge_step at 1. f_equal. f_equal.
    unfold accepted in Hm.
    destruct (parseMessage legacy (content m)); [|done].
    destruct (_ && _); [done|]. by injection Hm as <-.
  - intros before after m -> Hm. unfold sync_merge.
    rewrite !parseMultipleUpdates_successful, !omap_app. csimpl.
    by rewrite Hm.
Qed.

End CursorFacts.

Lemma sync_merge_cursor_witness :
  sync_merge iso_only [] (Some "9000") [msg_applied; msg_chat; msg_other_game]
             "MARVEL_RIVALS"
  = sync_merge iso_only [] (Some "9000") [msg_applied; msg_other_game]
               "MARVEL_RIVALS".
Proof.
  apply (proj2 (proj2 (proj2 (sync_merge_cursor iso_only [] (Some "9000")
                         [msg_applied; msg_chat; msg_other_game]
                         "MARVEL_RIVALS")))
           [msg_applied] [msg_other_game] msg_chat).
  - reflexivity.
  - vm_compute. reflexivity.
Defined.

(** The cursor is not the identifier of the last update that was applied.
    After the update of message 9001 the board holds its record. The update
    of message 9002 is for the same player and is dated a day earlier:
    [upsertPlayer] discards it as stale, with [updated = false] and the
    board as it was, and the count stays at 1. The cursor nevertheless ends
    on 9002, not on 9001, the last update that was applied. *)
Lemma sync_merge_cursor_moves_on_stale :
  let after_first :=
    sync_merge iso_only [] (Some "9000") [msg_applied] "MARVEL_RIVALS" in
  let after_both :=
    sync_merge iso_only [] (Some "9000") [msg_applied; msg_stale]
               "MARVEL_RIVALS" in
  (accepted iso_only (Some "MARVEL_RIVALS") msg_stale ≫= fun u =>
     Some (upsertPlayer iso_only (m_players after_first) (data u)))
  = Some (m_players after_first, false) /\
  updatedCount after_first = 1 /\ updatedCount after_both = 1 /\
  m_players after_both = m_players after_first /\
  lastMessageId after_first = Some "9001" /\
  lastMessageId after_both = Some "9002" /\
  lastMessageId after_both <> Some "9001".
Proof.
  cbv zeta. split_and!; [vm_compute; reflexivity..|].
  vm_compute. discriminate.
Qed.

(** Four fetched messages: an update, an older update of the same player,
    a chat line and a command of another game. The loop runs
    [upsertPlayer] on the first two; the second comes out as stale, and the
    cursor is its identifier; the last two leave the cursor alone. *)
Example sync_merge_cursor_four_messages :
  parseMessage iso_only (content msg_other_game) <> None /\
  map messageId
      (successful (parseMultipleUpdates iso_only
                     [msg_applied; msg_stale; msg_chat; msg_other_game]
                     (Some "MARVEL_RIVALS")))
    = ["9001"; "9002"] /\
  (let after_first :=
     sync_merge iso_only [] (Some "9000") [msg_applied] "MARVEL_RIVALS" in
   let after_all :=
     sync_merge iso_only [] (Some "9000")
                [msg_applied; msg_stale; msg_chat; msg_other_game]
                "MARVEL_RIVALS" in
   m_players after_all = m_players after_first /\
   updatedCount after_all = 1 /\
   lastMessageId after_first = Some "9001" /\
   lastMessageId after_all = Some "9002").
Proof.
  split; [vm_compute; discriminate|].
  split; [vm_compute; reflexivity|].
  cbv zeta. split_and!; vm_compute; reflexivity.
Qed.

(* ================================================================== *)
(** * The order of [sortPlayers] *)
(* ================================================================== *)

Section SortBy.

Context {A : Type} (cmp : A -> A -> num) (R : A -> A -> Prop) (D : A -> Prop).

Hypothesis cmp_R :
  forall a b, D a -> D b -> (goes_after (cmp a b) = false <-> R a b).
Hypothesis R_total : forall a b, D a -> D b -> R a b \/ R b a.
Hypothesis R_trans :
  forall a b c, D a -> D b -> D c -> R a b -> R b c -> R a c.

Lemma insert_by_perm (x : A) (l : list A) :
  Permutation (insert_by cmp x l) (x :: l).
Proof.
  induction l as [|y t IH]; simpl; [done|].
  destruct (goes_after (cmp x y)); [|done].
  rewrite IH. apply perm_swap.
Qed.

Lemma sort_by_perm (l : list A) : Permutation (sort_by cmp l) l.
Proof.
  induction l as [|x l IH]; simpl; [done|].
  rewrite insert_by_perm. by constructor.
Qed.

Lemma insert_by_sorted (x : A) (l : list A) :
  D x -> Forall D l -> StronglySorted R l ->
  StronglySorted R (insert_by cmp x l).
Proof.
  intros Hx. induction l as [|y t IH]; intros HD Hs; simpl.
  - repeat constructor.
  - apply Forall_cons in HD as [Hy Ht].
    apply StronglySorted_inv in Hs as [Hst Hyt].
    destruct (goes_after (cmp x y)) eqn:E.
    + constructor; [by apply IH|].
      rewrite insert_by_perm. constructor; [|done].
      destruct (R_total x y Hx Hy) as [Hxy|]; [|done].
      apply cmp_R in Hxy; [congruence|done..].
    + assert (Hxy : R x y) by by apply cmp_R.
      constructor; [by constructor|]. constructor; [done|].
      rewrite Forall_forall in Hyt, Ht |- *. intros z Hz.
      apply (R_trans x y z); auto.
Qed.

Lemma sort_by_sorted (l : list A) :
  Forall D l -> StronglySorted R (sort_by cmp l).
Proof.
  induction l as [|x l IH]; intros HD; simpl; [constructor|].
  apply Forall_cons in HD as [Hx Hl].
  apply insert_by_sorted; [done| |by apply IH].
  by rewrite sort_by_perm.
Qed.

End SortBy.

Section SortFacts.

Variable legacy : string -> num.

Lemma sort_keys_inv (g : string) (p : Player) (k1 v k2 pv t : Z) :
  sort_keys legacy g p = Some (k1, v, k2, pv, t) ->
  getRankSortValue (currentRank p) (game_ranks g) (game_maxTier g) = Some k1
  /\ currentValue p = Some v
  /\ getRankSortValue (peakRank p) (game_ranks g) (game_maxTier g) = Some k2
  /\ peakValue p = Some (Some pv)
  /\ Date legacy (lastUpdated p) = Some t.
Proof.
  unfold sort_keys. intros H.
  destruct (getRankSortValue (currentRank p) _ _); [|done].
  destruct (currentValue p); [|done].
  destruct (getRankSortValue (peakRank p) _ _); [|done].
  destruct (peakValue p) as [[|]|]; [|done..].
  destruct (Date legacy _); [|done].
  simpl in H. by simplify_eq.
Qed.

Lemma compare_players_keys (g : string) (a b : Player)
    (ka kb : Z * Z * Z * Z * Z) :
  two_rank_game g ->
  sort_keys legacy g a = Some ka -> sort_keys legacy g b = Some kb ->
  goes_after (compare_players legacy g a b) = false <-> keys_in_order ka kb.
Proof.
  intros Hg Ha Hb.
  destruct ka as [[[[k1 v] k2] pv] t], kb as [[[[k1' v'] k2'] pv'] t'].
  apply sort_keys_inv in Ha as (Ha1 & Ha2 & Ha3 & Ha4 & Ha5).
  apply sort_keys_inv in Hb as (Hb1 & Hb2 & Hb3 & Hb4 & Hb5).
  unfold compare_players.
  replace (str_eqb g "MARVEL_RIVALS" || str_eqb g "OVERWATCH") with true
    by (destruct Hg as [-> | ->]; reflexivity).
  fold (game_ranks g) (game_maxTier g).
  rewrite Ha1, Ha2, Ha3, Ha4, Ha5, Hb1, Hb2, Hb3, Hb4, Hb5.
  unfold keys_in_order. simpl.
  destruct (Z.eqb_spec k1 k1'); simpl;
    [|destruct (Z.ltb_spec 0 (k1' - k1)); split; (lia || done)].
  destruct (Z.eqb_spec v v'); simpl;
    [|destruct (Z.ltb_spec 0 (v - v')); split; (lia || done)].
  destruct (Z.eqb_spec k2 k2'); simpl;
    [|destruct (Z.ltb_spec 0 (k2' - k2)); split; (lia || done)].
  destruct (Z.eqb_spec pv pv'); simpl;
    [|destruct (Z.ltb_spec 0 (pv - pv')); split; (lia || done)].
  destruct (Z.ltb_spec 0 (t' - t)); split; (lia || done).
Qed.

Lemma keys_in_order_total (ka kb : Z * Z * Z * Z * Z) :
  keys_in_order ka kb \/ keys_in_order kb ka.
Proof.
  destruct ka as [[[[k1 v] k2] pv] t], kb as [[[[k1' v'] k2'] pv'] t'].
  unfold keys_in_order. lia.
Qed.

Lemma keys_in_order_trans (ka kb kc : Z * Z * Z * Z * Z) :
  keys_in_order ka kb -> keys_in_order kb kc -> keys_in_order ka kc.
Proof.
  destruct ka as [[[[k1 v] k2] pv] t], kb as [[[[k1' v'] k2'] pv'] t'],
           kc as [[[[k1'' v''] k2''] pv''] t''].
  unfold keys_in_order. lia.
Qed.

(** C5. For a two-rank game and players whose keys are all numbers,
    [sortPlayers] returns the same players arranged so that each one
    precedes every later one in the order: current-rank key descending,
    current value ascending, peak-rank key descending, peak value
    ascending, last update descending. Diamond 2 at 2450 comes before
    Platinum 1 at 2100, and of two players at Diamond 2 the one at 2300
    comes before the one at 2450. *)
Theorem sortPlayers_two_rank_order (g : string) (ps : list Player) :
  two_rank_game g ->
  Forall (fun p => is_Some (sort_keys legacy g p)) ps ->
  Permutation (sortPlayers legacy ps g) ps /\
  StronglySorted (precedes legacy g) (sortPlayers legacy ps g) /\
  sortPlayers legacy [bob; carol] "MARVEL_RIVALS" = [carol; bob] /\
  sortPlayers legacy [carol; bob] "MARVEL_RIVALS" = [carol; bob] /\
  sortPlayers legacy [carol; diamond2_2300] "MARVEL_RIVALS"
    = [diamond2_2300; carol] /\
  sortPlayers legacy [diamond2_2300; carol] "MARVEL_RIVALS"
    = [diamond2_2300; carol].
Proof.
  intros Hg Hkeys.
  split; [|split; [|split_and!; vm_compute; reflexivity]].
  - unfold sortPlayers. destruct ps; [done|]. apply sort_by_perm.
  - unfold sortPlayers. destruct ps as [|p ps]; [constructor|].
    apply (sort_by_sorted _ _ (fun p => is_Some (sort_keys legacy g p)));
      [| | |done].
    + intros a b [ka Ha] [kb Hb].
      rewrite (compare_players_keys g a b ka kb Hg Ha Hb).
      unfold precedes. split; [by eauto|].
      intros (ka' & kb' & Ha' & Hb' & Hord). congruence.
    + intros a b [ka Ha] [kb Hb].
      destruct (keys_in_order_total ka kb); [left|right];
        unfold precedes; eauto.
    + intros a b c _ _ _ (ka & kb & Ha & Hb & Hab) (kb' & kc & Hb' & Hc & Hbc).
      assert (kb' = kb) as -> by congruence.
      exists ka, kc. split_and!; [done..|].
      by apply (keys_in_order_trans ka kb kc).
Qed.

End SortFacts.

Lemma sortPlayers_two_rank_order_witness :
  Permutation (sortPlayers iso_only [bob; alice_old; carol; diamond2_2300]
                           "MARVEL_RIVALS")
              [bob; alice_old; carol; diamond2_2300] /\
  StronglySorted (precedes iso_only "MARVEL_RIVALS")
    (sortPlayers iso_only [bob; alice_old; carol; diamond2_2300]
                 "MARVEL_RIVALS").
Proof.
  pose proof (sortPlayers_two_rank_order iso_only "MARVEL_RIVALS"
                [bob; alice_old; carol; diamond2_2300]) as H.
  destruct H as (Hp & Hs & _).
  - left. reflexivity.
  - repeat constructor; vm_compute; eexists; reflexivity.
  - split; assumption.
Defined.

(* ================================================================== *)
(** * Facts about the string primitives *)
(* ================================================================== *)

Lemma append_cons (c : ascii) (s t : string) :
  String c s +:+ t = String c (s +:+ t).
Proof. reflexivity. Qed.

Lemma append_nil_r (s : string) : s +:+ "" = s.
Proof. induction s as [|c s IH]; [done|]. by rewrite append_cons, IH. Qed.

Lemma append_assoc (s t u : string) : (s +:+ t) +:+ u = s +:+ (t +:+ u).
Proof. induction s as [|c s IH]; [done|]. by rewrite !append_cons, IH. Qed.

Lemma length_append (s t : string) :
  String.length (s +:+ t) = (String.length s + String.length t)%nat.
Proof. induction s as [|c s IH]; [done|]. rewrite append_cons. simpl. lia. Qed.

Lemma str_length_append (s t : string) :
  str_length (s +:+ t) = str_length s + str_length t.
Proof. unfold str_length. rewrite length_append. lia. Qed.

Lemma str_length_nonneg (s : string) : 0 <= str_length s.
Proof. unfold str_length. lia. Qed.

Lemma prefix_nil (s : string) : String.prefix "" s = true.
Proof. by destruct s. Qed.

Lemma prefix_app (p x : string) : String.prefix p (p +:+ x) = true.
Proof.
  induction p as [|a p IH]; [apply prefix_nil|].
  rewrite append_cons. simpl. by destruct (ascii_dec a a).
Qed.

Lemma prefix_head_ne (a b : ascii) (p s : string) :
  a <> b -> String.prefix (String a p) (String b s) = false.
Proof. intros Hne. simpl. by destruct (ascii_dec a b). Qed.

Lemma indexOf_prefix (s needle : string) :
  String.prefix needle s = true -> indexOf s needle = 0.
Proof. intros H. destruct s; cbn [indexOf]; by rewrite H. Qed.

Lemma indexOf_skip (c : ascii) (r needle : string) :
  String.prefix needle (String c r) = false ->
  0 <= indexOf r needle ->
  indexOf (String c r) needle = indexOf r needle + 1.
Proof.
  intros Hp Hr. cbn [indexOf]. rewrite Hp.
  destruct (Z.ltb_spec (indexOf r needle) 0); [lia|done].
Qed.

Lemma str_forallb_app (P : ascii -> bool) (s t : string) :
  str_forallb P (s +:+ t) = str_forallb P s && str_forallb P t.
Proof.
  induction s as [|c s IH]; [done|]. rewrite append_cons. simpl.
  by rewrite IH, andb_assoc.
Qed.

Lemma str_forallb_impl (P Q : ascii -> bool) (s : string) :
  (forall c, P c = true -> Q c = true) ->
  str_forallb P s = true -> str_forallb Q s = true.
Proof.
  intros HPQ. induction s as [|c s IH]; [done|]. simpl.
  intros [Hc Hs]%andb_true_iff. by rewrite (HPQ c Hc), IH.
Qed.

Lemma substring_nat_prefix (b c : string) :
  String.substring 0 (String.length b) (b +:+ c) = b.
Proof.
  induction b as [|x b IH].
  - by destruct c.
  - rewrite append_cons. simpl. by rewrite IH.
Qed.

Lemma substring_nat_skip (a r : string) (m : nat) :
  String.substring (String.length a) m (a +:+ r) = String.substring 0 m r.
Proof. induction a as [|x a IH]; [done|]. rewrite append_cons. simpl. done. Qed.

Lemma substring_middle (a b c : string) :
  substring (a +:+ b +:+ c) (str_length a) (str_length a + str_length b) = b.
Proof.
  unfold substring, clamp. rewrite !str_length_append.
  pose proof (str_length_nonneg a). pose proof (str_length_nonneg b).
  pose proof (str_length_nonneg c).
  replace (Z.max 0 (Z.min (str_length a + (str_length b + str_length c))
                          (str_length a))) with (str_length a) by lia.
  replace (Z.max 0 (Z.min (str_length a + (str_length b + str_length c))
                          (str_length a + str_length b)))
    with (str_length a + str_length b) by lia.
  replace (Z.min (str_length a) (str_length a + str_length b))
    with (str_length a) by lia.
  replace (Z.max (str_length a) (str_length a + str_length b)
           - str_length a) with (str_length b) by lia.
  unfold str_length. rewrite !Nat2Z.id.
  rewrite substring_nat_skip. apply substring_nat_prefix.
Qed.

Lemma substring_from_app (tag x : string) :
  substring_from (tag +:+ x) (str_length tag) = x.
Proof.
  unfold substring_from. rewrite str_length_append.
  rewrite <- (append_nil_r x) at 1. apply substring_middle.
Qed.

Lemma startsWith_app (tag x : string) : startsWith (tag +:+ x) tag = true.
Proof. apply prefix_app. Qed.

(** ** Trimming *)

Lemma trimStart_solid (c : ascii) (s : string) :
  is_space c = false -> trimStart (String c s) = String c s.
Proof. intros H. simpl. by rewrite H. Qed.

Lemma trimEnd_spaces (w : string) :
  str_forallb is_space w = true -> trimEnd w = "".
Proof.
  induction w as [|c w IH]; [done|]. simpl.
  intros [Hc Hw]%andb_true_iff. by rewrite IH, Hc.
Qed.

Lemma trimEnd_app_spaces (s w : string) :
  str_forallb is_space w = true -> trimEnd (s +:+ w) = trimEnd s.
Proof.
  intros Hw. induction s as [|c s IH].
  - by apply trimEnd_spaces.
  - rewrite append_cons. simpl. by rewrite IH.
Qed.

Lemma trimEnd_keep (a b : string) :
  trimEnd b = b -> b <> "" -> trimEnd (a +:+ b) = a +:+ b.
Proof.
  intros Hb Hne. induction a as [|c a IH]; [done|].
  rewrite append_cons. simpl. rewrite IH.
  destruct (a +:+ b) eqn:E; [|done].
  destruct a; [|done]. simpl in E. done.
Qed.

Lemma trimEnd_cons_solid (c : ascii) (s : string) :
  is_space c = false -> trimEnd s = s -> trimEnd (String c s) = String c s.
Proof. intros Hc Hs. simpl. rewrite Hs. destruct s; [by rewrite Hc|done]. Qed.

(** ** Splitting and joining *)

Lemma split_char_lacks (sep : ascii) (s : string) :
  lacks sep s = true -> split_char sep s = [s].
Proof.
  induction s as [|c s IH]; [done|]. unfold lacks. simpl.
  intros [Hc Hs]%andb_true_iff. apply negb_true_iff in Hc.
  rewrite Hc. by rewrite IH.
Qed.

Lemma split_char_app (sep : ascii) (x r : string) :
  lacks sep x = true ->
  split_char sep (x +:+ String sep r) = x :: split_char sep r.
Proof.
  induction x as [|c x IH]; intros Hx.
  - simpl. change ("" +:+ String sep r) with (String sep r). simpl.
    by rewrite Ascii.eqb_refl.
  - unfold lacks in Hx. simpl in Hx. apply andb_true_iff in Hx as [Hc Hx].
    apply negb_true_iff in Hc. rewrite append_cons. simpl.
    rewrite Hc. by rewrite IH.
Qed.

Lemma join_cons2 (sep : ascii) (x y : string) (t : list string) :
  join (String sep "") (x :: y :: t)
  = x +:+ String sep (join (String sep "") (y :: t)).
Proof. reflexivity. Qed.

Lemma split_char_join (sep : ascii) (ls : list string) :
  ls <> [] -> Forall (fun l => lacks sep l = true) ls ->
  split_char sep (join (String sep "") ls) = ls.
Proof.
  induction ls as [|x ls IH]; [done|]. intros _ Hall.
  apply Forall_cons in Hall as [Hx Hls].
  destruct ls as [|y t].
  - simpl. by apply split_char_lacks.
  - rewrite join_cons2, split_char_app by done. f_equal. by apply IH.
Qed.

Lemma str_forallb_join (P : ascii -> bool) (sep : ascii) (ls : list string) :
  P sep = true -> Forall (fun l => str_forallb P l = true) ls ->
  str_forallb P (join (String sep "") ls) = true.
Proof.
  intros Hsep. induction ls as [|x ls IH]; [done|]. intros Hall.
  apply Forall_cons in Hall as [Hx Hls]. destruct ls as [|y t]; [done|].
  rewrite join_cons2, str_forallb_app, Hx. simpl. rewrite Hsep. simpl.
  by apply IH.
Qed.

Lemma join_snoc (sep : ascii) (ls : list string) (x : string) :
  ls <> [] ->
  join (String sep "") (ls ++ [x])
  = join (String sep "") ls +:+ String sep x.
Proof.
  induction ls as [|y ls IH]; [done|]. intros _.
  destruct ls as [|z t]; [done|].
  change ((y :: z :: t) ++ [x]) with (y :: (z :: t) ++ [x]).
  change ((z :: t) ++ [x]) with (z :: t ++ [x]) at 1.
  rewrite join_cons2.
  change (z :: t ++ [x]) with ((z :: t) ++ [x]). rewrite IH by done.
  rewrite join_cons2. by rewrite append_assoc.
Qed.

(** ** Numbers as text *)

Lemma read_digits_string_of_uint (d : Decimal.uint) :
  read_digits (NilEmpty.string_of_uint d) = (d, "").
Proof. induction d; simpl; [done|by rewrite IHd..]. Qed.

Lemma to_uint_nonnil (n : N) : N.to_uint n <> Decimal.Nil.
Proof.
  destruct n as [|p]; [done|]. simpl.
  apply DecimalPos.Unsigned.to_uint_nonnil.
Qed.

Lemma parseInt_string_of_uint (d : Decimal.uint) :
  d <> Decimal.Nil ->
  parseInt (NilEmpty.string_of_uint d) = Some (uint_value d).
Proof.
  destruct d; [done|..]; intros _; unfold parseInt; simpl;
    by rewrite read_digits_string_of_uint.
Qed.

Lemma parseInt_nat_digits (n : N) : parseInt (nat_digits n) = Some (Z.of_N n).
Proof.
  unfold nat_digits. rewrite parseInt_string_of_uint by apply to_uint_nonnil.
  unfold uint_value. by rewrite DecimalN.Unsigned.of_to.
Qed.

Lemma parseInt_minus_digits (n : N) :
  parseInt (String "-" (nat_digits n)) = Some (- Z.of_N n).
Proof.
  unfold nat_digits. pose proof (to_uint_nonnil n) as Hnil.
  pose proof (DecimalN.Unsigned.of_to n) as Hval.
  unfold parseInt. simpl. rewrite read_digits_string_of_uint. simpl.
  destruct (N.to_uint n); [done|..]; unfold uint_value; by rewrite Hval.
Qed.

Lemma parseInt_num_to_string (n : num) : parseInt (num_to_string n) = n.
Proof.
  destruct n as [z|]; [|reflexivity]. unfold num_to_string.
  destruct (Z.ltb_spec z 0).
  - rewrite parseInt_minus_digits. f_equal. lia.
  - rewrite parseInt_nat_digits. f_equal. lia.
Qed.

Lemma string_of_uint_forallb (P : ascii -> bool) (d : Decimal.uint) :
  str_forallb P "0123456789" = true ->
  str_forallb P (NilEmpty.string_of_uint d) = true.
Proof.
  simpl. intros H. repeat (apply andb_true_iff in H as [? H]).
  induction d; simpl; [done|rewrite IHd, ?andb_true_r; done..].
Qed.

(** Whatever holds of the digits, of [-] and of the letters of [NaN] holds
    of the text of every number. *)
Lemma num_to_string_forallb (P : ascii -> bool) (n : num) :
  str_forallb P "0123456789-Na" = true ->
  str_forallb P (num_to_string n) = true.
Proof.
  intros H.
  assert (Hd : str_forallb P "0123456789" = true).
  { simpl in H |- *. repeat (apply andb_true_iff in H as [? H]).
    by repeat (apply andb_true_iff; split). }
  assert (Hm : P "-"%char = true /\ P "N"%char = true /\ P "a"%char = true).
  { simpl in H. repeat (apply andb_true_iff in H as [? H]). done. }
  destruct Hm as (Hminus & HN & Ha).
  destruct n as [z|]; simpl.
  - destruct (z <? 0); simpl; [rewrite Hminus; simpl|];
      by apply string_of_uint_forallb.
  - by rewrite HN, Ha.
Qed.

(* ================================================================== *)
(** * The state codec: numbers, labels and the shape of the blob *)
(* ================================================================== *)

Lemma num_lacks (sep : ascii) (n : num) :
  lacks sep "0123456789-Na" = true -> lacks sep (num_to_string n) = true.
Proof. apply num_to_string_forallb. Qed.

Lemma or_unknown_label (s : string) : s <> "" -> or_unknown (Some s) = s.
Proof. by destruct s. Qed.

Lemma filter_all {A} (P : A -> Prop) `{forall x, Decision (P x)} (l : list A) :
  Forall P l -> filter P l = l.
Proof.
  induction 1 as [|x l Hx Hl IH]; [done|].
  rewrite filter_cons_True by done. by rewrite IH.
Qed.

Lemma append_nil_l (s : string) : "" +:+ s = s.
Proof. reflexivity. Qed.

(** Brings nested appends to the right-nested form. *)
Ltac norm_app :=
  repeat first [ rewrite append_assoc | rewrite append_cons
               | rewrite append_nil_l ].

Lemma blob_shape (G L body : string) :
  join NL [DATA_START_MARKER; G; L; body; DATA_END_MARKER]
  = DATA_START_MARKER +:+ data_section G L body +:+ DATA_END_MARKER.
Proof.
  unfold data_section, NL. cbn [join]. by norm_app.
Qed.

(** C2. The round trip loses a rank of the repository's own list. The
    parser reads the peak rank One Above All from an update; no field of
    the record holds a line feed or a [|]; [encodeState] writes the rank
    field as the name, a space and the tier; [decodePlayerData] cuts that
    field at the spaces and keeps the first two pieces, so that the record
    comes back with the peak rank [One] and [NaN] for its tier. *)
Theorem encode_decode_loses_multiword_rank :
  exists p,
    parseMessage iso_only msg_top_rank = Some p /\
    peakRank p = Some (mkRank "One Above All" (Some 1)) /\
    Forall (fun f => lacks LF f = true /\ lacks "|" f = true)
           [userId p; default "" (role p);
            default "" (rank <$> currentRank p);
            default "" (rank <$> peakRank p); lastUpdated p] /\
    encodeState (Some "9002") [p] "MARVEL_RIVALS"
    = Some (join NL
        ["[DATA:v1]"; "GAME:MARVEL_RIVALS"; "LAST:9002";
         "1007|Duelist|Gold 1|1800|One Above All 1|2610|" +:+ feb14;
         "[/DATA]"]) /\
    (encodeState (Some "9002") [p] "MARVEL_RIVALS" ≫= fun blob =>
       Some (decodeState blob))
    = Some (mkState (Some "MARVEL_RIVALS") (Some "9002")
              [Some (two_rank_player "1007" "Duelist" (mkRank "Gold" (Some 1))
                       1800 (mkRank "One" None) 2610 feb14)]) /\
    (encodeState (Some "9002") [p] "MARVEL_RIVALS" ≫= fun blob =>
       Some (players (decodeState blob)))
    <> Some [Some (persisted p)].
Proof.
  eexists. split; [vm_compute; reflexivity|].
  split_and!; [vm_compute; reflexivity| |vm_compute; reflexivity..|].
  - repeat constructor.
  - vm_compute. discriminate.
Qed.

(** Two records without a line feed or a [|] in any field that do not
    come back: an empty role is written and read back as [Unknown], and
    the rank One Above All at tier 1 is read back as the rank [One] with
    [NaN] for the tier. *)
Lemma encode_decode_not_identity :
  (encodeState (Some "9002") [no_role] "MARVEL_RIVALS" ≫=
     fun blob => Some (players (decodeState blob)))
  = Some [Some {| game := None; userId := "1006"; role := Some "Unknown";
                  heroName := None;
                  currentRank := Some (mkRank "Gold" (Some 2));
                  currentValue := Some 1700;
                  peakRank := Some (mkRank "Gold" (Some 1));
                  peakValue := Some (Some 1750);
                  lastUpdated := feb14; rawMention := None |}] /\
  (encodeState (Some "9002") [top_rank] "MARVEL_RIVALS" ≫=
     fun blob => Some (players (decodeState blob)))
  = Some [Some (two_rank_player "1007" "Duelist" (mkRank "One" None) 5200
                                (mkRank "One" None) 5300 feb14)] /\
  (encodeState (Some "9002") [no_role] "MARVEL_RIVALS" ≫=
     fun blob => Some (players (decodeState blob)))
  <> Some [Some no_role].
Proof. split_and!; [vm_compute; reflexivity..|vm_compute; discriminate]. Qed.

(* ================================================================== *)
(** * Further properties of [upsertPlayer] and of the merge loop *)
(* ================================================================== *)

Lemma num_lt_irrefl (d : num) : num_lt d d = false.
Proof. destruct d as [z|]; [|done]. simpl. apply Z.ltb_irrefl. Qed.

Lemma findIndex_spec {A} (P : A -> bool) (l : list A) :
  (findIndex P l = -1 /\ Forall (fun y => P y = false) l) \/
  exists (i : nat) (x : A),
    findIndex P l = Z.of_nat i /\ l !! i = Some x /\ P x = true /\
    forall (j : nat) (y : A), l !! j = Some y -> (j < i)%nat -> P y = false.
Proof.
  unfold findIndex.
  destruct (list_find _ l) as [[i x]|] eqn:E.
  - right. apply list_find_Some in E as (Hi & Hx & Hbefore).
    exists i, x. split_and!; [done..|].
    intros j y Hj Hlt. specialize (Hbefore j y Hj Hlt).
    by destruct (P y).
  - left. split; [done|]. apply list_find_None in E.
    eapply Forall_impl; [exact E|]. intros y Hy. simpl in Hy.
    by destruct (P y).
Qed.

Lemma findIndex_at {A} (P : A -> bool) (l : list A) (i : nat) (x : A) :
  l !! i = Some x -> P x = true ->
  (forall (j : nat) (y : A), l !! j = Some y -> (j < i)%nat -> P y = false) ->
  findIndex P l = Z.of_nat i.
Proof.
  intros Hi Hx Hbefore. unfold findIndex.
  assert (list_find (fun y => P y = true) l = Some (i, x)) as ->; [|done].
  apply list_find_Some. split_and!; [done..|].
  intros j y Hj Hlt. rewrite (Hbefore j y Hj Hlt). done.
Qed.

Section UpsertMore.

Variable legacy : string -> num.

(** What [upsertPlayer] returns, case by case. *)
Lemma upsertPlayer_cases (ps : list Player) (new : Player) :
  (Forall (fun p => userId p <> userId new) ps /\
   upsertPlayer legacy ps new = (ps ++ [new], true)) \/
  exists (i : nat) (old : Player),
    ps !! i = Some old /\ userId old = userId new /\
    (forall (j : nat) (y : Player),
        ps !! j = Some y -> (j < i)%nat -> userId y <> userId new) /\
    (upsertPlayer legacy ps new = (ps, false) \/
     upsertPlayer legacy ps new = (<[i := new]> ps, true)).
Proof.
  unfold upsertPlayer.
  destruct (findIndex_spec (fun p => str_eqb (userId p) (userId new)) ps)
    as [[-> Hall]|(i & old & -> & Hi & Hold & Hbefore)].
  - left. split; [|done]. eapply Forall_impl; [exact Hall|].
    intros p Hp Heq. apply str_eqb_true in Heq. congruence.
  - right. exists i, old. apply str_eqb_true in Hold.
    split_and!; [done..| |].
    + intros j y Hj Hlt Heq. apply str_eqb_true in Heq.
      specialize (Hbefore j y Hj Hlt). congruence.
    + destruct (Z.leb_spec 0 (Z.of_nat i)); [|lia].
      rewrite Nat2Z.id, Hi. destruct (num_lt _ _); auto.
Qed.

(** The user ids after the call: the same ids in the same places, or one
    more id at the end when the user is new. *)
Lemma upsertPlayer_user_ids (ps : list Player) (new : Player) :
  (user_ids (upsertPlayer legacy ps new).1 = user_ids ps /\
   userId new ∈ user_ids ps /\
   length (upsertPlayer legacy ps new).1 = length ps) \/
  (user_ids (upsertPlayer legacy ps new).1 = user_ids ps ++ [userId new] /\
   (userId new ∉ user_ids ps) /\
   (upsertPlayer legacy ps new).2 = true /\
   length (upsertPlayer legacy ps new).1 = S (length ps)).
Proof.
  unfold user_ids.
  destruct (upsertPlayer_cases ps new)
    as [[Hall ->]|(i & old & Hi & Hold & _ & Hres)]; cbn [fst snd].
  - right. split_and!; [by rewrite map_app| |done|rewrite length_app; simpl; lia].
    intros Hu. apply list_elem_of_fmap in Hu as (p & Hp & Hin).
    rewrite Forall_forall in Hall. by apply (Hall p).
  - left.
    assert (Hmem : userId new ∈ map userId ps).
    { apply list_elem_of_fmap. exists old. split; [done|].
      by eapply list_elem_of_lookup_2. }
    destruct Hres as [-> | ->]; cbn [fst]; [done|].
    split_and!; [|done|by rewrite length_insert].
    change (map userId (<[i:=new]> ps)) with (userId <$> <[i:=new]> ps).
    rewrite list_fmap_insert, list_insert_id; [done|].
    rewrite list_lookup_fmap, Hi. simpl. by rewrite Hold.
Qed.

(** X1. [upsertPlayer] keeps the user ids of the list pairwise distinct:
    a list with at most one record per user stays so. *)
Theorem upsertPlayer_keeps_ids_distinct (ps : list Player) (new : Player) :
  NoDup (user_ids ps) ->
  NoDup (user_ids (upsertPlayer legacy ps new).1).
Proof.
  intros Hnd.
  destruct (upsertPlayer_user_ids ps new) as [(-> & _)|(-> & Hnew & _)];
    [done|].
  apply NoDup_app. split_and!; [done| |apply NoDup_singleton].
  intros u Hu Hin. apply list_elem_of_singleton in Hin as ->. done.
Qed.

(** X2. Upserting the same record a second time changes nothing: the list
    after the first call is a fixed point of the second. *)
Theorem upsertPlayer_idempotent (ps : list Player) (new : Player) :
  (upsertPlayer legacy (upsertPlayer legacy ps new).1 new).1
  = (upsertPlayer legacy ps new).1.
Proof.
  destruct (upsertPlayer_cases ps new)
    as [[Hall Hres]|(i & old & Hi & Hold & Hbefore & [Hres | Hres])].
  - rewrite Hres. cbn [fst]. unfold upsertPlayer.
    rewrite (findIndex_first _ ps [] new);
      [|by apply other_users_ne|by apply str_eqb_true].
    destruct (Z.leb_spec 0 (Z.of_nat (length ps))); [|lia].
    rewrite Nat2Z.id, list_lookup_middle by done.
    rewrite num_lt_irrefl. cbn [fst].
    rewrite insert_app_r_alt by done. by rewrite Nat.sub_diag.
  - rewrite Hres. cbn [fst]. by rewrite Hres.
  - rewrite Hres. cbn [fst]. unfold upsertPlayer.
    assert (Hlt : (i < length ps)%nat) by (by eapply lookup_lt_Some).
    rewrite (findIndex_at _ (<[i:=new]> ps) i new).
    + destruct (Z.leb_spec 0 (Z.of_nat i)); [|lia].
      rewrite Nat2Z.id, list_lookup_insert_eq by done.
      rewrite num_lt_irrefl. cbn [fst]. by rewrite list_insert_insert_eq.
    + by apply list_lookup_insert_eq.
    + by apply str_eqb_true.
    + intros j y Hj Hji. rewrite list_lookup_insert_ne in Hj by lia.
      specialize (Hbefore j y Hj Hji).
      destruct (str_eqb _ _) eqn:E; [|done]. by apply str_eqb_true in E.
Qed.

(** X3. After [upsertPlayer] the list holds a record of the incoming user
    and is at most one record longer; with [updated = false] the list is
    the one that was passed in, and with [updated = true] the incoming
    record is in the list. *)
Theorem upsertPlayer_outcome (ps : list Player) (new : Player) :
  userId new ∈ user_ids (upsertPlayer legacy ps new).1 /\
  (length ps <= length (upsertPlayer legacy ps new).1 <= S (length ps))%nat /\
  ((upsertPlayer legacy ps new).2 = false ->
   (upsertPlayer legacy ps new).1 = ps) /\
  ((upsertPlayer legacy ps new).2 = true ->
   new ∈ (upsertPlayer legacy ps new).1).
Proof.
  split; [|split].
  - destruct (upsertPlayer_user_ids ps new) as [(-> & Hin & _)|(-> & _)];
      [done|]. apply elem_of_app. right. by left.
  - destruct (upsertPlayer_user_ids ps new)
      as [(_ & _ & ->)|(_ & _ & _ & ->)]; lia.
  - destruct (upsertPlayer_cases ps new)
      as [[Hall ->]|(i & old & Hi & Hold & _ & [-> | ->])]; cbn [fst snd].
    + split; [done|]. intros _. apply elem_of_app. right. by left.
    + done.
    + split; [done|]. intros _. eapply list_elem_of_lookup_2.
      apply list_lookup_insert_eq. by eapply lookup_lt_Some.
Qed.

(** The users on the board stay on the board. *)
Lemma upsertPlayer_keeps_users (ps : list Player) (new : Player) (u : string) :
  u ∈ user_ids ps -> u ∈ user_ids (upsertPlayer legacy ps new).1.
Proof.
  intros Hu.
  destruct (upsertPlayer_user_ids ps new) as [(-> & _)|(-> & _)]; [done|].
  apply elem_of_app. by left.
Qed.

Lemma merge_step_players (st : Merge) (u : Successful) :
  m_players (merge_step legacy st u)
  = (upsertPlayer legacy (m_players st) (data u)).1.
Proof. reflexivity. Qed.

(** X4. The merge loop keeps the board free of duplicate users, loses no
    user, and ends with every user named by an update on the board. *)
Theorem merge_loop_users (ps : list Player) (cursor : option string)
    (us : list Successful) :
  NoDup (user_ids ps) ->
  NoDup (user_ids (m_players (merge_loop legacy ps cursor us))) /\
  (forall u, u ∈ user_ids ps ->
             u ∈ user_ids (m_players (merge_loop legacy ps cursor us))) /\
  Forall (fun up => userId (data up)
                    ∈ user_ids (m_players (merge_loop legacy ps cursor us)))
         us.
Proof.
  intros Hnd0. unfold merge_loop.
  assert (Hgen : forall st,
    NoDup (user_ids (m_players st)) ->
    NoDup (user_ids (m_players (fold_left (merge_step legacy) us st))) /\
    (forall u, u ∈ user_ids (m_players st) ->
       u ∈ user_ids (m_players (fold_left (merge_step legacy) us st))) /\
    Forall (fun up => userId (data up)
              ∈ user_ids (m_players (fold_left (merge_step legacy) us st)))
           us).
  { induction us as [|up us IH]; intros st Hnd; cbn [fold_left].
    - split_and!; [done|done|constructor].
    - destruct (IH (merge_step legacy st up)) as (Hnd' & Hkeep & Hall).
      { rewrite merge_step_players.
        destruct (upsertPlayer_user_ids (m_players st) (data up))
          as [(-> & _)|(-> & Hnew & _)]; [done|].
        apply NoDup_app. split_and!; [done| |apply NoDup_singleton].
        intros u Hu Hin. apply list_elem_of_singleton in Hin as ->. done. }
      split_and!; [done| |].
      + intros u Hu. apply Hkeep. rewrite merge_step_players.
        by apply upsertPlayer_keeps_users.
      + constructor; [|done]. apply Hkeep. rewrite merge_step_players.
        destruct (upsertPlayer_user_ids (m_players st) (data up))
          as [(-> & Hin & _)|(-> & _)]; [done|].
        apply elem_of_app. right. by left. }
  apply (Hgen (mkMerge ps 0 cursor)). exact Hnd0.
Qed.

(** X5. The loop counts the updates that [upsertPlayer] reported as
    updated: the count lies between 0 and the number of updates, and the
    board grows by at most that count and never shrinks. *)
Theorem merge_loop_counts (ps : list Player) (cursor : option string)
    (us : list Successful) :
  0 <= updatedCount (merge_loop legacy ps cursor us) <= Z.of_nat (length us) /\
  Z.of_nat (length ps)
    <= Z.of_nat (length (m_players (merge_loop legacy ps cursor us)))
    <= Z.of_nat (length ps) + updatedCount (merge_loop legacy ps cursor us).
Proof.
  unfold merge_loop.
  assert (Hgen : forall st,
    updatedCount st
      <= updatedCount (fold_left (merge_step legacy) us st)
      <= updatedCount st + Z.of_nat (length us) /\
    Z.of_nat (length (m_players st))
      <= Z.of_nat (length (m_players (fold_left (merge_step legacy) us st)))
      <= Z.of_nat (length (m_players st))
         + (updatedCount (fold_left (merge_step legacy) us st)
            - updatedCount st)).
  { induction us as [|up us IH]; intros st; cbn [fold_left length].
    - lia.
    - specialize (IH (merge_step legacy st up)).
      assert (Hstep :
        (updatedCount (merge_step legacy st up) = updatedCount st /\
         length (m_players (merge_step legacy st up)) = length (m_players st))
        \/
        (updatedCount (merge_step legacy st up) = updatedCount st + 1 /\
         (length (m_players st)
          <= length (m_players (merge_step legacy st up))
          <= S (length (m_players st)))%nat)).
      { unfold merge_step. cbn [updatedCount m_players].
        destruct (upsertPlayer_user_ids (m_players st) (data up))
          as [(_ & _ & Hlen)|(_ & _ & Hupd & Hlen)].
        - destruct (upsertPlayer legacy (m_players st) (data up)).2;
            [right|left]; split; (done || lia).
        - rewrite Hupd. right. split; [done|lia]. }
      destruct Hstep as [[Hc Hl]|[Hc Hl]]; rewrite ?Hc, ?Hl in IH; lia. }
  specialize (Hgen (mkMerge ps 0 cursor)). cbn [updatedCount m_players] in Hgen.
  lia.
Qed.

End UpsertMore.

Lemma upsertPlayer_keeps_ids_distinct_witness :
  NoDup (user_ids (upsertPlayer iso_only [bob; alice_old; carol] alice_tie).1).
Proof.
  apply (upsertPlayer_keeps_ids_distinct iso_only [bob; alice_old; carol]
           alice_tie).
  apply (bool_decide_unpack _). vm_compute. exact I.
Defined.

Lemma merge_loop_users_witness :
  NoDup (user_ids (m_players
    (merge_loop iso_only [bob; alice_old] (Some "9000")
       [mkSuccessful "9001" 0 "turbo" alice_tie;
        mkSuccessful "9002" 1 "turbo" carol]))).
Proof.
  apply (merge_loop_users iso_only [bob; alice_old] (Some "9000")
           [mkSuccessful "9001" 0 "turbo" alice_tie;
            mkSuccessful "9002" 1 "turbo" carol]).
  apply (bool_decide_unpack _). vm_compute. exact I.
Defined.

Lemma upsertPlayer_outcome_witness :
  (upsertPlayer iso_only [bob; alice_old] alice_stale).1 = [bob; alice_old] /\
  alice_tie ∈ (upsertPlayer iso_only [bob; alice_old] alice_tie).1.
Proof.
  pose proof (upsertPlayer_outcome iso_only [bob; alice_old] alice_stale)
    as (_ & _ & Hstale & _).
  pose proof (upsertPlayer_outcome iso_only [bob; alice_old] alice_tie)
    as (_ & _ & _ & Happlied).
  split; [apply Hstale|apply Happlied]; reflexivity.
Defined.

(* ================================================================== *)
(** * Further properties of the batch parser *)
(* ================================================================== *)

Section BatchMore.

Variable legacy : string -> num.

Lemma accepted_id (g : option string) (m : Message) (s : Successful) :
  accepted legacy g m = Some s ->
  messageId s = id m /\ timestamp s = createdTimestamp m /\
  parseMessage legacy (content m) = Some (data s) /\
  (filter_set g = true -> game (data s) = g).
Proof.
  unfold accepted. destruct (parseMessage legacy (content m)) as [p|]; [|done].
  destruct (filter_set g) eqn:Hf; simpl.
  - destruct (bool_decide (game p = g)) eqn:Hg; simpl; [|done].
    intros [= <-]. apply bool_decide_eq_true in Hg. done.
  - intros [= <-]. done.
Qed.

Lemma fold_parse_total (g : option string) (ms : list Message)
    (r : ParseResults) :
  Z.of_nat (length (successful (fold_left (parse_step legacy g) ms r)))
    + skipped (fold_left (parse_step legacy g) ms r)
  = Z.of_nat (length (successful r)) + skipped r + Z.of_nat (length ms).
Proof.
  revert r. induction ms as [|m ms IH]; intros r; cbn [fold_left length].
  - lia.
  - rewrite IH. unfold parse_step.
    destruct (parseMessage legacy (content m)) as [p|]; cbn [successful skipped];
      [|lia].
    destruct (_ && _); cbn [successful skipped obj_truthy]; [lia|].
    rewrite length_app. simpl. lia.
Qed.

(** X6. [parseMultipleUpdates] accounts for every message: the successful
    ones and the skipped count add up to the number of messages. The
    successful entries come in the order of the messages, each carrying the
    id and the time stamp of a message whose text parses to its data, and
    under a game-type filter every one of them is of that game. *)
Theorem parseMultipleUpdates_accounting (ms : list Message)
    (g : option string) :
  Z.of_nat (length (successful (parseMultipleUpdates legacy ms g)))
    + skipped (parseMultipleUpdates legacy ms g)
  = Z.of_nat (length ms) /\
  sublist (map messageId (successful (parseMultipleUpdates legacy ms g)))
          (map id ms) /\
  Forall (fun s => exists m, m ∈ ms /\ id m = messageId s /\
                     createdTimestamp m = timestamp s /\
                     parseMessage legacy (content m) = Some (data s))
         (successful (parseMultipleUpdates legacy ms g)) /\
  (filter_set g = true ->
   Forall (fun s => game (data s) = g)
          (successful (parseMultipleUpdates legacy ms g))).
Proof.
  split; [|rewrite parseMultipleUpdates_successful; split_and!].
  - unfold parseMultipleUpdates. rewrite fold_parse_total. simpl. lia.
  - induction ms as [|m ms IH]; csimpl; [constructor|].
    destruct (accepted legacy g m) as [s|] eqn:E; csimpl.
    + apply accepted_id in E as (-> & _). by constructor.
    + by constructor.
  - induction ms as [|m ms IH]; csimpl; [constructor|].
    assert (Hrest : Forall (fun s => exists m0, m0 ∈ m :: ms /\
                       id m0 = messageId s /\
                       createdTimestamp m0 = timestamp s /\
                       parseMessage legacy (content m0) = Some (data s))
                     (omap (accepted legacy g) ms)).
    { eapply Forall_impl; [exact IH|]. intros s (m0 & Hin & H).
      exists m0. split; [by right|done]. }
    destruct (accepted legacy g m) as [s|] eqn:E; csimpl; [|done].
    constructor; [|done]. apply accepted_id in E as (E1 & E2 & E3 & _).
    exists m. split_and!; [by left|done..].
  - intros Hf. induction ms as [|m ms IH]; csimpl; [constructor|].
    destruct (accepted legacy g m) as [s|] eqn:E; csimpl; [|done].
    constructor; [|done]. by apply accepted_id in E as (_ & _ & _ & ->).
Qed.

End BatchMore.

Lemma parseMultipleUpdates_accounting_witness :
  Forall (fun s => game (data s) = Some "MARVEL_RIVALS")
         (successful (parseMultipleUpdates iso_only
                        [msg_applied; msg_chat; msg_other_game; msg_stale]
                        (Some "MARVEL_RIVALS"))).
Proof.
  apply (parseMultipleUpdates_accounting iso_only
           [msg_applied; msg_chat; msg_other_game; msg_stale]
           (Some "MARVEL_RIVALS")).
  reflexivity.
Defined.

(* ================================================================== *)
(** * Further properties of the ranks *)
(* ================================================================== *)

Lemma rank_prefix_loop_name (parts validRanks : list string) (n : nat)
    (name : string) (tk : option num) :
  rank_prefix_loop parts validRanks n = (Some name, tk) -> name ∈ validRanks.
Proof.
  induction n as [|n IH]; [done|]. cbn [rank_prefix_loop].
  destruct (existsb _ validRanks); [|exact IH].
  intros [= Hfind _]. apply find_some in Hfind as [Hin _].
  by apply list_elem_of_In.
Qed.

Lemma parseRankWithTier_listed (rankString : string)
    (validRanks : list string) (maxTier : Z) (r : Rank) :
  1 <= maxTier ->
  parseRankWithTier rankString validRanks maxTier = Some r ->
  listed_rank validRanks maxTier (Some r).
Proof.
  intros Hmax. unfold parseRankWithTier, listed_rank.
  destruct (rank_prefix_loop _ validRanks _) as [[name|] tk] eqn:E; [|done].
  apply rank_prefix_loop_name in E.
  destruct (str_truthy name); [|done]. cbn [negb].
  intros [= <-]. exists name.
  destruct tk as [[z|]|]; cbn [num_truthy num_lt].
  - destruct (Z.eqb_spec z 0) as [->|Hz]; cbn [negb andb].
    + exists 1. split_and!; [done|done|lia|lia].
    + destruct (Z.ltb_spec z 1), (Z.ltb_spec maxTier z); cbn [orb];
        try (exists 1; split_and!; [done|done|lia|lia]).
      cbn [num_truthy]. destruct (Z.eqb_spec z 0); [lia|]. cbn [negb].
      exists z. split_and!; [done|done|lia|lia].
  - exists 1. split_and!; [done|done|lia|lia].
  - exists 1. split_and!; [done|done|lia|lia].
Qed.

(** X7. A rank that [parseRankWithTier] returns is spelled as in the list
    it was given, and its tier is a number between 1 and [maxTier]. *)
Theorem parseRankWithTier_in_table (rankString : string)
    (validRanks : list string) (maxTier : Z) (r : Rank) :
  1 <= maxTier ->
  parseRankWithTier rankString validRanks maxTier = Some r ->
  rank r ∈ validRanks /\ exists t, tier r = Some t /\ 1 <= t <= maxTier.
Proof.
  intros Hmax Hparse.
  destruct (parseRankWithTier_listed _ _ _ _ Hmax Hparse)
    as (name & t & [= ->] & Hin & Ht).
  cbn [rank tier]. split; [done|]. by exists t.
Qed.

Lemma parseRankWithTier_in_table_witness :
  rank (mkRank "Top 500" (Some 1)) ∈ OVERWATCH_RANKS /\
  exists t, tier (mkRank "Top 500" (Some 1)) = Some t /\ 1 <= t <= 5.
Proof.
  apply (parseRankWithTier_in_table "top 500 500" OVERWATCH_RANKS 5).
  - lia.
  - vm_compute. reflexivity.
Defined.

Lemma findIndex_bounds {A} (P : A -> bool) (l : list A) :
  -1 <= findIndex P l < Z.of_nat (length l).
Proof.
  destruct (findIndex_spec P l) as [[-> _]|(i & x & -> & Hi & _)]; [lia|].
  apply lookup_lt_Some in Hi. lia.
Qed.

(** X8. For ranks of the list with tiers between 1 and [maxTier], the sort
    key follows the place of the name in the list first: a name later in
    the list has the larger key whatever the tiers are; for one name the
    smaller tier number has the larger key; and every such key is positive
    and at most the length of the list times [maxTier]. *)
Theorem getRankSortValue_order (validRanks : list string) (maxTier : Z)
    (r1 r2 : Rank) (t1 t2 : Z) :
  tier r1 = Some t1 -> tier r2 = Some t2 ->
  1 <= t1 <= maxTier -> 1 <= t2 <= maxTier ->
  0 <= rank_index validRanks (rank r1) ->
  0 <= rank_index validRanks (rank r2) ->
  exists k1 k2,
    getRankSortValue (Some r1) validRanks maxTier = Some k1 /\
    getRankSortValue (Some r2) validRanks maxTier = Some k2 /\
    1 <= k1 <= Z.of_nat (length validRanks) * maxTier /\
    (rank_index validRanks (rank r1) < rank_index validRanks (rank r2) ->
     k1 < k2) /\
    (rank_index validRanks (rank r1) = rank_index validRanks (rank r2) ->
     t1 < t2 -> k2 < k1).
Proof.
  intros Ht1 Ht2 Hr1 Hr2 Hi1 Hi2. unfold getRankSortValue, rank_index in *.
  pose proof (findIndex_bounds
    (fun v => str_eqb (toLowerCase v) (toLowerCase (rank r1))) validRanks).
  set (i1 := findIndex _ validRanks) in *.
  set (i2 := findIndex
    (fun v => str_eqb (toLowerCase v) (toLowerCase (rank r2))) validRanks) in *.
  destruct (Z.eqb_spec i1 (-1)); [lia|]. destruct (Z.eqb_spec i2 (-1)); [lia|].
  rewrite Ht1, Ht2. cbn [num_add num_sub].
  eexists _, _. split_and!; [done|done|nia|nia|nia|nia].
Qed.

Lemma getRankSortValue_order_witness :
  exists k1 k2,
    getRankSortValue (Some (mkRank "Platinum" (Some 1))) MARVEL_RIVALS_RANKS 3
      = Some k1 /\
    getRankSortValue (Some (mkRank "Diamond" (Some 3))) MARVEL_RIVALS_RANKS 3
      = Some k2 /\
    1 <= k1 <= Z.of_nat (length MARVEL_RIVALS_RANKS) * 3 /\
    (rank_index MARVEL_RIVALS_RANKS "Platinum"
       < rank_index MARVEL_RIVALS_RANKS "Diamond" -> k1 < k2) /\
    (rank_index MARVEL_RIVALS_RANKS "Platinum"
       = rank_index MARVEL_RIVALS_RANKS "Diamond" -> 1 < 3 -> k2 < k1).
Proof.
  apply (getRankSortValue_order MARVEL_RIVALS_RANKS 3
           (mkRank "Platinum" (Some 1)) (mkRank "Diamond" (Some 3)) 1 3);
    first [reflexivity | lia | (vm_compute; discriminate)].
Defined.

(* ================================================================== *)
(** * Mentions and labels *)
(* ================================================================== *)

Lemma digit_of_char_text (c : ascii) (d : Decimal.uint -> Decimal.uint) :
  digit_of_char c = Some d ->
  forall u, NilEmpty.string_of_uint (d u)
            = String c (NilEmpty.string_of_uint u).
Proof.
  destruct c as [[] [] [] [] [] [] [] []]; try done;
    intros [= <-]; reflexivity.
Qed.

Lemma digit_of_char_nonnil (c : ascii) (d : Decimal.uint -> Decimal.uint) :
  digit_of_char c = Some d -> forall u, d u <> Decimal.Nil.
Proof.
  destruct c as [[] [] [] [] [] [] [] []]; try done;
    intros [= <-]; done.
Qed.

(** Reading the digits in front of a text that does not go on with a
    digit. *)
Lemma read_digits_run (ds rest : string) :
  str_forallb digit_char ds = true ->
  (forall c r, rest = String c r -> digit_char c = false) ->
  exists u, read_digits (ds +:+ rest) = (u, rest) /\
            NilEmpty.string_of_uint u = ds /\
            (ds <> "" -> u <> Decimal.Nil).
Proof.
  intros Hds Hrest. induction ds as [|c ds IH].
  - exists Decimal.Nil. split_and!; [|done|done].
    rewrite append_nil_l. destruct rest as [|c r]; [done|].
    specialize (Hrest c r eq_refl). unfold digit_char in Hrest.
    cbn [read_digits]. by destruct (digit_of_char c).
  - cbn [str_forallb] in Hds. apply andb_true_iff in Hds as [Hc Hds].
    destruct (IH Hds) as (u & Hread & Htext & _).
    unfold digit_char in Hc. destruct (digit_of_char c) as [d|] eqn:Ed; [|done].
    exists (d u). rewrite append_cons. cbn [read_digits]. rewrite Ed, Hread.
    split_and!; [done| |].
    + by rewrite (digit_of_char_text c d Ed), Htext.
    + intros _. by apply (digit_of_char_nonnil c d).
Qed.

Lemma string_of_uint_digits (u : Decimal.uint) :
  str_forallb digit_char (NilEmpty.string_of_uint u) = true.
Proof. induction u; simpl; done. Qed.

Lemma string_of_uint_nonempty (u : Decimal.uint) :
  u <> Decimal.Nil -> NilEmpty.string_of_uint u <> "".
Proof. by destruct u. Qed.

Lemma mention_here_digits (s u : string) :
  mention_here s = Some u -> digit_text u.
Proof.
  unfold mention_here. destruct s as [|a s]; [done|].
  destruct (Ascii.eqb_spec a "<") as [->|]; [|by destruct a as [[][][][][][][][]]].
  destruct s as [|b s]; [done|].
  destruct (Ascii.eqb_spec b "@") as [->|]; [|by destruct b as [[][][][][][][][]]].
  destruct (read_digits _) as [ds rest].
  destruct ds; [done|..];
    (destruct rest as [|c rest]; [done|];
     destruct (Ascii.eqb_spec c ">") as [->|];
       [|by destruct c as [[][][][][][][][]]];
     intros [= <-]; split; [done|simpl; apply string_of_uint_digits]).
Qed.

Lemma mention_here_plain (ds rest : string) :
  digit_text ds ->
  mention_here ("<@" +:+ ds +:+ ">" +:+ rest) = Some ds /\
  mention_here ("<@!" +:+ ds +:+ ">" +:+ rest) = Some ds.
Proof.
  intros [Hne Hds].
  destruct (read_digits_run ds (">" +:+ rest) Hds) as (u & Hread & Htext & Hnil).
  { intros c r [= <- _]. reflexivity. }
  specialize (Hnil Hne).
  destruct ds as [|c ds]; [done|].
  assert (Hc : c <> "!"%char).
  { cbn [str_forallb] in Hds. apply andb_true_iff in Hds as [Hc _].
    intros ->. done. }
  split.
  - change ("<@" +:+ String c ds +:+ ">" +:+ rest)
      with (String "<" (String "@" (String c ds +:+ ">" +:+ rest))).
    unfold mention_here.
    replace (match String c ds +:+ ">" +:+ rest with
             | String "!" r1 => r1
             | _ => String c ds +:+ ">" +:+ rest
             end) with (String c ds +:+ ">" +:+ rest).
    + rewrite Hread. rewrite <- Htext. by destruct u.
    + rewrite append_cons.
      destruct (Ascii.eqb_spec c "!"); [done|].
      by destruct c as [[][][][][][][][]].
  - change ("<@!" +:+ String c ds +:+ ">" +:+ rest)
      with (String "<" (String "@" (String "!"
              (String c ds +:+ ">" +:+ rest)))).
    unfold mention_here. rewrite Hread. rewrite <- Htext. by destruct u.
Qed.

Lemma extractUserId_digits (text u : string) :
  extractUserId text = Some u -> digit_text u.
Proof.
  induction text as [|c text IH].
  - intros H. vm_compute in H. done.
  - cbn [extractUserId].
    destruct (mention_here (String c text)) as [v|] eqn:E; [|exact IH].
    intros [= <-]. by apply (mention_here_digits (String c text)).
Qed.

(** X9. [extractUserId] only ever returns a non-empty run of digits, and
    it reads the id back from a mention that starts the text, in either
    form, [<@id>] or [<@!id>], whatever follows. *)
Theorem extractUserId_mention (ds rest : string) :
  digit_text ds ->
  extractUserId ("<@" +:+ ds +:+ ">" +:+ rest) = Some ds /\
  extractUserId ("<@!" +:+ ds +:+ ">" +:+ rest) = Some ds /\
  (forall text u, extractUserId text = Some u -> digit_text u).
Proof.
  intros Hds. destruct (mention_here_plain ds rest Hds) as [H1 H2].
  split_and!.
  - change ("<@" +:+ ds +:+ ">" +:+ rest)
      with (String "<" (String "@" (ds +:+ ">" +:+ rest))) in *.
    cbn [extractUserId]. by rewrite H1.
  - change ("<@!" +:+ ds +:+ ">" +:+ rest)
      with (String "<" (String "@" (String "!" (ds +:+ ">" +:+ rest)))) in *.
    cbn [extractUserId]. by rewrite H2.
  - intros text u. apply extractUserId_digits.
Qed.

Lemma extractUserId_mention_witness :
  extractUserId ("<@" +:+ "1001" +:+ ">" +:+ " and more") = Some "1001".
Proof.
  apply (extractUserId_mention "1001" " and more"). split; [discriminate|].
  reflexivity.
Defined.

Lemma str_forallb_filter (keep : ascii -> bool) (s : string) :
  str_forallb keep (str_filter keep s) = true.
Proof.
  induction s as [|c s IH]; [done|]. simpl.
  destruct (keep c) eqn:E; [|done]. simpl. by rewrite E, IH.
Qed.

Lemma str_filter_all (keep : ascii -> bool) (s : string) :
  str_forallb keep s = true -> str_filter keep s = s.
Proof.
  induction s as [|c s IH]; [done|]. simpl.
  intros [Hc Hs]%andb_true_iff. by rewrite Hc, IH.
Qed.

Lemma str_forallb_trimStart (P : ascii -> bool) (s : string) :
  str_forallb P s = true -> str_forallb P (trimStart s) = true.
Proof.
  induction s as [|c s IH]; [done|]. simpl.
  intros [Hc Hs]%andb_true_iff. destruct (is_space c); [by apply IH|].
  simpl. by rewrite Hc, Hs.
Qed.

Lemma str_forallb_trimEnd (P : ascii -> bool) (s : string) :
  str_forallb P s = true -> str_forallb P (trimEnd s) = true.
Proof.
  induction s as [|c s IH]; [done|]. simpl.
  intros [Hc Hs]%andb_true_iff. specialize (IH Hs).
  destruct (trimEnd s) eqn:E.
  - destruct (is_space c); simpl; [done|by rewrite Hc].
  - simpl in *. by rewrite Hc, IH.
Qed.

(** A text that is empty or starts with a character that is no white
    space. *)
Lemma trimStart_twice (s : string) : trimStart (trimStart s) = trimStart s.
Proof.
  induction s as [|c s IH]; [done|]. simpl.
  destruct (is_space c) eqn:E; [done|]. simpl. by rewrite E.
Qed.

Lemma trimEnd_keeps_start (s : string) :
  trimStart s = s -> trimStart (trimEnd s) = trimEnd s.
Proof.
  destruct s as [|c s]; [done|]. simpl.
  destruct (is_space c) eqn:E.
  - intros H. exfalso.
    assert (Hlen : forall t, (String.length (trimStart t)
                              <= String.length t)%nat).
    { induction t as [|a t IHt]; [done|]. simpl.
      destruct (is_space a); simpl; lia. }
    specialize (Hlen s). rewrite H in Hlen. simpl in Hlen. lia.
  - intros _. destruct (trimEnd s); simpl; by rewrite E.
Qed.

Lemma substring_nat_head_start (n : nat) (s : string) :
  trimStart s = s ->
  trimStart (String.substring 0 n s) = String.substring 0 n s.
Proof.
  destruct s as [|c s]; [by destruct n|]. destruct n; [done|].
  simpl. destruct (is_space c) eqn:E; [|done].
  intros H. exfalso.
  assert (Hlen : forall t, (String.length (trimStart t)
                            <= String.length t)%nat).
  { induction t as [|a t IHt]; [done|]. simpl.
    destruct (is_space a); simpl; lia. }
  specialize (Hlen s). rewrite H in Hlen. simpl in Hlen. lia.
Qed.

Lemma substring_nat_head_forallb (P : ascii -> bool) (n : nat) (s : string) :
  str_forallb P s = true -> str_forallb P (String.substring 0 n s) = true.
Proof.
  revert n. induction s as [|c s IH]; intros n; [by destruct n|].
  destruct n; [done|]. simpl. intros [Hc Hs]%andb_true_iff.
  by rewrite Hc, IH.
Qed.

Lemma substring_nat_head_length (n : nat) (s : string) :
  (String.length (String.substring 0 n s) <= n)%nat.
Proof.
  revert n. induction s as [|c s IH]; intros n; [destruct n; simpl; lia|].
  destruct n; [simpl; lia|]. simpl. specialize (IH n). lia.
Qed.

Lemma substring_nat_head_all (n : nat) (s : string) :
  (String.length s <= n)%nat -> String.substring 0 n s = s.
Proof.
  revert n. induction s as [|c s IH]; intros n; [by destruct n|].
  destruct n; simpl; [lia|]. intros H. rewrite IH; [done|lia].
Qed.

(** [s.substring(0, n)] is the prefix of [n] characters, or all of [s]. *)
Lemma substring_head (s : string) (n : Z) :
  0 <= n ->
  substring s 0 n
  = String.substring 0 (Z.to_nat (Z.min (str_length s) n)) s.
Proof.
  intros Hn. unfold substring, clamp.
  pose proof (str_length_nonneg s).
  replace (Z.max 0 (Z.min (str_length s) 0)) with 0 by lia.
  replace (Z.max 0 (Z.min (str_length s) n)) with (Z.min (str_length s) n)
    by lia.
  replace (Z.min 0 (Z.min (str_length s) n)) with 0 by lia.
  replace (Z.max 0 (Z.min (str_length s) n) - 0)
    with (Z.min (str_length s) n) by lia.
  reflexivity.
Qed.

Lemma sanitize_clean_text (text : string) : clean_text (sanitize text).
Proof.
  unfold sanitize, clean_text. rewrite substring_head by lia.
  set (t := trim (str_filter (fun c => negb (disallowed c)) text)).
  split.
  - apply substring_nat_head_forallb. unfold t, trim.
    apply str_forallb_trimEnd, str_forallb_trimStart, str_forallb_filter.
  - unfold str_length.
    pose proof (substring_nat_head_length
                  (Z.to_nat (Z.min (Z.of_nat (String.length t)) 200)) t).
    lia.
Qed.

(** X10. Whatever the text, [sanitize] returns a label without any of the
    characters it removes, at most 200 characters long, and without white
    space in front. *)
Theorem sanitize_clean (text : string) :
  clean_text (sanitize text) /\ trimStart (sanitize text) = sanitize text.
Proof.
  split; [apply sanitize_clean_text|].
  unfold sanitize. rewrite substring_head by lia.
  apply substring_nat_head_start. unfold trim.
  apply trimEnd_keeps_start, trimStart_twice.
Qed.

(** X11. [sanitize] hands back unchanged a label that has none of the
    removed characters, no white space at either end and at most 200
    characters. *)
Theorem sanitize_identity (s : string) :
  clean_text s -> trim s = s -> sanitize s = s.
Proof.
  intros [Hclean Hlen] Htrim. unfold sanitize.
  rewrite str_filter_all, Htrim, substring_head by (done || lia).
  apply substring_nat_head_all. unfold str_length in *. lia.
Qed.

Lemma sanitize_identity_witness : sanitize "Duelist" = "Duelist".
Proof.
  apply sanitize_identity; [split; [reflexivity|vm_compute; discriminate]|].
  reflexivity.
Defined.

(* ================================================================== *)
(** * What the parsers return *)
(* ================================================================== *)

Lemma parseValue_nonneg (tok : string) (v : Z) :
  parseValue tok = Some v -> parseInt tok = Some v /\ 0 <= v.
Proof.
  unfold parseValue. destruct (parseInt tok) as [z|]; [|done].
  destruct (Z.ltb_spec z 0); [done|]. intros [= <-]. done.
Qed.

Section ParserOutput.

Variable legacy : string -> num.

Lemma parseDate_stamp (src stamp : string) :
  parseDate legacy src = Some stamp -> stamp_of legacy src stamp.
Proof.
  unfold parseDate, stamp_of. destruct (Date legacy src) as [t|]; [|done].
  intros [= <-]. by exists t.
Qed.

(** Splits on the scrutinee at the head of the parser's result. *)
Ltac case_head :=
  match goal with
  | |- match ?x with _ => _ end = _ -> _ => destruct x eqn:?
  end.

(** Turns what the parser's tests established into facts about the
    fields. *)
Ltac parser_facts :=
  repeat match goal with
  | H : negb _ = false |- _ => apply negb_false_iff in H
  | H : extractUserId _ = Some _ |- _ => apply extractUserId_digits in H
  | H : parseValue _ = Some _ |- _ => apply parseValue_nonneg in H as [_ ?]
  | H : parseDate _ _ = Some _ |- _ => apply parseDate_stamp in H
  | H : parseRankWithTier _ _ _ = Some _ |- _ =>
      apply parseRankWithTier_listed in H; [|lia]
  end.

Lemma parseTwoRank_output (tag gameName : string) (ranks : list string)
    (maxTier : Z) (m : string) (p : Player) :
  1 <= maxTier ->
  parseTwoRank legacy tag gameName ranks maxTier m = Some p ->
  startsWith (trim m) tag = true /\
  two_rank_update legacy gameName ranks maxTier p.
Proof.
  intros Hmax. unfold parseTwoRank.
  repeat (case_head; try done).
  intros [= <-]. parser_facts. split; [done|]. unfold two_rank_update.
  cbn [game userId role heroName currentRank currentValue peakRank peakValue
       lastUpdated].
  split_and!; eauto using sanitize_clean_text.
Qed.

Lemma parseDeadlock_output (m : string) (p : Player) :
  parseDeadlock legacy m = Some p ->
  startsWith (trim m) "LB_UPDATE_DL:" = true /\ single_rank_update legacy p.
Proof.
  unfold parseDeadlock.
  repeat (case_head; try done).
  intros [= <-]. parser_facts. split; [done|]. unfold single_rank_update.
  cbn [game userId role heroName currentRank currentValue peakRank peakValue
       lastUpdated].
  split_and!; eauto using sanitize_clean_text.
Qed.


End ParserOutput.


(* ================================================================== *)
(** * Further properties of [sortPlayers] *)
(* ================================================================== *)

Section SortByMore.

Context {A : Type} (cmp : A -> A -> num) (R : A -> A -> Prop) (D : A -> Prop).

Hypothesis cmp_R :
  forall a b, D a -> D b -> (goes_after (cmp a b) = false <-> R a b).

(** Sorting a list that is in order already gives the list back. *)
Lemma sort_by_sorted_id (l : list A) :
  Forall D l -> StronglySorted R l -> sort_by cmp l = l.
Proof.
  induction l as [|x l IH]; intros HD Hs; [done|].
  apply Forall_cons in HD as [Hx Hl].
  apply StronglySorted_inv in Hs as [Hs Hxl].
  cbn [sort_by foldr]. fold (sort_by cmp l). rewrite IH by done.
  destruct l as [|y l]; [done|].
  apply Forall_cons in Hxl as [Hxy _]. apply Forall_cons in Hl as [Hy _].
  cbn [insert_by]. apply cmp_R in Hxy; [|done..]. by rewrite Hxy.
Qed.

End SortByMore.

Lemma sort_by_never_after {A} (cmp : A -> A -> num) (l : list A) :
  (forall a b, goes_after (cmp a b) = false) -> sort_by cmp l = l.
Proof.
  intros Hcmp.
  apply (sort_by_sorted_id cmp (fun _ _ => True) (fun _ => True)).
  - intros a b _ _. split; [done|]. intros _. apply Hcmp.
  - by apply Forall_forall.
  - induction l; constructor; [done|]. by apply Forall_forall.
Qed.

Section SortMore.

Variable legacy : string -> num.

(** X13. [sortPlayers] returns the players it was given, each as often as
    it came in, whatever the game type and whatever the records hold. *)
Theorem sortPlayers_permutation (ps : list Player) (g : string) :
  Permutation (sortPlayers legacy ps g) ps /\
  length (sortPlayers legacy ps g) = length ps.
Proof.
  assert (H : Permutation (sortPlayers legacy ps g) ps).
  { unfold sortPlayers. destruct ps; [done|]. apply sort_by_perm. }
  split; [done|]. by apply Permutation_length.
Qed.

(** X14. For a game type that is none of the three, the comparator ties
    every pair and [sortPlayers] returns the players in the order they
    came in. *)
Theorem sortPlayers_unknown_game (ps : list Player) (g : string) :
  ~ known_game g -> sortPlayers legacy ps g = ps.
Proof.
  intros Hg. unfold sortPlayers. destruct ps as [|p ps]; [done|].
  apply sort_by_never_after. intros a b. unfold compare_players.
  assert (Hne : forall x, g <> x -> str_eqb g x = false).
  { intros x Hx. unfold str_eqb. by apply bool_decide_eq_false_2. }
  unfold known_game in Hg.
  rewrite !Hne by (intros ->; tauto). done.
Qed.

Lemma sort_keys_single_inv (p : Player) (k v t : Z) :
  sort_keys_single legacy p = Some (k, v, t) ->
  getRankSortValue (currentRank p) DEADLOCK_RANKS 6 = Some k /\
  currentValue p = Some v /\ Date legacy (lastUpdated p) = Some t.
Proof.
  unfold sort_keys_single. intros H.
  destruct (getRankSortValue (currentRank p) _ _); [|done].
  destruct (currentValue p); [|done].
  destruct (Date legacy _); [|done].
  simpl in H. by simplify_eq.
Qed.

Lemma compare_players_keys_single (a b : Player) (ka kb : Z * Z * Z) :
  sort_keys_single legacy a = Some ka -> sort_keys_single legacy b = Some kb ->
  goes_after (compare_players legacy "DEADLOCK" a b) = false
  <-> keys_in_order_single ka kb.
Proof.
  intros Ha Hb. destruct ka as [[k v] t], kb as [[k' v'] t'].
  apply sort_keys_single_inv in Ha as (Ha1 & Ha2 & Ha3).
  apply sort_keys_single_inv in Hb as (Hb1 & Hb2 & Hb3).
  unfold compare_players.
  change (str_eqb "DEADLOCK" "MARVEL_RIVALS" || str_eqb "DEADLOCK" "OVERWATCH")
    with false.
  change (str_eqb "DEADLOCK" "DEADLOCK") with true. cbv iota.
  rewrite Ha1, Ha2, Ha3, Hb1, Hb2, Hb3.
  unfold keys_in_order_single. simpl.
  destruct (Z.eqb_spec k k'); simpl;
    [|destruct (Z.ltb_spec 0 (k' - k)); split; (lia || done)].
  destruct (Z.eqb_spec v v'); simpl;
    [|destruct (Z.ltb_spec 0 (v - v')); split; (lia || done)].
  destruct (Z.ltb_spec 0 (t' - t)); split; (lia || done).
Qed.

Lemma precedes_single_facts :
  (forall a b, is_Some (sort_keys_single legacy a) ->
               is_Some (sort_keys_single legacy b) ->
     (goes_after (compare_players legacy "DEADLOCK" a b) = false
      <-> precedes_single legacy a b)) /\
  (forall a b, is_Some (sort_keys_single legacy a) ->
               is_Some (sort_keys_single legacy b) ->
     precedes_single legacy a b \/ precedes_single legacy b a) /\
  (forall a b c, precedes_single legacy a b -> precedes_single legacy b c ->
     precedes_single legacy a c).
Proof.
  split_and!.
  - intros a b [ka Ha] [kb Hb].
    rewrite (compare_players_keys_single a b ka kb Ha Hb).
    unfold precedes_single. split; [by eauto|].
    intros (ka' & kb' & Ha' & Hb' & Hord). congruence.
  - intros a b [ka Ha] [kb Hb].
    assert (keys_in_order_single ka kb \/ keys_in_order_single kb ka).
    { destruct ka as [[k v] t], kb as [[k' v'] t'].
      unfold keys_in_order_single. lia. }
    unfold precedes_single. destruct H; [left|right]; eauto.
  - intros a b c (ka & kb & Ha & Hb & Hab) (kb' & kc & Hb' & Hc & Hbc).
    assert (kb' = kb) as -> by congruence.
    exists ka, kc. split_and!; [done..|].
    destruct ka as [[k v] t], kb as [[k' v'] t'], kc as [[k'' v''] t''].
    unfold keys_in_order_single in *. lia.
Qed.

Lemma precedes_facts (g : string) :
  two_rank_game g ->
  (forall a b, is_Some (sort_keys legacy g a) ->
               is_Some (sort_keys legacy g b) ->
     (goes_after (compare_players legacy g a b) = false
      <-> precedes legacy g a b)) /\
  (forall a b, is_Some (sort_keys legacy g a) ->
               is_Some (sort_keys legacy g b) ->
     precedes legacy g a b \/ precedes legacy g b a) /\
  (forall a b c, precedes legacy g a b -> precedes legacy g b c ->
     precedes legacy g a c).
Proof.
  intros Hg. split_and!.
  - intros a b [ka Ha] [kb Hb].
    rewrite (compare_players_keys legacy g a b ka kb Hg Ha Hb).
    unfold precedes. split; [by eauto|].
    intros (ka' & kb' & Ha' & Hb' & Hord). congruence.
  - intros a b [ka Ha] [kb Hb].
    destruct (keys_in_order_total ka kb); [left|right]; unfold precedes; eauto.
  - intros a b c (ka & kb & Ha & Hb & Hab) (kb' & kc & Hb' & Hc & Hbc).
    assert (kb' = kb) as -> by congruence.
    exists ka, kc. split_and!; [done..|].
    by apply (keys_in_order_trans ka kb kc).
Qed.

(** X15. For the single-rank game and players whose three keys are
    numbers, [sortPlayers] returns the same players arranged so that each
    one precedes every later one: rank key descending, then value
    ascending, then last update descending. *)
Theorem sortPlayers_single_rank_order (ps : list Player) :
  Forall (fun p => is_Some (sort_keys_single legacy p)) ps ->
  Permutation (sortPlayers legacy ps "DEADLOCK") ps /\
  StronglySorted (precedes_single legacy) (sortPlayers legacy ps "DEADLOCK").
Proof.
  intros Hkeys. destruct precedes_single_facts as (Hcmp & Htot & Htrans).
  unfold sortPlayers. destruct ps as [|p ps]; [split; [done|constructor]|].
  split; [apply sort_by_perm|].
  apply (sort_by_sorted _ _ (fun p => is_Some (sort_keys_single legacy p)));
    [done|done| |done].
  intros a b c _ _ _. apply Htrans.
Qed.

(** X16. Sorting twice is sorting once: on players whose keys are numbers,
    [sortPlayers] leaves its own result as it is, for the two-rank games
    and for the single-rank game. *)
Theorem sortPlayers_idempotent (ps : list Player) (g : string) :
  (two_rank_game g /\ Forall (fun p => is_Some (sort_keys legacy g p)) ps) \/
  (g = "DEADLOCK" /\
   Forall (fun p => is_Some (sort_keys_single legacy p)) ps) ->
  sortPlayers legacy (sortPlayers legacy ps g) g = sortPlayers legacy ps g.
Proof.
  intros Hcase. unfold sortPlayers at 2 3. destruct ps as [|p ps]; [done|].
  set (out := sort_by (compare_players legacy g) (p :: ps)).
  assert (Hperm : Permutation out (p :: ps)) by apply sort_by_perm.
  unfold sortPlayers. destruct out as [|q out'] eqn:E; [done|].
  rewrite <- E in *. clear E q out'.
  destruct Hcase as [[Hg Hkeys]|[-> Hkeys]].
  - destruct (precedes_facts g Hg) as (Hcmp & Htot & Htrans).
    apply (sort_by_sorted_id _ (precedes legacy g)
             (fun p => is_Some (sort_keys legacy g p))); [done| |].
    + by rewrite Hperm.
    + apply (sort_by_sorted _ _ (fun p => is_Some (sort_keys legacy g p)));
        [done|done| |done].
      intros a b c _ _ _. apply Htrans.
  - destruct precedes_single_facts as (Hcmp & Htot & Htrans).
    apply (sort_by_sorted_id _ (precedes_single legacy)
             (fun p => is_Some (sort_keys_single legacy p))); [done| |].
    + by rewrite Hperm.
    + apply (sort_by_sorted _ _
               (fun p => is_Some (sort_keys_single legacy p)));
        [done|done| |done].
      intros a b c _ _ _. apply Htrans.
Qed.

End SortMore.

Lemma sortPlayers_unknown_game_witness :
  sortPlayers iso_only [bob; carol; alice_old] "CHESS" = [bob; carol; alice_old].
Proof.
  apply sortPlayers_unknown_game. intros [H|[H|H]]; discriminate H.
Defined.

Lemma sortPlayers_single_rank_order_witness :
  Permutation (sortPlayers iso_only [haze; infernus; abrams] "DEADLOCK")
              [haze; infernus; abrams] /\
  StronglySorted (precedes_single iso_only)
                 (sortPlayers iso_only [haze; infernus; abrams] "DEADLOCK").
Proof.
  apply (sortPlayers_single_rank_order iso_only [haze; infernus; abrams]).
  repeat constructor; vm_compute; eexists; reflexivity.
Defined.

Lemma sortPlayers_idempotent_witness :
  sortPlayers iso_only
    (sortPlayers iso_only [bob; carol; alice_old] "MARVEL_RIVALS")
    "MARVEL_RIVALS"
  = sortPlayers iso_only [bob; carol; alice_old] "MARVEL_RIVALS".
Proof.
  apply sortPlayers_idempotent. left. split; [by left|].
  repeat constructor; vm_compute; eexists; reflexivity.
Defined.

(* ================================================================== *)
(** * Further properties of the state codec *)
(* ================================================================== *)

Lemma indexOf_range (s needle : string) :
  indexOf s needle = -1 \/ 0 <= indexOf s needle.
Proof.
  induction s as [|c s IH]; cbn [indexOf].
  - destruct (String.prefix needle ""); [right|left]; done.
  - destruct (String.prefix needle (String c s)); [right; done|].
    destruct (Z.ltb_spec (indexOf s needle) 0); [by left|right; lia].
Qed.

(** A text without the first character of the needle in front of [m]
    shifts the first occurrence and creates none. *)
Lemma indexOf_app_lacks (c : ascii) (n' pre m : string) :
  lacks c pre = true ->
  indexOf (pre +:+ m) (String c n')
  = if indexOf m (String c n') <? 0 then -1
    else str_length pre + indexOf m (String c n').
Proof.
  intros Hpre. induction pre as [|a pre IH].
  - rewrite append_nil_l. change (str_length "") with 0.
    destruct (indexOf_range m (String c n')) as [-> | H]; [done|].
    destruct (Z.ltb_spec (indexOf m (String c n')) 0); lia.
  - unfold lacks in Hpre. cbn [str_forallb] in Hpre.
    apply andb_true_iff in Hpre as [Ha Hpre]. specialize (IH Hpre).
    rewrite append_cons. cbn [indexOf].
    rewrite prefix_head_ne by (intros <-; by rewrite Ascii.eqb_refl in Ha).
    rewrite IH.
    destruct (Z.ltb_spec (indexOf m (String c n')) 0); [done|].
    pose proof (str_length_nonneg pre).
    destruct (Z.ltb_spec (str_length pre + indexOf m (String c n')) 0); [lia|].
    unfold str_length. cbn [String.length]. lia.
Qed.

Lemma substring_nat_skip_gen (a r : string) (k n : nat) :
  String.substring (String.length a + k) n (a +:+ r) = String.substring k n r.
Proof. induction a as [|x a IH]; [done|]. rewrite append_cons. simpl. done. Qed.

Lemma substring_shift (pre m : string) (a b : Z) :
  0 <= a -> 0 <= b ->
  substring (pre +:+ m) (str_length pre + a) (str_length pre + b)
  = substring m a b.
Proof.
  intros Ha Hb. unfold substring, clamp. rewrite str_length_append.
  pose proof (str_length_nonneg pre). pose proof (str_length_nonneg m).
  set (lp := str_length pre) in *. set (lm := str_length m) in *.
  replace (Z.max 0 (Z.min (lp + lm) (lp + a)))
    with (lp + Z.max 0 (Z.min lm a)) by lia.
  replace (Z.max 0 (Z.min (lp + lm) (lp + b)))
    with (lp + Z.max 0 (Z.min lm b)) by lia.
  set (a' := Z.max 0 (Z.min lm a)). set (b' := Z.max 0 (Z.min lm b)).
  replace (Z.max (lp + a') (lp + b') - Z.min (lp + a') (lp + b'))
    with (Z.max a' b' - Z.min a' b') by lia.
  replace (Z.to_nat (Z.min (lp + a') (lp + b')))
    with (String.length pre + Z.to_nat (Z.min a' b'))%nat
    by (unfold lp, str_length; lia).
  apply substring_nat_skip_gen.
Qed.

(** X17. [decodeState] ignores whatever stands in front of the markers: a
    text without an opening bracket put before a message does not change what is decoded,
    and such a text alone decodes to the empty state. *)
Theorem decodeState_ignores_prefix (pre m : string) :
  lacks "[" pre = true ->
  decodeState (pre +:+ m) = decodeState m /\ decodeState pre = empty_state.
Proof.
  intros Hpre.
  assert (Hidx : forall n' x, indexOf (pre +:+ x) (String "[" n')
                 = if indexOf x (String "[" n') <? 0 then -1
                   else str_length pre + indexOf x (String "[" n'))
    by (intros; by apply indexOf_app_lacks).
  assert (Halone : decodeState pre = empty_state).
  { unfold decodeState. destruct (str_truthy pre); [|done]. cbn [negb].
    cbv zeta. rewrite <- (append_nil_r pre).
    change DATA_START_MARKER with (String "[" "DATA:v1]").
    rewrite Hidx. reflexivity. }
  split; [|done].
  destruct m as [|c m]; [by rewrite append_nil_r|].
  unfold decodeState.
  assert (Ht : str_truthy (pre +:+ String c m) = true)
    by (by destruct pre).
  rewrite Ht. cbn [str_truthy negb]. cbv zeta.
  change DATA_START_MARKER with (String "[" "DATA:v1]").
  change DATA_END_MARKER with (String "[" "/DATA]").
  rewrite !Hidx.
  set (i_s := indexOf (String c m) (String "[" "DATA:v1]")).
  set (i_e := indexOf (String c m) (String "[" "/DATA]")).
  destruct (indexOf_range (String c m) (String "[" "DATA:v1]")) as [Hs|Hs];
    fold i_s in Hs.
  { rewrite Hs. reflexivity. }
  destruct (indexOf_range (String c m) (String "[" "/DATA]")) as [He|He];
    fold i_e in He.
  { rewrite He. cbn [Z.ltb Z.compare Z.eqb orb].
    by rewrite !orb_true_r. }
  pose proof (str_length_nonneg pre).
  destruct (Z.ltb_spec i_s 0); [lia|]. destruct (Z.ltb_spec i_e 0); [lia|].
  destruct (Z.eqb_spec (str_length pre + i_s) (-1)); [lia|].
  destruct (Z.eqb_spec (str_length pre + i_e) (-1)); [lia|].
  destruct (Z.eqb_spec i_s (-1)); [lia|]. destruct (Z.eqb_spec i_e (-1)); [lia|].
  cbn [orb].
  replace (str_length pre + i_s + str_length (String "[" "DATA:v1]"))
    with (str_length pre + (i_s + str_length (String "[" "DATA:v1]"))) by lia.
  rewrite substring_shift; [done| |done].
  pose proof (str_length_nonneg (String "[" "DATA:v1]")). lia.
Qed.

Lemma decodeState_ignores_prefix_witness :
  decodeState ("LEADERBOARD" +:+ NL +:+ NL +:+ sample_blob)
  = decodeState sample_blob.
Proof.
  apply (decodeState_ignores_prefix ("LEADERBOARD" +:+ NL +:+ NL) sample_blob).
  reflexivity.
Defined.

Lemma prefix_length (n s : string) :
  String.prefix n s = true -> (String.length n <= String.length s)%nat.
Proof.
  revert s. induction n as [|a n IH]; intros s H; simpl; [lia|].
  destruct s as [|b s]; simpl in H; [done|].
  destruct (ascii_dec a b); [|done]. apply IH in H. simpl. lia.
Qed.

Lemma prefix_app_true (n s post : string) :
  String.prefix n s = true -> String.prefix n (s +:+ post) = true.
Proof.
  revert s. induction n as [|a n IH]; intros s H; [apply prefix_nil|].
  destruct s as [|b s]; simpl in H; [done|].
  rewrite append_cons. simpl. destruct (ascii_dec a b); [|done]. by apply IH.
Qed.

Lemma prefix_app_false (n s post : string) :
  String.prefix n s = false -> (String.length n <= String.length s)%nat ->
  String.prefix n (s +:+ post) = false.
Proof.
  revert s. induction n as [|a n IH]; intros s H Hlen.
  - by rewrite prefix_nil in H.
  - destruct s as [|b s]; simpl in Hlen; [lia|].
    rewrite append_cons. simpl in *. destruct (ascii_dec a b); [|done].
    apply IH; [done|lia].
Qed.

(** An occurrence lies inside the text. *)
Lemma indexOf_found_length (s n : string) :
  0 <= indexOf s n -> indexOf s n + str_length n <= str_length s.
Proof.
  induction s as [|c s IH]; cbn [indexOf].
  - destruct (String.prefix n "") eqn:Hp; [|lia].
    intros _. apply prefix_length in Hp. unfold str_length. lia.
  - destruct (String.prefix n (String c s)) eqn:Hp.
    + intros _. apply prefix_length in Hp. unfold str_length. lia.
    + destruct (Z.ltb_spec (indexOf s n) 0); [lia|]. intros _.
      specialize (IH ltac:(lia)). unfold str_length in *.
      cbn [String.length]. lia.
Qed.

(** Text added at the end leaves the first occurrence where it is. *)
Lemma indexOf_app_found (s post n : string) :
  0 <= indexOf s n -> indexOf (s +:+ post) n = indexOf s n.
Proof.
  induction s as [|c s IH]; cbn [indexOf].
  - destruct (String.prefix n "") eqn:Hp; [|lia]. intros _.
    rewrite append_nil_l. destruct n; [|done].
    destruct post; cbn [indexOf]; by rewrite ?prefix_nil.
  - destruct (String.prefix n (String c s)) eqn:Hp.
    + intros _. rewrite append_cons. cbn [indexOf].
      rewrite <- append_cons. by rewrite prefix_app_true.
    + destruct (Z.ltb_spec (indexOf s n) 0) as [|Hi]; [lia|]. intros _.
      pose proof (indexOf_found_length s n Hi) as Hlen.
      rewrite append_cons. cbn [indexOf]. rewrite <- append_cons.
      rewrite prefix_app_false; [|done|].
      * rewrite (IH Hi). destruct (Z.ltb_spec (indexOf s n) 0); [lia|done].
      * unfold str_length in Hlen. cbn [String.length]. lia.
Qed.

Lemma substring_nat_app (s post : string) (lo n : nat) :
  (lo + n <= String.length s)%nat ->
  String.substring lo n (s +:+ post) = String.substring lo n s.
Proof.
  revert lo n. induction s as [|c s IH]; intros lo n H; simpl in H.
  - assert (lo = 0%nat) as -> by lia. assert (n = 0%nat) as -> by lia.
    rewrite append_nil_l. by destruct post.
  - rewrite append_cons. destruct lo as [|lo]; simpl.
    + destruct n as [|n]; [done|]. f_equal. apply (IH 0%nat). simpl. lia.
    + apply IH. lia.
Qed.

Lemma substring_app_within (s post : string) (a b : Z) :
  0 <= a <= str_length s -> 0 <= b <= str_length s ->
  substring (s +:+ post) a b = substring s a b.
Proof.
  intros Ha Hb. unfold substring, clamp. rewrite str_length_append.
  pose proof (str_length_nonneg post).
  replace (Z.max 0 (Z.min (str_length s + str_length post) a)) with a by lia.
  replace (Z.max 0 (Z.min (str_length s + str_length post) b)) with b by lia.
  replace (Z.max 0 (Z.min (str_length s) a)) with a by lia.
  replace (Z.max 0 (Z.min (str_length s) b)) with b by lia.
  apply substring_nat_app. unfold str_length in *. lia.
Qed.

(** X18. [decodeState] ignores whatever follows the end marker: once both
    markers occur in a message, text added behind it does not change what
    is decoded. *)
Theorem decodeState_ignores_suffix (m post : string) :
  0 <= indexOf m DATA_START_MARKER -> 0 <= indexOf m DATA_END_MARKER ->
  decodeState (m +:+ post) = decodeState m.
Proof.
  intros Hs He. unfold decodeState.
  assert (Hm : str_truthy m = true).
  { destruct m; [|done]. vm_compute in Hs. done. }
  assert (Ht : str_truthy (m +:+ post) = true)
    by (destruct m; [done|by rewrite append_cons]).
  rewrite Hm, Ht. cbn [negb]. cbv zeta.
  rewrite !indexOf_app_found by done.
  destruct ((indexOf m DATA_START_MARKER =? -1)
            || (indexOf m DATA_END_MARKER =? -1)); [done|].
  pose proof (indexOf_found_length m _ Hs).
  pose proof (indexOf_found_length m _ He).
  pose proof (str_length_nonneg DATA_START_MARKER).
  pose proof (str_length_nonneg DATA_END_MARKER).
  rewrite substring_app_within by lia. done.
Qed.

Lemma decodeState_ignores_suffix_witness :
  decodeState (sample_blob +:+ NL +:+ "Updated just now")
  = decodeState sample_blob.
Proof.
  apply (decodeState_ignores_suffix sample_blob (NL +:+ "Updated just now"));
    vm_compute; discriminate.
Defined.

Lemma encodePlayer_raises (g : string) (p : Player) :
  encodePlayer g p = None <-> known_game g /\ lacks_rank g p.
Proof.
  unfold encodePlayer, known_game, lacks_rank.
  destruct (str_eqb g "MARVEL_RIVALS") eqn:E1;
    [apply str_eqb_true in E1 as ->|];
    [|destruct (str_eqb g "OVERWATCH") eqn:E2;
      [apply str_eqb_true in E2 as ->|]];
    [| |destruct (str_eqb g "DEADLOCK") eqn:E3;
        [apply str_eqb_true in E3 as ->|]]; cbn [orb].
  - destruct (currentRank p), (peakRank p); simpl; split;
      try done; try (intros _; split; [by left|]);
      try (by left); try (right; by split);
      intros [_ [?|[_ ?]]]; done.
  - destruct (currentRank p), (peakRank p); simpl; split;
      try done; try (intros _; split; [right; by left|]);
      try (by left); try (right; by split);
      intros [_ [?|[_ ?]]]; done.
  - destruct (currentRank p); simpl; split;
      try done; try (intros _; split; [right; by right|by left]).
    intros [_ [?|[? _]]]; done.
  - split; [done|]. intros [[-> | [-> | ->]] _]; done.
Qed.

(** X19. [encodeState] raises exactly when the game is one of the three and
    some record lacks a rank the line needs: the current rank, or the peak
    rank for the two-rank games. For any other game type it never raises. *)
Theorem encodeState_raises_iff (c : option string) (S : list Player)
    (g : string) :
  encodeState c S g = None <-> known_game g /\ Exists (lacks_rank g) S.
Proof.
  unfold encodeState, encodePlayerData.
  destruct (mapM (encodePlayer g) S) as [lines|] eqn:E; simpl.
  - split; [done|]. intros [Hg Hex].
    assert (mapM (encodePlayer g) S = None); [|congruence].
    apply mapM_None. eapply Exists_impl; [exact Hex|].
    intros p Hp. simpl. by apply encodePlayer_raises.
  - split; [intros _|done]. apply mapM_None in E.
    apply Exists_exists in E as (p & Hin & Hp).
    apply encodePlayer_raises in Hp as [Hg Hp].
    split; [done|]. apply Exists_exists. eauto.
Qed.

Lemma decodeLine_unknown_game (g : option string) (line : string) :
  g <> Some "MARVEL_RIVALS" -> g <> Some "OVERWATCH" ->
  g <> Some "DEADLOCK" -> decodeLine g line = DUndefined.
Proof.
  intros H1 H2 H3. unfold decodeLine.
  by rewrite !bool_decide_eq_false_2.
Qed.

(** X20. With a game type that is none of the three (or none at all),
    [decodePlayerData] returns one [undefined] entry for every non-blank
    line: the callback falls through both branches and the filter only
    removes [null]. *)
Theorem decodePlayerData_unknown_game (d : string) (g : option string) :
  g <> Some "MARVEL_RIVALS" -> g <> Some "OVERWATCH" ->
  g <> Some "DEADLOCK" ->
  decodePlayerData d g = map (fun _ => None) (player_lines d).
Proof.
  intros H1 H2 H3. unfold decodePlayerData, player_lines.
  destruct (str_truthy d) eqn:Hd; cbn [negb orb].
  - destruct (str_truthy (trim d)) eqn:Ht; cbn [negb].
    + induction (filter _ _) as [|l ls IH]; [done|]. csimpl.
      rewrite decodeLine_unknown_game by done. csimpl. by rewrite IH.
    + destruct (trim d); [done|discriminate].
  - destruct d; [done|discriminate].
Qed.

Lemma decodePlayerData_unknown_game_witness :
  decodePlayerData sample_lines None = [None; None; None].
Proof.
  apply (decodePlayerData_unknown_game sample_lines None); discriminate.
Defined.

Section UpsertDates.

Variable legacy : string -> num.

(** X21. The timestamp test of [upsertPlayer] only keeps the stored record
    when both dates are valid: if the stored or the incoming timestamp is
    not a date, the comparison with [NaN] is false and the incoming record
    takes the place of the stored one. *)
Theorem upsertPlayer_invalid_date (pre post : list Player)
    (old new : Player) :
  Forall (fun p => userId p <> userId new) pre ->
  userId old = userId new ->
  Date legacy (lastUpdated old) = None \/
  Date legacy (lastUpdated new) = None ->
  upsertPlayer legacy (pre ++ old :: post) new = (pre ++ new :: post, true).
Proof.
  intros Hpre Hold Hnan.
  assert (Hidx : findIndex (fun p => str_eqb (userId p) (userId new))
                           (pre ++ old :: post) = Z.of_nat (length pre)).
  { apply findIndex_first; [by apply other_users_ne|by apply str_eqb_true]. }
  unfold upsertPlayer. rewrite Hidx, Nat2Z.id.
  destruct (Z.leb_spec 0 (Z.of_nat (length pre))); [|lia].
  rewrite list_lookup_middle by done.
  assert (Hlt : num_lt (Date legacy (lastUpdated new))
                       (Date legacy (lastUpdated old)) = false).
  { destruct Hnan as [-> | ->]; [by destruct (Date _ _)|done]. }
  rewrite Hlt. f_equal. rewrite insert_app_r_alt by done.
  by rewrite Nat.sub_diag.
Qed.

End UpsertDates.

Lemma upsertPlayer_invalid_date_witness :
  upsertPlayer iso_only [bob; undated_alice; carol] alice_old
  = ([bob; alice_old; carol], true).
Proof.
  apply (upsertPlayer_invalid_date iso_only [bob] [carol]
           undated_alice alice_old).
  - repeat constructor; vm_compute; discriminate.
  - reflexivity.
  - left. reflexivity.
Defined.

(* ================================================================== *)
(** * Dates: [toISOString] and [new Date] *)
(* ================================================================== *)

Lemma all_from_spec (fuel : nat) (i : Z) (P : Z -> bool) :
  all_from fuel i P = true ->
  forall k, i <= k < i + Z.of_nat fuel -> P k = true.
Proof.
  revert i. induction fuel as [|f IH]; intros i H k Hk; [lia|].
  cbn [all_from] in H. apply andb_true_iff in H as [Hi H].
  destruct (Z.eq_dec k i) as [->|]; [done|].
  apply (IH (i + 1)); [done|lia].
Qed.

Lemma era_dates_ok : all_from (Z.to_nat 146097) 0 era_date_ok = true.
Proof. vm_compute. reflexivity. Qed.

Lemma pads_ok :
  all_from (Z.to_nat 100) 0 (pad_ok 2) = true /\
  all_from (Z.to_nat 1000) 0 (pad_ok 3) = true /\
  all_from (Z.to_nat 10000) 0 (pad_ok 4) = true.
Proof. vm_compute. done. Qed.

Lemma fixed_digits_app (w : nat) (acc v : Z) (a rest : string) :
  fixed_digits w acc a = Some (v, "") ->
  fixed_digits w acc (a +:+ rest) = Some (v, rest).
Proof.
  revert acc a. induction w as [|w IH]; intros acc a H; cbn [fixed_digits] in *.
  - by injection H as -> ->.
  - destruct a as [|c r]; [done|]. rewrite append_cons.
    destruct (Ascii.is_nat c); [|done]. by apply IH.
Qed.

Lemma pad_ok_spec (w : nat) (n : Z) (rest : string) :
  pad_ok w n = true ->
  fixed_digits w 0 (pad w n +:+ rest) = Some (n, rest) /\
  String.length (pad w n) = w.
Proof.
  unfold pad_ok. destruct (fixed_digits w 0 (pad w n)) as [[v [|]]|] eqn:E;
    [|done..].
  intros H. apply andb_true_iff in H as [Hv Hl].
  apply Z.eqb_eq in Hv as ->. apply Nat.eqb_eq in Hl.
  split; [by apply fixed_digits_app|done].
Qed.

Lemma fixed_digits_pad2 (n : Z) (rest : string) :
  0 <= n < 100 ->
  fixed_digits 2 0 (pad 2 n +:+ rest) = Some (n, rest) /\
  String.length (pad 2 n) = 2%nat.
Proof.
  intros H. apply pad_ok_spec.
  apply (all_from_spec (Z.to_nat 100) 0); [apply pads_ok|lia].
Qed.

Lemma fixed_digits_pad3 (n : Z) (rest : string) :
  0 <= n < 1000 ->
  fixed_digits 3 0 (pad 3 n +:+ rest) = Some (n, rest) /\
  String.length (pad 3 n) = 3%nat.
Proof.
  intros H. apply pad_ok_spec.
  apply (all_from_spec (Z.to_nat 1000) 0); [apply pads_ok|lia].
Qed.

Lemma fixed_digits_pad4 (n : Z) (rest : string) :
  0 <= n < 10000 ->
  fixed_digits 4 0 (pad 4 n +:+ rest) = Some (n, rest) /\
  String.length (pad 4 n) = 4%nat.
Proof.
  intros H. apply pad_ok_spec.
  apply (all_from_spec (Z.to_nat 10000) 0); [apply pads_ok|lia].
Qed.

Lemma expect_cons (c : ascii) (r : string) : expect c (String c r) = Some r.
Proof. unfold expect. by rewrite Ascii.eqb_refl. Qed.

(** The full form written field by field is read back field by field. *)
Lemma parse_iso_fields (y m d hh mi ss ms : Z) :
  0 <= y < 10000 -> 1 <= m <= 12 -> 1 <= d <= days_in_month y m ->
  0 <= hh <= 23 -> 0 <= mi <= 59 -> 0 <= ss <= 59 -> 0 <= ms < 1000 ->
  parse_iso (pad 4 y +:+ "-" +:+ pad 2 m +:+ "-" +:+ pad 2 d +:+ "T" +:+
             pad 2 hh +:+ ":" +:+ pad 2 mi +:+ ":" +:+ pad 2 ss +:+ "." +:+
             pad 3 ms +:+ "Z")
  = Some (days_from_civil y m d * ms_per_day
          + hh * 3600000 + mi * 60000 + ss * 1000 + ms).
Proof.
  intros Hy Hm Hd Hhh Hmi Hss Hms.
  assert (Hdm : days_in_month y m <= 31).
  { unfold days_in_month. repeat case_match; lia. }
  unfold parse_iso.
  rewrite (proj1 (fixed_digits_pad4 y _ Hy)). cbn [mbind option_bind].
  change ("-" +:+ ?x) with (String "-" x). rewrite expect_cons.
  cbn [mbind option_bind].
  rewrite (proj1 (fixed_digits_pad2 m _ ltac:(lia))). cbn [mbind option_bind].
  change ("-" +:+ ?x) with (String "-" x). rewrite expect_cons.
  cbn [mbind option_bind].
  rewrite (proj1 (fixed_digits_pad2 d _ ltac:(lia))). cbn [mbind option_bind].
  destruct (Z.leb_spec 1 m); [|lia]. destruct (Z.leb_spec m 12); [|lia].
  destruct (Z.leb_spec 1 d); [|lia].
  destruct (Z.leb_spec d (days_in_month y m)); [|lia].
  cbn [andb negb].
  change ("T" +:+ ?x) with (String "T" x). cbv iota beta.
  rewrite expect_cons. cbn [mbind option_bind].
  rewrite (proj1 (fixed_digits_pad2 hh _ ltac:(lia))). cbn [mbind option_bind].
  change (":" +:+ ?x) with (String ":" x). rewrite expect_cons.
  cbn [mbind option_bind].
  rewrite (proj1 (fixed_digits_pad2 mi _ ltac:(lia))). cbn [mbind option_bind].
  change (":" +:+ ?x) with (String ":" x). rewrite expect_cons.
  cbn [mbind option_bind].
  rewrite (proj1 (fixed_digits_pad2 ss _ ltac:(lia))). cbn [mbind option_bind].
  change ("." +:+ ?x) with (String "." x). rewrite expect_cons.
  cbn [mbind option_bind].
  rewrite (proj1 (fixed_digits_pad3 ms _ Hms)). cbn [mbind option_bind].
  rewrite expect_cons. cbn [mbind option_bind].
  destruct (Z.leb_spec hh 23); [|lia]. destruct (Z.leb_spec mi 59); [|lia].
  destruct (Z.leb_spec ss 59); [|lia]. done.
Qed.

Lemma civil_from_days_era (z : Z) :
  civil_from_days z
  = let era := (z + 719468) / 146097 in
    let '(yoe, m, d) := era_date (z + 719468 - era * 146097) in
    (if m <=? 2 then yoe + era * 400 + 1 else yoe + era * 400, m, d).
Proof. reflexivity. Qed.

Lemma is_leap_era (a e : Z) : is_leap (a + e * 400) = is_leap a.
Proof.
  unfold is_leap.
  replace ((a + e * 400) mod 4) with (a mod 4)
    by (replace (e * 400) with (e * 100 * 4) by lia;
        by rewrite Z_mod_plus_full).
  replace ((a + e * 400) mod 100) with (a mod 100)
    by (replace (e * 400) with (e * 4 * 100) by lia;
        by rewrite Z_mod_plus_full).
  by rewrite Z_mod_plus_full.
Qed.

(** [civil_from_days] returns a legal date, and [days_from_civil] leads
    back from it; the days of the years 0 to 9999 get those years. *)
Lemma civil_from_days_inverse (z : Z) :
  let '(y, m, d) := civil_from_days z in
  days_from_civil y m d = z /\ 1 <= m <= 12 /\
  1 <= d <= days_in_month y m /\
  (-719528 <= z <= 2932896 -> 0 <= y <= 9999).
Proof.
  rewrite civil_from_days_era. cbv zeta.
  set (era := (z + 719468) / 146097).
  set (doe := z + 719468 - era * 146097).
  assert (Hdoe : 0 <= doe < 146097).
  { unfold doe, era.
    pose proof (Z.mod_pos_bound (z + 719468) 146097 ltac:(lia)).
    pose proof (Z.div_mod (z + 719468) 146097 ltac:(lia)). lia. }
  pose proof (all_from_spec _ _ _ era_dates_ok doe ltac:(lia)) as Hok.
  unfold era_date_ok in Hok. destruct (era_date doe) as [[yoe m] d].
  repeat (apply andb_true_iff in Hok as [Hok ?]).
  repeat match goal with
         | H : (_ <=? _) = true |- _ => apply Z.leb_le in H
         | H : (_ <? _) = true |- _ => apply Z.ltb_lt in H
         | H : (_ =? _) = true |- _ => apply Z.eqb_eq in H
         end.
  assert (Hera : (yoe + era * 400) / 400 = era).
  { rewrite Z.div_add by lia. rewrite Z.div_small by lia. lia. }
  assert (Hz : z = era * 146097 + doe - 719468) by (unfold doe; lia).
  clearbody doe era.
  assert (Hrange : -719528 <= z <= 2932896 ->
                   0 <= (if m <=? 2 then yoe + era * 400 + 1
                         else yoe + era * 400) <= 9999).
  { intros Hr.
    assert (-1 <= era <= 24) by lia.
    destruct (Z.ltb_spec doe 146037);
      match goal with
      | H : (_ <=? _) = true |- _ => apply Z.leb_le in H
      | H : (_ =? _) = true |- _ => apply Z.eqb_eq in H
      end; destruct (Z.leb_spec m 2); lia. }
  split_and!; try lia.
  - unfold days_from_civil.
    destruct (Z.leb_spec m 2).
    + replace (yoe + era * 400 + 1 - 1) with (yoe + era * 400) by lia.
      rewrite Hera.
      replace (yoe + era * 400 - era * 400) with yoe by lia. lia.
    + rewrite Hera.
      replace (yoe + era * 400 - era * 400) with yoe by lia. lia.
  - destruct (Z.leb_spec m 2).
    + replace (yoe + era * 400 + 1) with (yoe + 1 + era * 400) by lia.
      unfold days_in_month in *. rewrite is_leap_era. lia.
    + unfold days_in_month in *. rewrite is_leap_era. lia.
Qed.

Section IsoRoundTrip.

Variable legacy : string -> num.

(** X22. For every time value of the years 0 to 9999, the text that
    [toISOString] writes has 24 characters and [new Date] reads the same
    time value back from it, whatever the fallback grammar; so [parseDate]
    returns such a text unchanged. *)
Theorem toISOString_roundtrip (t : Z) :
  four_digit_year t ->
  Date legacy (toISOString t) = Some t /\
  parseDate legacy (toISOString t) = Some (toISOString t) /\
  str_length (toISOString t) = 24.
Proof.
  intros Ht. unfold four_digit_year in Ht.
  assert (Hdate : Date legacy (toISOString t) = Some t /\
                  str_length (toISOString t) = 24);
    [|destruct Hdate as [Hd Hl]; split_and!; [done| |done];
      unfold parseDate; by rewrite Hd].
  unfold toISOString. cbv zeta.
  pose proof (civil_from_days_inverse (t / ms_per_day)) as Hinv.
  destruct (civil_from_days (t / ms_per_day)) as [[y m] d].
  destruct Hinv as (Hinv & Hm & Hd & Hy).
  pose proof (Z.div_mod t ms_per_day ltac:(done)) as Hdm.
  pose proof (Z.mod_pos_bound t ms_per_day ltac:(done)) as Hrest.
  set (days := t / ms_per_day) in *. set (rest := t mod ms_per_day) in *.
  clearbody days rest. unfold ms_per_day in *.
  specialize (Hy ltac:(lia)).
  destruct (Z.leb_spec 0 y); [|lia]. destruct (Z.leb_spec y 9999); [|lia].
  cbn [andb].
  pose proof (Z.div_mod rest 3600000 ltac:(done)) as H1.
  pose proof (Z.mod_pos_bound rest 3600000 ltac:(done)) as H1'.
  pose proof (Z.div_mod rest 60000 ltac:(done)) as H2.
  pose proof (Z.mod_pos_bound rest 60000 ltac:(done)) as H2'.
  pose proof (Z.div_mod (rest / 60000) 60 ltac:(done)) as H3.
  pose proof (Z.mod_pos_bound (rest / 60000) 60 ltac:(done)) as H3'.
  pose proof (Z.div_mod rest 1000 ltac:(done)) as H4.
  pose proof (Z.mod_pos_bound rest 1000 ltac:(done)) as H4'.
  pose proof (Z.div_mod (rest / 1000) 60 ltac:(done)) as H5.
  pose proof (Z.mod_pos_bound (rest / 1000) 60 ltac:(done)) as H5'.
  set (hh := rest / 3600000) in *.
  set (mi := rest / 60000 mod 60) in *.
  set (ss := rest / 1000 mod 60) in *.
  set (ms := rest mod 1000) in *.
  assert (Hhh : 0 <= hh <= 23) by (unfold hh; lia).
  assert (Hsum : days * 86400000 + hh * 3600000 + mi * 60000
                 + ss * 1000 + ms = t) by (unfold hh, mi, ss, ms; lia).
  split.
  - unfold Date.
    rewrite (parse_iso_fields y m d hh mi ss ms) by lia.
    unfold ms_per_day. rewrite Hinv. by rewrite Hsum.
  - rewrite !str_length_append. unfold str_length.
    rewrite (proj2 (fixed_digits_pad4 y "" ltac:(lia))).
    rewrite (proj2 (fixed_digits_pad2 m "" ltac:(lia))).
    assert (days_in_month y m <= 31)
      by (unfold days_in_month; repeat case_match; lia).
    rewrite (proj2 (fixed_digits_pad2 d "" ltac:(lia))).
    rewrite (proj2 (fixed_digits_pad2 hh "" ltac:(lia))).
    rewrite (proj2 (fixed_digits_pad2 mi "" ltac:(lia))).
    rewrite (proj2 (fixed_digits_pad2 ss "" ltac:(lia))).
    rewrite (proj2 (fixed_digits_pad3 ms "" ltac:(lia))).
    reflexivity.
Qed.

End IsoRoundTrip.

Lemma toISOString_roundtrip_witness :
  Date iso_only (toISOString 1771027200000) = Some 1771027200000.
Proof.
  apply (toISOString_roundtrip iso_only 1771027200000).
  unfold four_digit_year. lia.
Defined.

(* ================================================================== *)
(** * Relative time *)
(* ================================================================== *)

Lemma div_lt_const (a k c : Z) : 0 < k -> (a / k <? c) = (a <? k * c).
Proof.
  intros Hk. pose proof (Z.div_mod a k ltac:(lia)).
  pose proof (Z.mod_pos_bound a k Hk).
  destruct (Z.ltb_spec (a / k) c), (Z.ltb_spec a (k * c)); try done; nia.
Qed.

(** Multiplies out the products of two literals in the goal. *)
Ltac fold_products :=
  repeat match goal with
         | |- context [Z.mul (Zpos ?a) (Zpos ?b)] =>
             let v := eval compute in (Z.mul (Zpos a) (Zpos b)) in
             change (Z.mul (Zpos a) (Zpos b)) with v
         end.

Section RelativeTime.

Variable legacy : string -> num.

(** X23. For a valid timestamp [t] and the clock reading [now],
    [getRelativeTime] names the age [now - t] in the unit of the band the
    age falls in, rounded down: seconds below a minute (also for a
    timestamp in the future, with a negative count), minutes below an
    hour, hours below a day, days below a week, weeks below 28 days,
    30-day months below 360 days and 365-day years from there on. *)
Theorem getRelativeTime_bands (now t : Z) (s : string) :
  Date legacy s = Some t ->
  let age := now - t in
  let text := getRelativeTime legacy now s in
  (age < ms_minute -> text = ago (age / ms_second) "second") /\
  (ms_minute <= age < ms_hour -> text = ago (age / ms_minute) "minute") /\
  (ms_hour <= age < ms_per_day -> text = ago (age / ms_hour) "hour") /\
  (ms_per_day <= age < ms_week -> text = ago (age / ms_per_day) "day") /\
  (ms_week <= age < 28 * ms_per_day -> text = ago (age / ms_week) "week") /\
  (28 * ms_per_day <= age < 360 * ms_per_day ->
     text = ago (age / (30 * ms_per_day)) "month") /\
  (360 * ms_per_day <= age -> text = ago (age / (365 * ms_per_day)) "year").
Proof.
  intros Ht. cbv zeta. unfold getRelativeTime. rewrite Ht.
  cbn [num_sub floor_div num_lt].
  set (age := now - t).
  rewrite !Z.div_div by lia.
  rewrite !div_lt_const by lia.
  unfold ms_week, ms_hour, ms_minute, ms_second, ms_per_day.
  fold_products.
  split_and!; intros Hage;
    repeat match goal with
           | |- context [?a <? ?b] =>
               destruct (Z.ltb_spec a b); try lia
           end;
    unfold ago, num_strict_eq, num_strict_ne;
    match goal with
    | |- context [?n =? 1] =>
        destruct (Z.eqb_spec n 1) as [Heq|]; [rewrite Heq|]; reflexivity
    end.
Qed.

(** X24. The bands leave gaps in which the count is zero, and an invalid
    timestamp still yields a text: an age of 28 or 29 days reads
    [0 months ago], an age of 360 to 364 days reads [0 years ago], and a
    timestamp that is not a date reads [NaN years ago]. *)
Theorem getRelativeTime_gaps (now : Z) (s : string) :
  (forall t, Date legacy s = Some t ->
     28 * ms_per_day <= now - t < 30 * ms_per_day ->
     getRelativeTime legacy now s = "0 months ago") /\
  (forall t, Date legacy s = Some t ->
     360 * ms_per_day <= now - t < 365 * ms_per_day ->
     getRelativeTime legacy now s = "0 years ago") /\
  (Date legacy s = None ->
     getRelativeTime legacy now s = "NaN years ago").
Proof.
  unfold ms_per_day. split_and!.
  - intros t Ht Hage. unfold getRelativeTime. rewrite Ht.
    cbn [num_sub floor_div num_lt].
    set (age := now - t) in *.
    rewrite !Z.div_div by lia. rewrite !div_lt_const by lia.
    repeat match goal with
           | |- context [?a <? ?b] =>
               destruct (Z.ltb_spec a b); try lia
           end.
    replace (age / (1000 * 60 * 60 * 24 * 30)) with 0; [done|].
    symmetry. apply Z.div_small. lia.
  - intros t Ht Hage. unfold getRelativeTime. rewrite Ht.
    cbn [num_sub floor_div num_lt].
    set (age := now - t) in *.
    rewrite !Z.div_div by lia. rewrite !div_lt_const by lia.
    repeat match goal with
           | |- context [?a <? ?b] =>
               destruct (Z.ltb_spec a b); try lia
           end.
    replace (age / (1000 * 60 * 60 * 24 * 365)) with 0; [done|].
    symmetry. apply Z.div_small. lia.
  - intros Ht. unfold getRelativeTime. rewrite Ht. reflexivity.
Qed.

End RelativeTime.

Lemma getRelativeTime_bands_witness :
  getRelativeTime iso_only 1771034400000 feb14 = "2 hours ago".
Proof.
  refine (proj1 (proj2 (proj2
    (getRelativeTime_bands iso_only 1771034400000 1771027200000 feb14 _))) _).
  - reflexivity.
  - unfold ms_hour, ms_minute, ms_second, ms_per_day. lia.
Defined.

(** X24 at an age of 29 days. *)
Lemma getRelativeTime_gaps_witness :
  getRelativeTime iso_only 1773532800000 feb14 = "0 months ago".
Proof.
  refine (proj1 (getRelativeTime_gaps iso_only 1773532800000 feb14)
            1771027200000 _ _).
  - reflexivity.
  - unfold ms_per_day. lia.
Defined.

(* ================================================================== *)
(** * One cycle of [syncGame]: decode, merge, sort, encode *)
(* ================================================================== *)

Lemma decodeLine_ranked (g line : string) (p : Player) :
  known_game g -> decodeLine (Some g) line = DPlayer p -> ranked g p.
Proof.
  intros Hg. unfold decodeLine, ranked.
  destruct Hg as [-> | [-> | ->]].
  - rewrite bool_decide_eq_true_2 by done. cbn [orb].
    destruct (_ <? _)%nat; [done|].
    destruct (split_rank _), (split_rank _). intros [= <-]. simpl.
    split; [done|right; done].
  - rewrite (bool_decide_eq_true_2 (Some "OVERWATCH" = Some "OVERWATCH"))
      by done.
    rewrite orb_true_r.
    destruct (_ <? _)%nat; [done|].
    destruct (split_rank _), (split_rank _). intros [= <-]. simpl.
    split; [done|right; done].
  - rewrite bool_decide_eq_false_2 by done.
    rewrite bool_decide_eq_false_2 by done. cbn [orb].
    rewrite bool_decide_eq_true_2 by done.
    destruct (_ <? _)%nat; [done|].
    destruct (split_rank _). intros [= <-]. simpl.
    split; [done|left; done].
Qed.

(** For a known game every entry of [decodePlayerData] is a record with
    the ranks of that game. *)
Lemma decodePlayerData_ranked (d g : string) :
  known_game g ->
  exists ps, decodePlayerData d (Some g) = map Some ps /\
             Forall (ranked g) ps.
Proof.
  intros Hg. unfold decodePlayerData.
  destruct (_ || _); [by exists []|].
  induction (filter _ _) as [|l ls (ps & Heq & Hall)]; [by exists []|].
  csimpl. destruct (decodeLine (Some g) l) as [| |p] eqn:E.
  - by exists ps.
  - exfalso. unfold decodeLine in E.
    destruct Hg as [-> | [-> | ->]];
      repeat (first [rewrite bool_decide_eq_true_2 in E by done
                    |rewrite bool_decide_eq_false_2 in E by done]);
      cbn [orb] in E; repeat case_match; done.
  - exists (p :: ps). csimpl. rewrite Heq. split; [done|].
    constructor; [|done]. by eapply decodeLine_ranked.
Qed.

Lemma encodeState_ranked (c : option string) (S : list Player) (g : string) :
  Forall (ranked g) S -> is_Some (encodeState c S g).
Proof.
  intros Hall. destruct (encodeState c S g) eqn:E; [done|].
  exfalso. unfold encodeState, encodePlayerData in E.
  destruct (mapM (encodePlayer g) S) eqn:Em; [done|].
  apply mapM_None in Em. apply Exists_exists in Em as (p & Hin & Hp).
  apply encodePlayer_raises in Hp as [_ Hp].
  rewrite Forall_forall in Hall. destruct (Hall p Hin) as [Hc Hpk].
  destruct Hp as [Hp | [Hne Hp]].
  - rewrite Hp in Hc. by destruct Hc.
  - destruct Hpk as [-> | Hpk]; [done|]. rewrite Hp in Hpk. by destruct Hpk.
Qed.

Section Cycle.

Variable legacy : string -> num.

Lemma parseMessage_ranked (m g : string) (p : Player) :
  parseMessage legacy m = Some p -> game p = Some g -> ranked g p.
Proof.
  unfold parseMessage. destruct (str_truthy m); [|done]. cbn [negb].
  assert (Htwo : forall tag name ranks maxTier,
             1 <= maxTier ->
             parseTwoRank legacy tag name ranks maxTier m = Some p ->
             game p = Some g -> ranked g p).
  { intros tag name ranks maxTier Hmax H Hgame.
    apply parseTwoRank_output in H as [_ H]; [|done].
    destruct H as (_ & _ & _ & _ & (? & ? & Hc & _) & _ & (? & ? & Hp & _) & _).
    split; [by rewrite Hc|right; by rewrite Hp]. }
  destruct (includes m "LB_UPDATE_MR:"); [apply Htwo; lia|].
  destruct (includes m "LB_UPDATE_OW:"); [apply Htwo; lia|].
  destruct (includes m "LB_UPDATE_DL:"); [|done].
  intros H Hgame. apply parseDeadlock_output in H as [_ H].
  destruct H as (Hg & _ & _ & _ & (? & ? & Hc & _) & _).
  split; [by rewrite Hc|left; congruence].
Qed.

Lemma upsertPlayer_Forall (P : Player -> Prop) (ps : list Player)
    (new : Player) :
  Forall P ps -> P new -> Forall P (upsertPlayer legacy ps new).1.
Proof.
  intros Hps Hnew.
  destruct (upsertPlayer_cases legacy ps new)
    as [[_ ->] | (i & old & _ & _ & _ & [-> | ->])]; simpl.
  - apply Forall_app. split; [done|]. by constructor.
  - done.
  - by apply Forall_insert.
Qed.

Lemma merge_loop_Forall (P : Player -> Prop) (us : list Successful)
    (st : Merge) :
  Forall P (m_players st) -> Forall (fun u => P (data u)) us ->
  Forall P (m_players (fold_left (merge_step legacy) us st)).
Proof.
  revert st. induction us as [|u us IH]; intros st Hst Hus; [done|].
  apply Forall_cons in Hus as [Hu Hus]. cbn [fold_left].
  apply IH; [|done]. rewrite merge_step_players.
  by apply upsertPlayer_Forall.
Qed.

(** X25. One cycle of [syncGame] never fails in the encoder: when the
    stored message is empty of state or carries the state of the configured
    game, every entry decoded from it is a record, and the board made from
    those records by merging any batch of messages and sorting is encoded
    without a missing rank, whatever the cursor. *)
Theorem syncGame_encodes (content g : string) (cursor c : option string)
    (messages : list Message) :
  known_game g ->
  gameType (decodeState content) = Some g \/
  decodeState content = empty_state ->
  exists ps,
    players (decodeState content) = map Some ps /\
    is_Some (encodeState c
               (sortPlayers legacy
                  (m_players (sync_merge legacy ps cursor messages g)) g) g).
Proof.
  intros Hg Hstate.
  assert (Hps : exists ps, players (decodeState content) = map Some ps /\
                           Forall (ranked g) ps).
  { destruct Hstate as [Hgame | ->]; [|by exists []].
    revert Hgame. unfold decodeState.
    destruct (negb (str_truthy content)); [done|]. cbv zeta.
    destruct (_ || _); [done|]. cbn [gameType players].
    intros ->. by apply decodePlayerData_ranked. }
  destruct Hps as (ps & Heq & Hall). exists ps. split; [done|].
  apply encodeState_ranked.
  assert (Hboard : Forall (ranked g)
            (m_players (sync_merge legacy ps cursor messages g))).
  { unfold sync_merge, merge_loop. apply merge_loop_Forall; [done|].
    rewrite parseMultipleUpdates_successful.
    apply Forall_forall. intros u Hu.
    apply list_elem_of_omap in Hu as (m & _ & Hacc).
    apply accepted_id in Hacc as (_ & _ & Hparse & Hgame).
    eapply parseMessage_ranked; [exact Hparse|]. apply Hgame.
    destruct Hg as [-> | [-> | ->]]; reflexivity. }
  eapply Permutation_Forall; [|exact Hboard].
  symmetry. unfold sortPlayers.
  destruct (m_players _) as [|p l]; [done|]. apply sort_by_perm.
Qed.

End Cycle.

Lemma syncGame_encodes_witness :
  exists ps,
    players (decodeState sample_blob) = map Some ps /\
    is_Some (encodeState (Some "9101")
               (sortPlayers iso_only
                  (m_players (sync_merge iso_only ps (Some "9002")
                                         [msg_deadlock] "DEADLOCK"))
                  "DEADLOCK") "DEADLOCK").
Proof.
  apply (syncGame_encodes iso_only sample_blob "DEADLOCK").
  - right. right. reflexivity.
  - left. reflexivity.
Defined.

(* ================================================================== *)
(** * Round trip of the state codec *)
(* ================================================================== *)

(** ** Texts that do not hold a needle *)

Lemma includes_false (s needle : string) :
  includes s needle = false <-> indexOf s needle = -1.
Proof.
  unfold includes.
  destruct (Z.leb_spec 0 (indexOf s needle)),
           (indexOf_range s needle); split; intros; try done; lia.
Qed.

Lemma indexOf_cons_absent (c : ascii) (r needle : string) :
  indexOf (String c r) needle = -1 <->
  String.prefix needle (String c r) = false /\ indexOf r needle = -1.
Proof.
  cbn [indexOf]. destruct (String.prefix needle (String c r)).
  - split; [done|]. by intros [? _].
  - destruct (indexOf_range r needle) as [-> | H]; [done|].
    destruct (Z.ltb_spec (indexOf r needle) 0); split; intros; lia.
Qed.

Lemma head_not_sep (sep n : ascii) (needle : string) :
  lacks sep (String n needle) = true -> n <> sep.
Proof.
  unfold lacks. simpl. intros H ->. by rewrite Ascii.eqb_refl in H.
Qed.

(** A needle without the separator that starts in front of a separator
    ends in front of it. *)
Lemma prefix_app_sep (needle a y : string) (sep : ascii) :
  lacks sep needle = true ->
  String.prefix needle (a +:+ String sep y) = true ->
  String.prefix needle a = true.
Proof.
  revert needle. induction a as [|c a IH]; intros needle Hn H.
  - destruct needle as [|n needle]; [done|]. rewrite append_nil_l in H.
    rewrite prefix_head_ne in H; [done|]. by eapply head_not_sep.
  - destruct needle as [|n needle]; [done|]. rewrite append_cons in H.
    simpl in *. destruct (ascii_dec n c); [|done]. apply IH; [|done].
    unfold lacks in *. simpl in Hn. by apply andb_true_iff in Hn as [_ ?].
Qed.

Lemma absent_app_sep (needle x y : string) (sep : ascii) :
  needle <> "" -> lacks sep needle = true ->
  indexOf x needle = -1 -> indexOf y needle = -1 ->
  indexOf (x +:+ String sep y) needle = -1.
Proof.
  intros Hne Hsep Hx Hy. induction x as [|c x IH].
  - rewrite append_nil_l. apply indexOf_cons_absent. split; [|done].
    destruct needle as [|n needle]; [done|].
    apply prefix_head_ne. by eapply head_not_sep.
  - apply indexOf_cons_absent in Hx as [Hp Hx]. rewrite append_cons.
    apply indexOf_cons_absent. split; [|by apply IH].
    destruct (String.prefix needle (String c (x +:+ String sep y))) eqn:E;
      [|done].
    rewrite <- append_cons in E. apply prefix_app_sep in E; [|done].
    congruence.
Qed.

Lemma absent_join (needle : string) (sep : ascii) (fs : list string) :
  needle <> "" -> lacks sep needle = true ->
  Forall (fun f => indexOf f needle = -1) fs ->
  indexOf (join (String sep "") fs) needle = -1.
Proof.
  intros Hne Hsep Hall. induction Hall as [|f fs Hf Hfs IH].
  - by destruct needle.
  - destruct fs as [|f' t]; [done|]. rewrite join_cons2.
    by apply absent_app_sep.
Qed.

Lemma lacks_absent (c : ascii) (needle s : string) :
  lacks c s = true -> indexOf s (String c needle) = -1.
Proof.
  induction s as [|a s IH]; intros H; [done|].
  unfold lacks in H. simpl in H. apply andb_true_iff in H as [Ha H].
  apply indexOf_cons_absent. split; [|by apply IH].
  apply prefix_head_ne. intros <-. by rewrite Ascii.eqb_refl in Ha.
Qed.

(** The first occurrence of a needle behind a text that does not hold it
    and a separator that is not in it. *)
Lemma indexOf_after_sep (needle x z : string) (sep : ascii) :
  needle <> "" -> lacks sep needle = true -> indexOf x needle = -1 ->
  indexOf (x +:+ String sep (needle +:+ z)) needle = str_length x + 1.
Proof.
  intros Hne Hsep Hx. induction x as [|c x IH].
  - rewrite append_nil_l. rewrite indexOf_skip.
    + by rewrite indexOf_prefix by apply prefix_app.
    + destruct needle as [|n needle]; [done|].
      apply prefix_head_ne. by eapply head_not_sep.
    + by rewrite indexOf_prefix by apply prefix_app.
  - apply indexOf_cons_absent in Hx as [Hp Hx]. rewrite append_cons.
    pose proof (str_length_nonneg x).
    rewrite indexOf_skip.
    + rewrite IH by done. unfold str_length. cbn [String.length]. lia.
    + destruct (String.prefix needle
                  (String c (x +:+ String sep (needle +:+ z)))) eqn:E;
        [|done].
      rewrite <- append_cons in E. apply prefix_app_sep in E; [|done].
      congruence.
    + rewrite IH by done. lia.
Qed.

(** ** Fields *)

Lemma field_text_num (n : num) : field_text (num_to_string n).
Proof.
  split_and!; [by apply num_lacks..|].
  apply includes_false. apply (lacks_absent "[" "/DATA]").
  by apply num_lacks.
Qed.

Lemma field_text_rank (r : Rank) :
  field_text (rank r) -> field_text (rank_text r).
Proof.
  intros (Hlf & Hbar & Hend). unfold rank_text. split_and!.
  - unfold lacks in *. rewrite !str_forallb_app, Hlf. simpl.
    by apply (num_lacks LF).
  - unfold lacks in *. rewrite !str_forallb_app, Hbar. simpl.
    by apply (num_lacks "|").
  - apply includes_false.
    change (rank r +:+ " " +:+ num_to_string (tier r))
      with (rank r +:+ String " " (num_to_string (tier r))).
    apply absent_app_sep; [done|done|by apply includes_false|].
    apply (lacks_absent "[" "/DATA]"). by apply num_lacks.
Qed.

Lemma split_rank_rank_text (r : Rank) :
  lacks " " (rank r) = true ->
  split_rank (rank_text r) = (rank r, Some (num_to_string (tier r))).
Proof.
  intros Hr. unfold split_rank, rank_text.
  change (rank r +:+ " " +:+ num_to_string (tier r))
    with (join (String " " "") [rank r; num_to_string (tier r)]).
  rewrite split_char_join; [done..|].
  repeat constructor; [done|by apply num_lacks].
Qed.

Lemma trimStart_length (t : string) :
  (String.length (trimStart t) <= String.length t)%nat.
Proof.
  induction t as [|a t IH]; [done|]. simpl.
  destruct (is_space a); simpl; lia.
Qed.

Lemma trimStart_fixed (s x : string) :
  trimStart s = s -> s <> "" -> trimStart (s +:+ x) = s +:+ x.
Proof.
  destruct s as [|c s]; [done|]. intros H _. rewrite append_cons.
  apply trimStart_solid. simpl in H. destruct (is_space c) eqn:E; [|done].
  pose proof (trimStart_length s) as Hlen. rewrite H in Hlen.
  simpl in Hlen. lia.
Qed.

(** The line made of fields: what the decoder needs of it, and the fields
    that [split] finds in it. *)
Lemma fields_good_line (u : string) (mid : list string) (last : string) :
  Forall field_text (u :: mid ++ [last]) ->
  trimStart u = u -> trimEnd last = last ->
  good_line (join "|" (u :: mid ++ [last])) /\
  split_char "|" (join "|" (u :: mid ++ [last])) = u :: mid ++ [last].
Proof.
  intros Hall Hu Hlast.
  assert (Hshape : join "|" (u :: mid ++ [last])
                   = join "|" (u :: mid) +:+ String "|" last).
  { change (u :: mid ++ [last]) with ((u :: mid) ++ [last]).
    by apply join_snoc. }
  split; [split|].
  - unfold lacks. apply str_forallb_join; [done|].
    eapply Forall_impl; [exact Hall|]. by intros f (? & _).
  - apply includes_false. apply absent_join; [done..|].
    eapply Forall_impl; [exact Hall|]. intros f (_ & _ & H).
    by apply includes_false.
  - intros x.
    assert (exists r, join "|" (u :: mid ++ [last]) = u +:+ String "|" r)
      as [r ->].
    { destruct (mid ++ [last]) as [|y t] eqn:E.
      - by destruct mid.
      - eexists. apply join_cons2. }
    destruct u as [|c u]; [by rewrite append_nil_l|].
    rewrite append_assoc. by apply trimStart_fixed.
  - rewrite Hshape. apply trimEnd_keep; [|done].
    by apply trimEnd_cons_solid.
  - rewrite Hshape. by destruct (join "|" (u :: mid)).
  - apply split_char_join; [done|].
    eapply Forall_impl; [exact Hall|]. by intros f (_ & ? & _).
Qed.

(** ** Lines *)

Lemma two_rank_line (g : string) (p : Player) :
  two_rank_game g -> storable g p ->
  exists line, encodePlayer g p = Some (Some line) /\ good_line line /\
               decodeLine (Some g) line = DPlayer (persisted p).
Proof.
  intros Hg (Hu & Hus & Hlu & Hlue & Hcr & _ & Hrest).
  assert (Hdl : str_eqb g "DEADLOCK" = false)
    by (destruct Hg as [-> | ->]; reflexivity).
  assert (Hor : str_eqb g "MARVEL_RIVALS" || str_eqb g "OVERWATCH" = true)
    by (destruct Hg as [-> | ->]; reflexivity).
  assert (Hor' : bool_decide (Some g = Some "MARVEL_RIVALS")
                 || bool_decide (Some g = Some "OVERWATCH") = true)
    by (destruct Hg as [-> | ->]; reflexivity).
  rewrite Hdl in Hrest. destruct Hrest as (Hrole & Hhero & Hpr & Hpv).
  destruct p as [gm u ro he cr cv pr pv lu rm]. simpl in *.
  destruct cr as [cr|]; [|done]. destruct pr as [pr|]; [|done].
  destruct ro as [ro|]; [|done]. destruct Hpv as (pv' & -> & _). subst he.
  destruct Hrole as [Hne Hro].
  destruct Hcr as (Hcr & Hcrs & _). destruct Hpr as (Hpr & Hprs & _).
  destruct (fields_good_line u
              [ro; rank_text cr; num_to_string cv; rank_text pr;
               num_to_string pv'] lu) as [Hgood Hsplit]; [|done..|].
  { cbn [app]. repeat (apply Forall_cons; split);
      first [ done | apply field_text_num | by apply field_text_rank
            | by constructor ]. }
  cbn [app] in Hgood, Hsplit.
  exists (join "|" [u; ro; rank_text cr; num_to_string cv; rank_text pr;
                    num_to_string pv'; lu]).
  split_and!; [|done|].
  - unfold encodePlayer. rewrite Hor. cbn [currentRank peakRank mbind
      option_bind userId role currentValue peakValue lastUpdated joined_num].
    by rewrite or_unknown_label.
  - unfold decodeLine. rewrite Hor', Hsplit.
    cbn [length Nat.ltb Nat.leb part lookup list_lookup default from_option].
    unfold Datatypes.id.
    rewrite !split_rank_rank_text by done.
    cbn [parseInt_opt]. rewrite !parseInt_num_to_string.
    unfold persisted. simpl. by destruct cr, pr.
Qed.

Lemma deadlock_line (p : Player) :
  storable "DEADLOCK" p ->
  exists line, encodePlayer "DEADLOCK" p = Some (Some line) /\ good_line line /\
               decodeLine (Some "DEADLOCK") line = DPlayer (persisted p).
Proof.
  intros (Hu & Hus & Hlu & Hlue & Hcr & _ & Hrest).
  change (str_eqb "DEADLOCK" "DEADLOCK") with true in Hrest.
  destruct Hrest as (Hhero & Hrole & Hpr & Hpv).
  destruct p as [gm u ro he cr cv pr pv lu rm]. simpl in *.
  destruct cr as [cr|]; [|done]. destruct he as [he|]; [|done].
  subst ro pr pv. destruct Hhero as [Hne Hhe].
  destruct Hcr as (Hcr & Hcrs & _).
  destruct (fields_good_line u [he; rank_text cr; num_to_string cv] lu)
    as [Hgood Hsplit]; [|done..|].
  { cbn [app]. repeat (apply Forall_cons; split);
      first [ done | apply field_text_num | by apply field_text_rank
            | by constructor ]. }
  cbn [app] in Hgood, Hsplit.
  exists (join "|" [u; he; rank_text cr; num_to_string cv; lu]).
  split_and!; [|done|].
  - unfold encodePlayer.
    change (str_eqb "DEADLOCK" "MARVEL_RIVALS" || str_eqb "DEADLOCK" "OVERWATCH")
      with false.
    change (str_eqb "DEADLOCK" "DEADLOCK") with true.
    cbn [currentRank mbind option_bind userId heroName currentValue
         lastUpdated].
    by rewrite or_unknown_label.
  - unfold decodeLine.
    change (bool_decide (Some "DEADLOCK" = Some "MARVEL_RIVALS")
            || bool_decide (Some "DEADLOCK" = Some "OVERWATCH")) with false.
    change (bool_decide (Some "DEADLOCK" = Some "DEADLOCK")) with true.
    rewrite Hsplit.
    cbn [length Nat.ltb Nat.leb part lookup list_lookup default from_option].
    unfold Datatypes.id.
    rewrite !split_rank_rank_text by done.
    cbn [parseInt_opt]. rewrite !parseInt_num_to_string.
    unfold persisted. simpl. by destruct cr.
Qed.

Lemma storable_line (g : string) (p : Player) :
  known_game g -> storable g p ->
  exists line, encodePlayer g p = Some (Some line) /\ good_line line /\
               decodeLine (Some g) line = DPlayer (persisted p).
Proof.
  intros [Hg | [Hg | ->]] Hp.
  - apply two_rank_line; [by left|done].
  - apply two_rank_line; [by right|done].
  - by apply deadlock_line.
Qed.

Lemma encodePlayerData_lines (g : string) (S : list Player) :
  known_game g -> Forall (storable g) S ->
  exists lines,
    encodePlayerData S g = Some (join NL lines) /\
    Forall good_line lines /\
    Forall2 (fun line p => decodeLine (Some g) line = DPlayer (persisted p))
            lines S.
Proof.
  intros Hg HS.
  assert (exists lines,
            Forall2 (fun p l => encodePlayer g p = Some (Some l)) S lines /\
            Forall good_line lines /\
            Forall2 (fun line p =>
                       decodeLine (Some g) line = DPlayer (persisted p))
                    lines S) as (lines & Henc & Hgood & Hdec).
  { induction HS as [|p S Hp HS IH].
    - exists []. split_and!; constructor.
    - destruct IH as (lines & Henc & Hgood & Hdec).
      destruct (storable_line g p Hg Hp) as (line & He & Hl & Hd).
      exists (line :: lines). split_and!; by constructor. }
  exists lines. split_and!; [|done..].
  unfold encodePlayerData.
  rewrite (mapM_Some_2 (encodePlayer g) S (map Some lines)).
  - simpl. f_equal. f_equal. rewrite map_map. simpl. apply map_id.
  - apply Forall2_fmap_r. exact Henc.
Qed.

Lemma good_line_not_blank (line : string) :
  good_line line -> str_truthy (trim line) = true.
Proof.
  intros [_ _ Hstart Hend Hne]. unfold trim.
  specialize (Hstart ""). rewrite append_nil_r in Hstart.
  rewrite Hstart, Hend. by destruct line.
Qed.

Lemma good_lines_body (lines : list string) :
  lines <> [] -> Forall good_line lines ->
  (forall x, trimStart (join NL lines +:+ x) = join NL lines +:+ x) /\
  trimEnd (join NL lines) = join NL lines /\
  join NL lines <> "".
Proof.
  intros Hne Hall. split_and!.
  - intros x. destruct Hall as [|l ls Hl Hls]; [done|].
    destruct ls as [|l' t]; [apply Hl|].
    unfold NL. rewrite join_cons2, append_assoc. apply Hl.
  - induction Hall as [|l ls Hl Hls IH]; [done|].
    destruct ls as [|l' t]; [apply Hl|].
    unfold NL in *. rewrite join_cons2.
    change (String LF (join (String LF "") (l' :: t)))
      with (String LF "" +:+ join (String LF "") (l' :: t)).
    rewrite <- append_assoc.
    assert (Hr : join (String LF "") (l' :: t) <> "").
    { apply Forall_cons in Hls as [Hl' _]. destruct t as [|l'' t'].
      - apply Hl'.
      - rewrite join_cons2. destruct l'; done. }
    apply trimEnd_keep; [by apply IH|done].
  - destruct Hall as [|l ls Hl Hls]; [done|].
    destruct ls as [|l' t]; [apply Hl|].
    unfold NL. rewrite join_cons2. destruct l; [|done].
    by destruct Hl.
Qed.

Lemma decodePlayerData_lines (g : string) (lines : list string)
    (S : list Player) :
  Forall good_line lines ->
  Forall2 (fun line p => decodeLine (Some g) line = DPlayer (persisted p))
          lines S ->
  decodePlayerData (join NL lines) (Some g)
  = map (fun p => Some (persisted p)) S.
Proof.
  intros Hgood Hdec. destruct lines as [|l ls].
  - apply Forall2_nil_inv_l in Hdec as ->. reflexivity.
  - destruct (good_lines_body (l :: ls)) as (Hstart & Hend & Hne);
      [done..|].
    specialize (Hstart ""). rewrite append_nil_r in Hstart.
    unfold decodePlayerData, trim. rewrite Hstart, Hend.
    assert (Htr : str_truthy (join NL (l :: ls)) = true)
      by by destruct (join NL (l :: ls)).
    rewrite Htr. cbn [negb orb]. unfold NL.
    rewrite split_char_join; [|done|].
    + rewrite filter_all
        by (eapply Forall_impl; [exact Hgood|apply good_line_not_blank]).
      clear Hstart Hend Hne Htr Hgood.
      induction Hdec as [|line p lines' S' Hd Hrest IH]; [done|].
      csimpl. rewrite Hd. csimpl. by rewrite IH.
    + eapply Forall_impl; [exact Hgood|]. intros x Hx. apply Hx.
Qed.

(** ** The blob *)

Lemma match_tag_app (tag x : string) :
  tag_value x -> match_tag tag (tag +:+ x) = Some x.
Proof.
  intros (Hne & Hterm & _ & _). unfold match_tag.
  rewrite startsWith_app, substring_from_app, Hterm.
  by destruct x.
Qed.

Lemma str_length_cons (c : ascii) (s : string) :
  str_length (String c s) = 1 + str_length s.
Proof. unfold str_length. cbn [String.length]. lia. Qed.

Lemma blob_end_index (G L body : string) :
  indexOf G DATA_END_MARKER = -1 -> indexOf L DATA_END_MARKER = -1 ->
  indexOf body DATA_END_MARKER = -1 ->
  indexOf (DATA_START_MARKER +:+ data_section G L body +:+ DATA_END_MARKER)
          DATA_END_MARKER
  = str_length DATA_START_MARKER + str_length (data_section G L body).
Proof.
  intros HG HL Hb.
  set (x := DATA_START_MARKER
            +:+ String LF (G +:+ String LF (L +:+ String LF body))).
  assert (Hx : indexOf x DATA_END_MARKER = -1).
  { unfold x. apply absent_app_sep; [done..|].
    apply absent_app_sep; [done..|]. by apply absent_app_sep. }
  replace (DATA_START_MARKER +:+ data_section G L body +:+ DATA_END_MARKER)
    with (x +:+ String LF (DATA_END_MARKER +:+ "")).
  - rewrite indexOf_after_sep by done. unfold x, data_section, NL.
    repeat first [ rewrite str_length_append | rewrite str_length_cons ].
    change (str_length "") with 0. lia.
  - unfold x, data_section, NL. rewrite append_nil_r. by norm_app.
Qed.

Lemma trim_data_section (G L : string) (lines : list string) :
  (forall x, trimStart (G +:+ x) = G +:+ x) ->
  trimEnd L = L -> L <> "" -> Forall good_line lines ->
  trim (data_section G L (join NL lines)) = join NL (G :: L :: lines).
Proof.
  intros HG HL HLne Hlines. unfold trim, data_section.
  cbn [trimStart]. change (is_space LF) with true. cbv iota.
  rewrite HG. destruct lines as [|l ls].
  - cbn [join]. change ("" +:+ NL) with NL.
    change (G +:+ String LF (L +:+ String LF NL))
      with (G +:+ String LF (L +:+ (String LF NL))).
    replace (G +:+ String LF (L +:+ String LF NL))
      with ((G +:+ String LF L) +:+ String LF NL)
      by (by norm_app).
    rewrite trimEnd_app_spaces by done.
    change (G +:+ String LF L) with (G +:+ (NL +:+ L)).
    rewrite <- append_assoc. rewrite trimEnd_keep by done.
    by norm_app.
  - destruct (good_lines_body (l :: ls)) as (_ & Hend & Hne); [done..|].
    set (body := join NL (l :: ls)) in *.
    replace (G +:+ String LF (L +:+ String LF (body +:+ NL)))
      with ((G +:+ String LF (L +:+ String LF body)) +:+ NL)
      by (by norm_app).
    rewrite trimEnd_app_spaces by done.
    replace (G +:+ String LF (L +:+ String LF body))
      with ((G +:+ String LF (L +:+ NL)) +:+ body)
      by (by norm_app).
    rewrite trimEnd_keep by done.
    unfold NL, body. rewrite !join_cons2. by norm_app.
Qed.

Lemma tag_value_none : tag_value "none".
Proof. by split_and!. Qed.

Lemma game_line_facts (g : string) :
  known_game g ->
  (forall y, trimStart (("GAME:" +:+ g) +:+ y) = ("GAME:" +:+ g) +:+ y) /\
  lacks LF ("GAME:" +:+ g) = true /\
  indexOf ("GAME:" +:+ g) DATA_END_MARKER = -1 /\
  match_tag "GAME:" ("GAME:" +:+ g) = Some g.
Proof. intros [-> | [-> | ->]]; split_and!; try reflexivity; by intros y. Qed.

Lemma last_line_facts (c' : string) :
  tag_value c' ->
  trimEnd ("LAST:" +:+ c') = "LAST:" +:+ c' /\ "LAST:" +:+ c' <> "" /\
  lacks LF ("LAST:" +:+ c') = true /\
  indexOf ("LAST:" +:+ c') DATA_END_MARKER = -1 /\
  match_tag "LAST:" ("LAST:" +:+ c') = Some c'.
Proof.
  intros Hc. pose proof Hc as (Hne & Hterm & Hend & Htrim). split_and!.
  - by apply trimEnd_keep.
  - done.
  - unfold lacks. rewrite str_forallb_app. simpl.
    eapply str_forallb_impl; [|exact Hterm].
    intros c H. by destruct c as [[] [] [] [] [] [] [] []].
  - apply includes_false in Hend.
    change DATA_END_MARKER with (String "[" "/DATA]") in *.
    rewrite indexOf_app_lacks by reflexivity. by rewrite Hend.
  - by apply match_tag_app.
Qed.

Lemma decodeState_blob (g c' : string) (lines : list string) :
  known_game g -> tag_value c' -> Forall good_line lines ->
  decodeState (join NL [DATA_START_MARKER; "GAME:" +:+ g; "LAST:" +:+ c';
                        join NL lines; DATA_END_MARKER])
  = mkState (Some g)
            (if negb (str_eqb c' "none") then Some c' else None)
            (decodePlayerData (join NL lines) (Some g)).
Proof.
  intros Hg Hc Hlines.
  destruct (game_line_facts g Hg) as (HGs & HGl & HGe & HGm).
  destruct (last_line_facts c' Hc) as (HLe & HLn & HLl & HLend & HLm).
  set (G := "GAME:" +:+ g) in *. set (L := "LAST:" +:+ c') in *.
  set (body := join NL lines).
  assert (Hbody : indexOf body DATA_END_MARKER = -1).
  { apply absent_join; [done..|].
    eapply Forall_impl; [exact Hlines|]. intros l Hl.
    apply includes_false. apply Hl. }
  rewrite blob_shape. unfold decodeState.
  assert (Htruthy : str_truthy (DATA_START_MARKER +:+ data_section G L body
                                +:+ DATA_END_MARKER) = true) by reflexivity.
  rewrite Htruthy. cbn [negb]. cbv zeta.
  rewrite (indexOf_prefix _ DATA_START_MARKER) by apply prefix_app.
  rewrite blob_end_index by done.
  pose proof (str_length_nonneg (data_section G L body)) as Hlen.
  change (str_length DATA_START_MARKER) with 9 in *.
  destruct (Z.eqb_spec (9 + str_length (data_section G L body)) (-1)); [lia|].
  cbn [Z.eqb orb]. rewrite Z.add_0_l.
  change 9 with (str_length DATA_START_MARKER).
  rewrite substring_middle.
  unfold body. rewrite trim_data_section by done.
  unfold NL. rewrite split_char_join; [|done|].
  - cbn [part lookup list_lookup default from_option drop mbind option_bind].
    unfold Datatypes.id. rewrite HGm, HLm. reflexivity.
  - constructor; [done|]. constructor; [done|].
    eapply Forall_impl; [exact Hlines|]. intros l Hl. apply Hl.
Qed.

(** X26. For a known game, a list of storable records and a cursor that is
    absent or a one-line text other than [none], the blob that
    [encodeState] writes is decoded by [decodeState] into the same game,
    the same cursor and the same records, field by field and in the same
    order. *)
Theorem encode_decode_roundtrip (c : option string) (S : list Player)
    (g : string) :
  known_game g -> storable_cursor c -> Forall (storable g) S ->
  exists blob,
    encodeState c S g = Some blob /\
    decodeState blob
    = mkState (Some g) c (map (fun p => Some (persisted p)) S).
Proof.
  intros Hg Hc HS.
  destruct (encodePlayerData_lines g S Hg HS) as (lines & Henc & Hgood & Hdec).
  set (c' := match c with
             | Some s => if str_truthy s then s else "none"
             | None => "none"
             end).
  exists (join NL [DATA_START_MARKER; "GAME:" +:+ g; "LAST:" +:+ c';
                   join NL lines; DATA_END_MARKER]).
  split.
  - unfold encodeState. rewrite Henc. reflexivity.
  - assert (Hc' : tag_value c' /\
                  (if negb (str_eqb c' "none") then Some c' else None) = c).
    { unfold c'. destruct c as [s|]; [|split; [apply tag_value_none|done]].
      destruct Hc as (Hnone & Htag). pose proof Htag as (Hne & _).
      destruct s as [|a s]; [done|].
      cbn [str_truthy]. split; [done|].
      unfold str_eqb. by rewrite bool_decide_eq_false_2. }
    destruct Hc' as [Htag Hcur].
    rewrite decodeState_blob by done.
    rewrite Hcur. f_equal. by apply decodePlayerData_lines.
Qed.

Lemma encode_decode_roundtrip_witness :
  exists blob,
    encodeState (Some "9002") [carol; tank_eu; alice_old] "MARVEL_RIVALS"
      = Some blob /\
    decodeState blob
    = mkState (Some "MARVEL_RIVALS") (Some "9002")
              (map (fun p => Some (persisted p)) [carol; tank_eu; alice_old]).
Proof.
  apply (encode_decode_roundtrip (Some "9002") [carol; tank_eu; alice_old]
           "MARVEL_RIVALS").
  - left. reflexivity.
  - split; [discriminate|]. split_and!; [discriminate|reflexivity..].
  - repeat (apply Forall_cons; split); [..|apply Forall_nil_2];
      unfold storable, storable_rank, storable_label, field_text, safe_num;
      change (str_eqb "MARVEL_RIVALS" "DEADLOCK") with false;
      cbn; split_and!; try reflexivity; try discriminate; try lia;
      (eexists; split; [reflexivity|cbn; lia]).
Defined.
